(** * The speech-synthesis wire protocol: codec, demultiplexer, session helpers

    A shallow embedding of [protocols.ts] (message model, [marshalMessage],
    [unmarshalMessage], the per-socket message registry, [ReceiveMessage],
    [WaitForEvent]) and of the streaming loop of
    [TTSService.synthesizeSingle] / [unidirectional_stream.ts].

    Conventions of the embedding:
    - JavaScript numbers that the protocol uses are integers, modelled in [Z];
      typed-array stores and [DataView] accessors have their wrap-around
      written out.
    - A [Uint8Array] is a [list byte]; offsets are [nat], and a length read
      from the wire stays in [Z] until it is known to fit the buffer.
    - A JavaScript string is kept in its UTF-8 form (a Rocq [string] is a
      sequence of bytes): [Buffer.from(s, 'utf8')] gives those bytes and
      [TextDecoder.decode] reads them back, less a leading byte order mark.
      Replacement of ill-formed sequences by U+FFFD is outside the model.
    - A thrown [Error] is a value of [Error]; functions that can throw return
      [result]. *)

From Stdlib Require Import ZArith List Ascii String Strings.Byte Lia Bool.
From Stdlib Require Import DecimalString DecimalZ DecimalPos.
From stdpp Require Import base option list strings gmap.
Import ListNotations.
Local Open Scope Z_scope.

(** * Part I: the embedding *)

(** ** Enumerations

    TypeScript numeric enums: a field typed by one of them holds whatever
    number the wire carried, so the fields are [Z] and the members are
    constants. *)
Module EventType.
Definition None_ : Z := 0.
Definition StartConnection : Z := 1.
Definition FinishConnection : Z := 2.
Definition ConnectionStarted : Z := 50.
Definition ConnectionFailed : Z := 51.
Definition ConnectionFinished : Z := 52.
Definition StartSession : Z := 100.
Definition CancelSession : Z := 101.
Definition FinishSession : Z := 102.
Definition SessionStarted : Z := 150.
Definition SessionCanceled : Z := 151.
Definition SessionFinished : Z := 152.
Definition SessionFailed : Z := 153.
Definition UsageResponse : Z := 154.
Definition TaskRequest : Z := 200.
Definition UpdateConfig : Z := 201.
Definition AudioMuted : Z := 250.
Definition SayHello : Z := 300.
Definition TTSSentenceStart : Z := 350.
Definition TTSSentenceEnd : Z := 351.
Definition TTSResponse : Z := 352.
Definition TTSEnded : Z := 359.
Definition PodcastRoundStart : Z := 360.
Definition PodcastRoundResponse : Z := 361.
Definition PodcastRoundEnd : Z := 362.
Definition ASRInfo : Z := 450.
Definition ASRResponse : Z := 451.
Definition ASREnded : Z := 459.
Definition ChatTTSText : Z := 500.
Definition ChatResponse : Z := 550.
Definition ChatEnded : Z := 559.
Definition SourceSubtitleStart : Z := 650.
Definition SourceSubtitleResponse : Z := 651.
Definition SourceSubtitleEnd : Z := 652.
Definition TranslationSubtitleStart : Z := 653.
Definition TranslationSubtitleResponse : Z := 654.
Definition TranslationSubtitleEnd : Z := 655.

(** The reverse mapping [EventType[n]] that the compiled enum object
    carries. *)
Definition names : list (Z * string) :=
  [ (0, "None"); (1, "StartConnection"); (2, "FinishConnection");
    (50, "ConnectionStarted"); (51, "ConnectionFailed");
    (52, "ConnectionFinished"); (100, "StartSession");
    (101, "CancelSession"); (102, "FinishSession");
    (150, "SessionStarted"); (151, "SessionCanceled");
    (152, "SessionFinished"); (153, "SessionFailed");
    (154, "UsageResponse"); (200, "TaskRequest"); (201, "UpdateConfig");
    (250, "AudioMuted"); (300, "SayHello"); (350, "TTSSentenceStart");
    (351, "TTSSentenceEnd"); (352, "TTSResponse"); (359, "TTSEnded");
    (360, "PodcastRoundStart"); (361, "PodcastRoundResponse");
    (362, "PodcastRoundEnd"); (450, "ASRInfo"); (451, "ASRResponse");
    (459, "ASREnded"); (500, "ChatTTSText"); (550, "ChatResponse");
    (559, "ChatEnded"); (650, "SourceSubtitleStart");
    (651, "SourceSubtitleResponse"); (652, "SourceSubtitleEnd");
    (653, "TranslationSubtitleStart");
    (654, "TranslationSubtitleResponse");
    (655, "TranslationSubtitleEnd") ]%string.
End EventType.

Module MsgType.
Definition Invalid : Z := 0.
Definition FullClientRequest : Z := 1.
Definition AudioOnlyClient : Z := 2.
Definition FullServerResponse : Z := 9.
Definition AudioOnlyServer : Z := 11.
Definition FrontEndResultServer : Z := 12.
Definition Error : Z := 15.

Definition names : list (Z * string) :=
  [ (0, "Invalid"); (1, "FullClientRequest"); (2, "AudioOnlyClient");
    (9, "FullServerResponse"); (11, "AudioOnlyServer");
    (12, "FrontEndResultServer"); (15, "Error") ]%string.
End MsgType.

Module MsgTypeFlagBits.
Definition NoSeq : Z := 0.
Definition PositiveSeq : Z := 1.
Definition LastNoSeq : Z := 2.
Definition NegativeSeq : Z := 3.
Definition WithEvent : Z := 4.
End MsgTypeFlagBits.

Module VersionBits.
Definition Version1 : Z := 1.
Definition Version2 : Z := 2.
Definition Version3 : Z := 3.
Definition Version4 : Z := 4.
End VersionBits.

Module HeaderSizeBits.
Definition HeaderSize4 : Z := 1.
Definition HeaderSize8 : Z := 2.
Definition HeaderSize12 : Z := 3.
Definition HeaderSize16 : Z := 4.
End HeaderSizeBits.

Module SerializationBits.
Definition Raw : Z := 0.
Definition JSON : Z := 1.
Definition Thrift : Z := 3.
Definition Custom : Z := 15.
End SerializationBits.

Module CompressionBits.
Definition None_ : Z := 0.
Definition Gzip : Z := 1.
Definition Custom : Z := 15.
End CompressionBits.

(** ** The message envelope *)
Record Message : Type := mkMessage {
  version : Z;
  headerSize : Z;
  type : Z;
  flag : Z;
  serialization : Z;
  compression : Z;
  event : option Z;
  sessionId : option string;
  connectId : option string;
  sequence : option Z;
  errorCode : option Z;
  payload : list byte
}.

(** Field assignments [msg.f = v]. *)
Definition set_event (v : option Z) (m : Message) : Message :=
  mkMessage (version m) (headerSize m) (type m) (flag m) (serialization m)
    (compression m) v (sessionId m) (connectId m) (sequence m) (errorCode m)
    (payload m).

Definition set_sessionId (v : option string) (m : Message) : Message :=
  mkMessage (version m) (headerSize m) (type m) (flag m) (serialization m)
    (compression m) (event m) v (connectId m) (sequence m) (errorCode m)
    (payload m).

Definition set_connectId (v : option string) (m : Message) : Message :=
  mkMessage (version m) (headerSize m) (type m) (flag m) (serialization m)
    (compression m) (event m) (sessionId m) v (sequence m) (errorCode m)
    (payload m).

Definition set_sequence (v : option Z) (m : Message) : Message :=
  mkMessage (version m) (headerSize m) (type m) (flag m) (serialization m)
    (compression m) (event m) (sessionId m) (connectId m) v (errorCode m)
    (payload m).

Definition set_errorCode (v : option Z) (m : Message) : Message :=
  mkMessage (version m) (headerSize m) (type m) (flag m) (serialization m)
    (compression m) (event m) (sessionId m) (connectId m) (sequence m) v
    (payload m).

Definition set_payload (v : list byte) (m : Message) : Message :=
  mkMessage (version m) (headerSize m) (type m) (flag m) (serialization m)
    (compression m) (event m) (sessionId m) (connectId m) (sequence m)
    (errorCode m) v.

(** ** Errors and results

    The source throws [Error] objects that differ only by their text; each
    constructor stands for one text (given next to it) and is named after the
    class the specification files it under. *)
Inductive Error : Type :=
| FrameTooShort (got : nat)
    (* data too short: expected at least 3 bytes, got <got> *)
| TruncatedField (what : string)
    (* insufficient data for <what> *)
| UnsupportedMessageType (t : Z)
    (* unsupported message type: <t> *)
| InvalidTypedArrayLength (n : Z)
    (* RangeError of [new Uint8Array(n)] for negative n *)
| UnexpectedMessage (typeName eventName : string)
    (* Unexpected message: type=<typeName>, event=<eventName> *)
| UnknownMessage (msg : Message)
    (* the streaming loop's default branch: msg.toString() *)
| EmptyResult
    (* no audio received *)
| TypeError
    (* a property read on [undefined]: the handler found no registry entry *)
| ProcessingError (cause : Error).
    (* Error processing message: <cause> *)

Inductive result (A : Type) : Type :=
| Ok (a : A)
| Err (e : Error).

Arguments Ok {A} a.

Arguments Err {A} e.

#[global] Instance result_ret : MRet result := fun A a => Ok a.

#[global] Instance result_bind : MBind result := fun A B f r =>
  match r with
  | Ok a => f a
  | Err e => Err e
  end.

#[global] Instance result_fmap : FMap result := fun A B f r =>
  match r with
  | Ok a => Ok (f a)
  | Err e => Err e
  end.

(** ** Bytes and big-endian words *)
(** [ToUint8]: what a store into a [Uint8Array] keeps of an integer. *)
Definition byte_of_Z (z : Z) : byte :=
  match Byte.of_N (Z.to_N (z mod 256)) with
  | Some b => b
  | None => Byte.x00
  end.

Definition Z_of_byte (b : byte) : Z := Z.of_N (Byte.to_N b).

(** [DataView.setInt32(0, v, false)] and [setUint32(0, v, false)]: both
    store the low 32 bits of [v], most significant byte first. *)
Definition be32 (v : Z) : list byte :=
  [ byte_of_Z (Z.shiftr v 24); byte_of_Z (Z.shiftr v 16);
    byte_of_Z (Z.shiftr v 8); byte_of_Z v ].

(** [new DataView(data.buffer, data.byteOffset + offset, 4).getUint32(0, false)];
    every call site has checked [offset + 4 <= data.length] before. *)
Definition getUint32 (data : list byte) (offset : nat) : Z :=
  fold_left (fun acc b => acc * 256 + Z_of_byte b) (take 4 (drop offset data)) 0.

Definition getInt32 (data : list byte) (offset : nat) : Z :=
  let u := getUint32 data offset in
  if u <? 2 ^ 31 then u else u - 2 ^ 32.

(** [data[i]] used as an operand of a bit operation: a missing element
    ([undefined]) counts as 0. *)
Definition byteAt (data : list byte) (i : nat) : Z :=
  match data !! i with
  | Some b => Z_of_byte b
  | None => 0
  end.

(** [data.slice(from, to)] for [from <= to]. *)
Definition slice (data : list byte) (from to : nat) : list byte :=
  take (to - from) (drop from data).

(** Do the bytes begin with the byte order mark EF BB BF? *)
Definition startsWithBOM (bytes : list byte) : bool :=
  match bytes with
  | b0 :: b1 :: b2 :: _ =>
      Byte.eqb b0 Byte.xef && Byte.eqb b1 Byte.xbb && Byte.eqb b2 Byte.xbf
  | _ => false
  end.

(** [new TextDecoder().decode(bytes)] on well-formed UTF-8: the bytes, less
    a leading byte order mark. *)
Definition utf8Decode (bytes : list byte) : string :=
  string_of_list_byte (if startsWithBOM bytes then drop 3 bytes else bytes).

(** ** Serialization: [marshalMessage] *)
Definition createMessage (msgType flag : Z) : Message :=
  {| type := msgType;
     flag := flag;
     version := VersionBits.Version1;
     headerSize := HeaderSizeBits.HeaderSize4;
     serialization := SerializationBits.JSON;
     compression := CompressionBits.None_;
     event := None; sessionId := None; connectId := None;
     sequence := None; errorCode := None;
     payload := [] |}.

Definition writeEvent (msg : Message) : option (list byte) :=
  match event msg with
  | None => None
  | Some e => Some (be32 e)
  end.

(** The events for which the writer leaves the session id out. *)
Definition writeSessionId_skips (e : Z) : bool :=
  (e =? EventType.StartConnection) || (e =? EventType.FinishConnection)
  || (e =? EventType.ConnectionStarted) || (e =? EventType.ConnectionFailed).

Definition writeSessionId (msg : Message) : option (list byte) :=
  match event msg with
  | None => None
  | Some e =>
      if writeSessionId_skips e then None
      else
        let sessionId := default EmptyString (sessionId msg) in
        let sessionIdBytes := list_byte_of_string sessionId in
        Some (be32 (Z.of_nat (length sessionIdBytes)) ++ sessionIdBytes)
  end.

Definition writeSequence (msg : Message) : option (list byte) :=
  match sequence msg with
  | None => None
  | Some s => Some (be32 s)
  end.

Definition writeErrorCode (msg : Message) : option (list byte) :=
  match errorCode msg with
  | None => None
  | Some c => Some (be32 c)
  end.

Definition writePayload (msg : Message) : option (list byte) :=
  let payloadSize := length (payload msg) in
  Some (be32 (Z.of_nat payloadSize) ++ payload msg).

(** The writer functions as first-order tags, so that a list of writers
    can be inspected. *)
Inductive Writer : Type :=
| WEvent | WSessionId | WSequence | WErrorCode | WPayload.

Definition runWriter (w : Writer) : Message -> option (list byte) :=
  match w with
  | WEvent => writeEvent
  | WSessionId => writeSessionId
  | WSequence => writeSequence
  | WErrorCode => writeErrorCode
  | WPayload => writePayload
  end.

#[global] Instance Writer_eq_dec : EqDecision Writer.
Proof. solve_decision. Defined.

(** The five kinds that share the first branch of both [switch]es. *)
Definition isContentType (t : Z) : bool :=
  (t =? MsgType.AudioOnlyClient) || (t =? MsgType.AudioOnlyServer)
  || (t =? MsgType.FrontEndResultServer) || (t =? MsgType.FullClientRequest)
  || (t =? MsgType.FullServerResponse).

Definition isSeqFlag (f : Z) : bool :=
  (f =? MsgTypeFlagBits.PositiveSeq) || (f =? MsgTypeFlagBits.NegativeSeq).

Definition getWriters (msg : Message) : result (list Writer) :=
  let writers :=
    if flag msg =? MsgTypeFlagBits.WithEvent then [WEvent; WSessionId] else [] in
  if isContentType (type msg) then
    Ok (writers ++ (if isSeqFlag (flag msg) then [WSequence] else [])
          ++ [WPayload])
  else if type msg =? MsgType.Error then
    Ok (writers ++ [WErrorCode] ++ [WPayload])
  else Err (UnsupportedMessageType (type msg)).

(** The header array: [4 * headerSize] zero bytes with the three packed
    bytes stored into it; a store past the end of a typed array is dropped.
    [new Uint8Array] throws a [RangeError] on a negative length, and also on
    a length above the limit of the engine, which is far above the 60 bytes
    of a 4-bit [headerSize]: the model has the first, and its allocation of
    a longer array succeeds. *)
Definition headerBytes (msg : Message) : list byte :=
  <[2%nat := byte_of_Z (Z.lor (Z.shiftl (serialization msg) 4) (compression msg))]>
  (<[1%nat := byte_of_Z (Z.lor (Z.shiftl (type msg) 4) (flag msg))]>
  (<[0%nat := byte_of_Z (Z.lor (Z.shiftl (version msg) 4) (headerSize msg))]>
  (replicate (Z.to_nat (4 * headerSize msg)) Byte.x00))).

Definition marshalMessage (msg : Message) : result (list byte) :=
  if 4 * headerSize msg <? 0 then
    Err (InvalidTypedArrayLength (4 * headerSize msg))
  else
    let header := headerBytes msg in
    writers ← getWriters msg;
    let buffers := header :: omap (fun writer => runWriter writer msg) writers in
    Ok (concat buffers).

(** ** The send helpers

    Each helper builds a message, serializes it and hands the bytes to
    [ws.send]; the transport is not part of the model, so a helper is the
    message it builds ([..._message]) and the bytes it sends. *)

(** [new TextEncoder().encode('{}')] *)
Definition emptyJson : list byte := list_byte_of_string "{}".

Definition FullClientRequest_message (payload : list byte) : Message :=
  set_payload payload
    (createMessage MsgType.FullClientRequest MsgTypeFlagBits.NoSeq).

Definition AudioOnlyClient_message (payload : list byte) (flag : Z) : Message :=
  set_payload payload (createMessage MsgType.AudioOnlyClient flag).

Definition withEvent_message (event : Z) (sessionId : option string)
    (payload : list byte) : Message :=
  set_payload payload
    (set_sessionId sessionId
       (set_event (Some event)
          (createMessage MsgType.FullClientRequest MsgTypeFlagBits.WithEvent))).

Definition StartConnection_message : Message :=
  withEvent_message EventType.StartConnection None emptyJson.

Definition FinishConnection_message : Message :=
  withEvent_message EventType.FinishConnection None emptyJson.

Definition StartSession_message (payload : list byte) (sessionId : string)
  : Message :=
  withEvent_message EventType.StartSession (Some sessionId) payload.

Definition FinishSession_message (sessionId : string) : Message :=
  withEvent_message EventType.FinishSession (Some sessionId) emptyJson.

Definition CancelSession_message (sessionId : string) : Message :=
  withEvent_message EventType.CancelSession (Some sessionId) emptyJson.

Definition TaskRequest_message (payload : list byte) (sessionId : string)
  : Message :=
  withEvent_message EventType.TaskRequest (Some sessionId) payload.

Definition FullClientRequest (payload : list byte) : result (list byte) :=
  marshalMessage (FullClientRequest_message payload).

Definition AudioOnlyClient (payload : list byte) (flag : Z)
  : result (list byte) :=
  marshalMessage (AudioOnlyClient_message payload flag).

Definition StartConnection : result (list byte) :=
  marshalMessage StartConnection_message.

Definition FinishConnection : result (list byte) :=
  marshalMessage FinishConnection_message.

Definition StartSession (payload : list byte) (sessionId : string)
  : result (list byte) :=
  marshalMessage (StartSession_message payload sessionId).

Definition FinishSession (sessionId : string) : result (list byte) :=
  marshalMessage (FinishSession_message sessionId).

Definition CancelSession (sessionId : string) : result (list byte) :=
  marshalMessage (CancelSession_message sessionId).

Definition TaskRequest (payload : list byte) (sessionId : string)
  : result (list byte) :=
  marshalMessage (TaskRequest_message payload sessionId).

(** ** Deserialization: [unmarshalMessage] *)
Definition readEvent (msg : Message) (data : list byte) (offset : nat)
  : result (Message * nat) :=
  if (length data <? offset + 4)%nat then Err (TruncatedField "event")
  else Ok (set_event (Some (getInt32 data offset)) msg, (offset + 4)%nat).

Definition readSessionId_skips (e : Z) : bool :=
  (e =? EventType.StartConnection) || (e =? EventType.FinishConnection)
  || (e =? EventType.ConnectionStarted) || (e =? EventType.ConnectionFailed)
  || (e =? EventType.ConnectionFinished).

Definition readSessionId (msg : Message) (data : list byte) (offset : nat)
  : result (Message * nat) :=
  match event msg with
  | None => Ok (msg, offset)
  | Some e =>
      if readSessionId_skips e then Ok (msg, offset)
      else if (length data <? offset + 4)%nat then
        Err (TruncatedField "session ID size")
      else
        let size := getUint32 data offset in
        let offset := (offset + 4)%nat in
        if 0 <? size then
          if Z.of_nat (length data) <? Z.of_nat offset + size then
            Err (TruncatedField "session ID")
          else
            Ok (set_sessionId
                  (Some (utf8Decode
                           (slice data offset (offset + Z.to_nat size))))
                  msg,
                (offset + Z.to_nat size)%nat)
        else Ok (msg, offset)
  end.

Definition readConnectId_reads (e : Z) : bool :=
  (e =? EventType.ConnectionStarted) || (e =? EventType.ConnectionFailed)
  || (e =? EventType.ConnectionFinished).

Definition readConnectId (msg : Message) (data : list byte) (offset : nat)
  : result (Message * nat) :=
  match event msg with
  | None => Ok (msg, offset)
  | Some e =>
      if negb (readConnectId_reads e) then Ok (msg, offset)
      else if (length data <? offset + 4)%nat then
        Err (TruncatedField "connect ID size")
      else
        let size := getUint32 data offset in
        let offset := (offset + 4)%nat in
        if 0 <? size then
          if Z.of_nat (length data) <? Z.of_nat offset + size then
            Err (TruncatedField "connect ID")
          else
            Ok (set_connectId
                  (Some (utf8Decode
                           (slice data offset (offset + Z.to_nat size))))
                  msg,
                (offset + Z.to_nat size)%nat)
        else Ok (msg, offset)
  end.

Definition readSequence (msg : Message) (data : list byte) (offset : nat)
  : result (Message * nat) :=
  if (length data <? offset + 4)%nat then Err (TruncatedField "sequence")
  else Ok (set_sequence (Some (getInt32 data offset)) msg, (offset + 4)%nat).

Definition readErrorCode (msg : Message) (data : list byte) (offset : nat)
  : result (Message * nat) :=
  if (length data <? offset + 4)%nat then Err (TruncatedField "error code")
  else Ok (set_errorCode (Some (getUint32 data offset)) msg, (offset + 4)%nat).

Definition readPayload (msg : Message) (data : list byte) (offset : nat)
  : result (Message * nat) :=
  if (length data <? offset + 4)%nat then Err (TruncatedField "payload size")
  else
    let size := getUint32 data offset in
    let offset := (offset + 4)%nat in
    if 0 <? size then
      if Z.of_nat (length data) <? Z.of_nat offset + size then
        Err (TruncatedField "payload")
      else
        Ok (set_payload (slice data offset (offset + Z.to_nat size)) msg,
            (offset + Z.to_nat size)%nat)
    else Ok (msg, offset).

Inductive Reader : Type :=
| RSequence | RErrorCode | REvent | RSessionId | RConnectId | RPayload.

Definition runReader (r : Reader)
  : Message -> list byte -> nat -> result (Message * nat) :=
  match r with
  | RSequence => readSequence
  | RErrorCode => readErrorCode
  | REvent => readEvent
  | RSessionId => readSessionId
  | RConnectId => readConnectId
  | RPayload => readPayload
  end.

#[global] Instance Reader_eq_dec : EqDecision Reader.
Proof. solve_decision. Defined.

Definition getReaders (msg : Message) : result (list Reader) :=
  let tail :=
    (if flag msg =? MsgTypeFlagBits.WithEvent
     then [REvent; RSessionId; RConnectId] else []) ++ [RPayload] in
  if isContentType (type msg) then
    Ok ((if isSeqFlag (flag msg) then [RSequence] else []) ++ tail)
  else if type msg =? MsgType.Error then
    Ok ([RErrorCode] ++ tail)
  else Err (UnsupportedMessageType (type msg)).

(** [for (const reader of readers) offset = reader(msg, data, offset)] *)
Fixpoint runReaders (readers : list Reader) (msg : Message)
    (data : list byte) (offset : nat) : result (Message * nat) :=
  match readers with
  | [] => Ok (msg, offset)
  | reader :: rest =>
      '(msg', offset') ← runReader reader msg data offset;
      runReaders rest msg' data offset'
  end.

(** The message object right after the base header has been parsed. *)
Definition parseHeader (data : list byte) : Message :=
  let versionAndHeaderSize := byteAt data 0 in
  let typeAndFlag := byteAt data 1 in
  let serializationAndCompression := byteAt data 2 in
  {| version := Z.shiftr versionAndHeaderSize 4;
     headerSize := Z.land versionAndHeaderSize 15;
     type := Z.shiftr typeAndFlag 4;
     flag := Z.land typeAndFlag 15;
     serialization := Z.shiftr serializationAndCompression 4;
     compression := Z.land serializationAndCompression 15;
     event := None; sessionId := None; connectId := None;
     sequence := None; errorCode := None;
     payload := [] |}.

(** [unmarshalMessage], keeping the final read offset next to the message. *)
Definition unmarshalWithOffset (data : list byte) : result (Message * nat) :=
  if (length data <? 3)%nat then Err (FrameTooShort (length data))
  else
    let msg := parseHeader data in
    let offset := Z.to_nat (4 * headerSize msg) in
    readers ← getReaders msg;
    runReaders readers msg data offset.

Definition unmarshalMessage (data : list byte) : result Message :=
  fst <$> unmarshalWithOffset data.

(** ** The per-socket registry and [ReceiveMessage]

    The listeners and [ReceiveMessage] are functions on the two maps.  The
    arguments of a listener are what the socket emits: the model does not
    say when a socket emits, nor which listeners it has. *)

(** A socket object and a [resolver] closure are known by their identity. *)
Abbreviation WebSocket := positive (only parsing).

Abbreviation Waiter := nat (only parsing).

(** The two module-level maps, and the number of resolvers created so far
    (the next closure is a new object, different from every earlier one). *)
Record Registry : Type := mkRegistry {
  messageQueues : gmap WebSocket (list Message);
  messageCallbacks : gmap WebSocket (list Waiter);
  nextWaiter : Waiter
}.

Definition emptyRegistry : Registry := mkRegistry ∅ ∅ 0%nat.

Definition setupMessageHandler (ws : WebSocket) (reg : Registry) : Registry :=
  match messageQueues reg !! ws with
  | Some _ => reg
  | None =>
      mkRegistry (<[ws := []]> (messageQueues reg))
                 (<[ws := []]> (messageCallbacks reg))
                 (nextWaiter reg)
  end.

(** The ['message'] listener on a frame of bytes.  On success it returns the
    waiter it has resolved with the message, if any. *)
Definition onMessage (ws : WebSocket) (data : list byte) (reg : Registry)
  : result (Registry * option (Waiter * Message)) :=
  match unmarshalMessage data with
  | Err e => Err (ProcessingError e)
  | Ok msg =>
      match messageCallbacks reg !! ws with
      | None => Err (ProcessingError TypeError)
      | Some (callback :: callbacks) =>
          Ok (mkRegistry (messageQueues reg)
                         (<[ws := callbacks]> (messageCallbacks reg))
                         (nextWaiter reg),
              Some (callback, msg))
      | Some [] =>
          match messageQueues reg !! ws with
          | None => Err (ProcessingError TypeError)
          | Some queue =>
              Ok (mkRegistry (<[ws := queue ++ [msg]]> (messageQueues reg))
                             (messageCallbacks reg)
                             (nextWaiter reg),
                  None)
          end
      end
  end.

(** The ['close'] listener. *)
Definition onClose (ws : WebSocket) (reg : Registry) : Registry :=
  mkRegistry (delete ws (messageQueues reg))
             (delete ws (messageCallbacks reg))
             (nextWaiter reg).

(** [ReceiveMessage]: the promise is resolved at once with the oldest queued
    message ([inl]) or stays pending on a new resolver ([inr]).  After
    [setupMessageHandler] both arrays are there ([sameKeys_run]). *)
Definition ReceiveMessage (ws : WebSocket) (reg : Registry)
  : Registry * (Message + Waiter) :=
  let reg := setupMessageHandler ws reg in
  match default [] (messageQueues reg !! ws) with
  | msg :: queue =>
      (mkRegistry (<[ws := queue]> (messageQueues reg))
                  (messageCallbacks reg) (nextWaiter reg),
       inl msg)
  | [] =>
      let resolver := nextWaiter reg in
      let callbacks := default [] (messageCallbacks reg !! ws) in
      (mkRegistry (messageQueues reg)
                  (<[ws := callbacks ++ [resolver]]> (messageCallbacks reg))
                  (S resolver),
       inr resolver)
  end.

(** The [errorHandler] of a pending call: it takes its resolver out of the
    callback array, if it is still there, and rejects.  (The array is the one
    the call has seen; once the socket has been closed that array is no
    longer in the map, and the resolver is in no array of the map.) *)
Definition errorHandler (ws : WebSocket) (resolver : Waiter) (reg : Registry)
  : Registry :=
  match messageCallbacks reg !! ws with
  | None => reg
  | Some callbacks =>
      match list_find (fun cb => cb = resolver) callbacks with
      | Some (index, _) =>
          mkRegistry (messageQueues reg)
                     (<[ws := delete index callbacks]> (messageCallbacks reg))
                     (nextWaiter reg)
      | None => reg
      end
  end.

(** What can happen to the registry, one handler or call at a time. *)
Inductive Action : Type :=
| Frame (ws : WebSocket) (data : list byte)
| Receive (ws : WebSocket)
| SocketError (ws : WebSocket) (resolver : Waiter)
| Close (ws : WebSocket).

Definition step (reg : Registry) (a : Action) : Registry :=
  match a with
  | Frame ws data =>
      match onMessage ws data reg with
      | Ok (reg', _) => reg'
      | Err _ => reg
      end
  | Receive ws => fst (ReceiveMessage ws reg)
  | SocketError ws resolver => errorHandler ws resolver reg
  | Close ws => onClose ws reg
  end.

Definition run (actions : list Action) : Registry :=
  fold_left step actions emptyRegistry.

(** [n] calls of [ReceiveMessage], one after the other, with what each
    promise is settled with or waits on. *)
Fixpoint receiveAll (n : nat) (ws : WebSocket) (reg : Registry)
  : Registry * list (Message + Waiter) :=
  match n with
  | O => (reg, [])
  | S n =>
      let '(reg, first) := ReceiveMessage ws reg in
      let '(reg, others) := receiveAll n ws reg in
      (reg, first :: others)
  end.

(** ** Names for diagnostics *)
(** [`${n}`] for an integer [n]. *)
Definition decimal (n : Z) : string := NilZero.string_of_int (Z.to_int n).

(** [Enum[n]]: the member name, or [undefined]. *)
Definition enumName (names : list (Z * string)) (n : Z) : option string :=
  snd <$> List.find (fun entry => fst entry =? n) names.

Definition getEventTypeName (eventType : Z) : string :=
  match enumName EventType.names eventType with
  | Some name => name
  | None => ("invalid event type: " ++ decimal eventType)%string
  end.

Definition getMsgTypeName (msgType : Z) : string :=
  match enumName MsgType.names msgType with
  | Some name => name
  | None => ("invalid message type: " ++ decimal msgType)%string
  end.

(** ** Consumers of received messages

    An [async] function that awaits [ReceiveMessage(ws)] is run against
    [received], the messages that its successive calls resolve with, oldest
    first; next to its outcome it returns the messages it has not read.  With
    nothing left to read the function stays suspended at its [await]. *)
Inductive Outcome (A : Type) : Type :=
| Returned (a : A)
| Thrown (e : Error)
| Suspended.

Arguments Returned {A} a.

Arguments Thrown {A} e.

Arguments Suspended {A}.

(** [event === eventType] for an optional [event]. *)
Definition isEvent (eventType : Z) (event : option Z) : bool :=
  match event with
  | Some e => e =? eventType
  | None => false
  end.

Definition WaitForEvent (msgType eventType : Z) (received : list Message)
  : Outcome Message * list Message :=
  match received with
  | [] => (Suspended, [])
  | msg :: rest =>
      if negb (type msg =? msgType) || negb (isEvent eventType (event msg))
      then (Thrown (UnexpectedMessage (getMsgTypeName (type msg))
                      (getEventTypeName (default 0 (event msg)))),
            rest)
      else (Returned msg, rest)
  end.

(** The [switch] of the streaming loop: what becomes of [audioChunks].  The
    status check on the payload of a [FullServerResponse] only logs. *)
Definition collect (audioChunks : list (list byte)) (msg : Message)
  : result (list (list byte)) :=
  if type msg =? MsgType.FullServerResponse then Ok audioChunks
  else if type msg =? MsgType.AudioOnlyServer then
    Ok (audioChunks ++ [payload msg])
  else Err (UnknownMessage msg).

(** The [if] that ends the loop. *)
Definition isLast (msg : Message) : bool :=
  (type msg =? MsgType.FullServerResponse)
  && isEvent EventType.SessionFinished (event msg).

(** [while (true) { const msg = await ReceiveMessage(ws); ... }] *)
Fixpoint receiveLoop (audioChunks : list (list byte)) (received : list Message)
  : Outcome (list (list byte)) * list Message :=
  match received with
  | [] => (Suspended, [])
  | msg :: rest =>
      match collect audioChunks msg with
      | Err e => (Thrown e, rest)
      | Ok audioChunks =>
          if isLast msg then (Returned audioChunks, rest)
          else receiveLoop audioChunks rest
      end
  end.

(** The loop and what follows it, up to [Buffer.concat(audioChunks)]. *)
Definition receiveAudio (received : list Message)
  : Outcome (list byte) * list Message :=
  match receiveLoop [] received with
  | (Returned audioChunks, rest) =>
      if (length audioChunks =? 0)%nat then (Thrown EmptyResult, rest)
      else (Returned (concat audioChunks), rest)
  | (Thrown e, rest) => (Thrown e, rest)
  | (Suspended, rest) => (Suspended, rest)
  end.

(** ** Definitions used to state and prove the properties *)

(** *** The data model and the round trip *)

(** The 4-bit values, and two of them packed into a byte as the header
    packs them. *)
Definition nibbles : list Z := [0; 1; 2; 3; 4; 5; 6; 7; 8; 9; 10; 11; 12; 13; 14; 15].

Definition packed (hi lo : Z) : Z :=
  Z_of_byte (byte_of_Z (Z.lor (Z.shiftl hi 4) lo)).

(** The header fields alone, as [unmarshalMessage] sets its message up. *)
Definition headerOf (m : Message) : Message :=
  {| version := version m; headerSize := headerSize m; type := type m;
     flag := flag m; serialization := serialization m;
     compression := compression m;
     event := None; sessionId := None; connectId := None;
     sequence := None; errorCode := None; payload := [] |}.

Definition is4bit (z : Z) : bool := (0 <=? z) && (z <? 16).

Definition headerFieldsOk (m : Message) : bool :=
  is4bit (version m) && (1 <=? headerSize m) && is4bit (headerSize m)
  && is4bit (type m) && is4bit (flag m) && is4bit (serialization m)
  && is4bit (compression m).

Definition isSome {A : Type} (o : option A) : bool :=
  match o with
  | Some _ => true
  | None => false
  end.

Definition inInt32 (z : Z) : bool := (- 2 ^ 31 <=? z) && (z <? 2 ^ 31).

Definition inUint32 (z : Z) : bool := (0 <=? z) && (z <? 2 ^ 32).

Definition isKnownType (t : Z) : bool :=
  isContentType t || (t =? MsgType.Error).

(** A message of the data model: 4-bit header fields with a header of at
    least one 4-byte unit, one of the six kinds, a 32-bit signed event and
    sequence, a 32-bit unsigned error code, and lengths that fit the 32-bit
    length prefix. *)
Definition wellFormed (m : Message) : bool :=
  headerFieldsOk m && isKnownType (type m)
  && from_option inInt32 true (event m)
  && from_option inInt32 true (sequence m)
  && from_option inUint32 true (errorCode m)
  && from_option
       (fun s => Z.of_nat (length (list_byte_of_string s)) <? 2 ^ 32)
       true (sessionId m)
  && (Z.of_nat (length (payload m)) <? 2 ^ 32).

(** The presence rules keyed by (kind, flag, event). *)
Definition presenceRules (m : Message) : bool :=
  Bool.eqb (isSome (event m)) (flag m =? MsgTypeFlagBits.WithEvent)
  && Bool.eqb (isSome (sessionId m))
       ((flag m =? MsgTypeFlagBits.WithEvent)
        && from_option (fun e => negb (writeSessionId_skips e)) false (event m))
  && Bool.eqb (isSome (sequence m))
       (isContentType (type m) && isSeqFlag (flag m))
  && Bool.eqb (isSome (errorCode m)) (type m =? MsgType.Error).

(** As [presenceRules], except that the session id may also be unset where
    it is applicable. *)
Definition presenceRulesNoSession (m : Message) : bool :=
  Bool.eqb (isSome (event m)) (flag m =? MsgTypeFlagBits.WithEvent)
  && implb (isSome (sessionId m))
       ((flag m =? MsgTypeFlagBits.WithEvent)
        && from_option (fun e => negb (writeSessionId_skips e)) false (event m))
  && Bool.eqb (isSome (sequence m))
       (isContentType (type m) && isSeqFlag (flag m))
  && Bool.eqb (isSome (errorCode m)) (type m =? MsgType.Error).

(** Does the UTF-8 form of [s] begin with a byte order mark? *)
Definition hasBOM (s : string) : bool :=
  startsWithBOM (list_byte_of_string s).

(** The decoder finds the fields where the encoder has put them: the event
    is one for which the decoder expects no connect id, and an [Error]
    message has no event. *)
Definition layoutReadable (m : Message) : bool :=
  from_option (fun e => negb (readConnectId_reads e)) true (event m)
  && negb ((type m =? MsgType.Error) && (flag m =? MsgTypeFlagBits.WithEvent)).

(** The decoder gives the session id back as it was: it is not the empty
    string and does not begin with a byte order mark. *)
Definition sessionIdReadable (m : Message) : bool :=
  negb (from_option (String.eqb EmptyString) false (sessionId m))
  && negb (from_option hasBOM false (sessionId m)).

(** What the decoder needs, beyond the presence rules, to read back what the
    encoder wrote. *)
Definition decodableAsWritten (m : Message) : bool :=
  sessionIdReadable m && layoutReadable m.

(** How an empty session id comes back: unset. *)
Definition dropEmpty (sessionId : option string) : option string :=
  match sessionId with
  | Some EmptyString => None
  | _ => sessionId
  end.

(** *** The registry *)

(** The queue and the waiter list of a socket, empty if it has none. *)
Definition queueOf (ws : WebSocket) (reg : Registry) : list Message :=
  default [] (messageQueues reg !! ws).

Definition waitersOf (ws : WebSocket) (reg : Registry) : list Waiter :=
  default [] (messageCallbacks reg !! ws).

(** No socket has both a queued message and a waiter. *)
Definition rendezvous (reg : Registry) : Prop :=
  forall ws, queueOf ws reg = [] \/ waitersOf ws reg = [].

(** Both maps have the same sockets as keys. *)
Definition sameKeys (reg : Registry) : Prop :=
  forall ws,
    messageQueues reg !! ws = None <-> messageCallbacks reg !! ws = None.

(** Exactly one of the queue and the waiter list of [ws] is non-empty. *)
Definition exactlyOne (ws : WebSocket) (reg : Registry) : Prop :=
  (queueOf ws reg <> [] /\ waitersOf ws reg = [])
  \/ (queueOf ws reg = [] /\ waitersOf ws reg <> []).

(** The registry with the queue of [ws] replaced. *)
Definition setQueue (ws : WebSocket) (queue : list Message) (reg : Registry)
  : Registry :=
  mkRegistry (<[ws := queue]> (messageQueues reg)) (messageCallbacks reg)
             (nextWaiter reg).

(** A socket on which nothing is queued and nobody waits: not yet set up, or
    set up with both arrays empty. *)
Definition idle (ws : WebSocket) (reg : Registry) : Prop :=
  (messageQueues reg !! ws = None /\ messageCallbacks reg !! ws = None)
  \/ (messageQueues reg !! ws = Some [] /\ messageCallbacks reg !! ws = Some []).

(** *** Sample frames and messages *)

(** A [FullServerResponse] frame with an empty payload, and two
    [AudioOnlyServer] frames with sequence numbers 1 and 2 and one byte of
    audio each. *)
Definition statusFrame : list byte :=
  [Byte.x11; Byte.x90; Byte.x10; Byte.x00; Byte.x00; Byte.x00; Byte.x00; Byte.x00].

Definition audioFrame1 : list byte :=
  [Byte.x11; Byte.xb1; Byte.x10; Byte.x00; Byte.x00; Byte.x00; Byte.x00; Byte.x01;
   Byte.x00; Byte.x00; Byte.x00; Byte.x01; Byte.xaa].

Definition audioFrame2 : list byte :=
  [Byte.x11; Byte.xb1; Byte.x10; Byte.x00; Byte.x00; Byte.x00; Byte.x00; Byte.x02;
   Byte.x00; Byte.x00; Byte.x00; Byte.x01; Byte.xbb].

(** The frame of [StartSession('{}', "abc")]: the 4-byte header 11 14 10 00,
    the event 100, the session id and the payload. *)
Definition startSessionFrame : list byte :=
  [Byte.x11; Byte.x14; Byte.x10; Byte.x00;
   Byte.x00; Byte.x00; Byte.x00; Byte.x64;
   Byte.x00; Byte.x00; Byte.x00; Byte.x03; Byte.x61; Byte.x62; Byte.x63;
   Byte.x00; Byte.x00; Byte.x00; Byte.x02; Byte.x7b; Byte.x7d].

(** The same frame with the header written 01 14 01, three bytes long. *)
Definition startSessionFrame_short : list byte :=
  [Byte.x01; Byte.x14; Byte.x01;
   Byte.x00; Byte.x00; Byte.x00; Byte.x64;
   Byte.x00; Byte.x00; Byte.x00; Byte.x03; Byte.x61; Byte.x62; Byte.x63;
   Byte.x00; Byte.x00; Byte.x00; Byte.x02; Byte.x7b; Byte.x7d].

(** The messages of a short synthesis: a status response, two audio frames,
    and the response that finishes the session. *)
Definition statusMessage : Message :=
  set_payload emptyJson
    (createMessage MsgType.FullServerResponse MsgTypeFlagBits.NoSeq).

Definition audioMessage (sequence : Z) (audio : list byte) : Message :=
  set_payload audio
    (set_sequence (Some sequence)
       (createMessage MsgType.AudioOnlyServer MsgTypeFlagBits.PositiveSeq)).

Definition finishedMessage : Message :=
  set_payload emptyJson
    (set_sessionId (Some "abc"%string)
       (set_event (Some EventType.SessionFinished)
          (createMessage MsgType.FullServerResponse MsgTypeFlagBits.WithEvent))).

(** An [Error] message that also carries an event. *)
Definition errorWithEvent : Message :=
  {| version := 1; headerSize := 1; type := MsgType.Error;
     flag := MsgTypeFlagBits.WithEvent; serialization := 1; compression := 0;
     event := Some EventType.SessionFailed;
     sessionId := Some "abc"%string; connectId := None;
     sequence := None; errorCode := Some 7; payload := emptyJson |}.

(** *** Names, the loop, truncation *)

Definition startsWith_i (s : string) : bool :=
  match s with
  | String c _ => Ascii.eqb c "i"%char
  | EmptyString => false
  end.

(** The messages that keep the loop going. *)
Definition keepsGoing (msg : Message) : Prop :=
  (type msg = MsgType.FullServerResponse
   /\ event msg <> Some EventType.SessionFinished)
  \/ type msg = MsgType.AudioOnlyServer.

(** The two errors of a buffer that ends too early. *)
Definition isTruncation (e : Error) : bool :=
  match e with
  | FrameTooShort _ | TruncatedField _ => true
  | _ => false
  end.

(** A frame that the decoder reads to its very end. *)
Definition completeFrame (data : list byte) : Prop :=
  exists msg, unmarshalWithOffset data = Ok (msg, length data).

(** *** The read order of the specification *)

(** A 4-byte length and, when it is not zero, that many bytes. *)
Definition readLengthPrefixed (what : string) (data : list byte) (offset : nat)
  : result (option (list byte) * nat) :=
  if (length data <? offset + 4)%nat then
    Err (TruncatedField (what ++ " size"))
  else
    let size := getUint32 data offset in
    if 0 <? size then
      if Z.of_nat (length data) <? Z.of_nat (offset + 4) + size then
        Err (TruncatedField what)
      else Ok (Some (slice data (offset + 4) (offset + 4 + Z.to_nat size)),
               (offset + 4 + Z.to_nat size)%nat)
    else Ok (None, (offset + 4)%nat).

Definition sessionIdExcluded : list Z :=
  [EventType.StartConnection; EventType.FinishConnection;
   EventType.ConnectionStarted; EventType.ConnectionFailed;
   EventType.ConnectionFinished].

Definition connectIdIncluded : list Z :=
  [EventType.ConnectionStarted; EventType.ConnectionFailed;
   EventType.ConnectionFinished].

Definition memZ (z : Z) (l : list Z) : bool := existsb (Z.eqb z) l.

(** The decoder as the specification words it: after the header, first the
    sequence or the error code by kind, second the event with the session id
    and the connect id by flag, finally the payload. *)
Definition decodeInOrder (data : list byte) : result (Message * nat) :=
  let msg := parseHeader data in
  let offset := Z.to_nat (4 * headerSize msg) in
  '(msg, offset) ←
    (if isContentType (type msg) then
       if isSeqFlag (flag msg) then
         if (length data <? offset + 4)%nat then Err (TruncatedField "sequence")
         else Ok (set_sequence (Some (getInt32 data offset)) msg, (offset + 4)%nat)
       else Ok (msg, offset)
     else if type msg =? MsgType.Error then
       if (length data <? offset + 4)%nat then Err (TruncatedField "error code")
       else Ok (set_errorCode (Some (getUint32 data offset)) msg, (offset + 4)%nat)
     else Err (UnsupportedMessageType (type msg)));
  '(msg, offset) ←
    (if flag msg =? MsgTypeFlagBits.WithEvent then
       if (length data <? offset + 4)%nat then Err (TruncatedField "event")
       else
         let e := getInt32 data offset in
         let msg := set_event (Some e) msg in
         let offset := (offset + 4)%nat in
         '(msg, offset) ←
           (if memZ e sessionIdExcluded then Ok (msg, offset)
            else
              '(body, offset) ← readLengthPrefixed "session ID" data offset;
              Ok (match body with
                  | Some bytes => set_sessionId (Some (utf8Decode bytes)) msg
                  | None => msg
                  end, offset));
         (if memZ e connectIdIncluded then
            '(body, offset) ← readLengthPrefixed "connect ID" data offset;
            Ok (match body with
                | Some bytes => set_connectId (Some (utf8Decode bytes)) msg
                | None => msg
                end, offset)
          else Ok (msg, offset))
     else Ok (msg, offset));
  '(body, offset) ← readLengthPrefixed "payload" data offset;
  Ok (match body with
      | Some bytes => set_payload bytes msg
      | None => msg
      end, offset).

(** *** Which fields are in a frame *)







(** ** Definitions for the further properties *)

(** *** The codec *)

(** The texts that follow "insufficient data for" in the errors of the
    readers. *)
Definition truncatedFields : list string :=
  ["sequence"; "error code"; "event"; "session ID size"; "session ID";
   "connect ID size"; "connect ID"; "payload size"; "payload"]%string.

(** [ToInt32] and [ToUint32]: what [DataView.setInt32] and [setUint32] keep
    of an integer, as [getInt32] and [getUint32] give it back. *)
Definition toInt32 (z : Z) : Z := (z + 2 ^ 31) mod 2 ^ 32 - 2 ^ 31.

Definition toUint32 (z : Z) : Z := z mod 2 ^ 32.

(** The message with its sequence and its error code as a frame holds
    them. *)
Definition asStored (m : Message) : Message :=
  set_sequence (toInt32 <$> sequence m)
    (set_errorCode (toUint32 <$> errorCode m) m).

(** The message without its sequence and its error code. *)
Definition withoutNumbers (m : Message) : Message :=
  set_sequence None (set_errorCode None m).

(** A helper has built its frame, and [unmarshalMessage] reads the frame
    back as [msg]. *)
Definition sendsReadable (sent : result (list byte)) (msg : Message) : Prop :=
  exists data, sent = Ok data /\ unmarshalMessage data = Ok msg.

(** What holds of the optional fields of a decoded message: which of them
    are set goes by kind, flag and event, and the two ids are never both
    set. *)
Definition decodedShape (msg : Message) : Prop :=
  isSome (event msg) = (flag msg =? MsgTypeFlagBits.WithEvent)
  /\ isSome (sequence msg)
     = isContentType (type msg) && isSeqFlag (flag msg)
  /\ isSome (errorCode msg) = (type msg =? MsgType.Error)
  /\ (isSome (sessionId msg) = true ->
      from_option readSessionId_skips true (event msg) = false)
  /\ (isSome (connectId msg) = true ->
      from_option readConnectId_reads false (event msg) = true)
  /\ (isSome (sessionId msg) && isSome (connectId msg) = false).

(** The numbers of a decoded message are within the ranges of the wire. *)
Definition decodedRanges (msg : Message) : bool :=
  is4bit (version msg) && is4bit (headerSize msg) && is4bit (type msg)
  && is4bit (flag msg) && is4bit (serialization msg) && is4bit (compression msg)
  && isKnownType (type msg)
  && from_option inInt32 true (event msg)
  && from_option inInt32 true (sequence msg)
  && from_option inUint32 true (errorCode msg).

(** What is known of the message while the readers run on it, [hdr] being
    the message right after the header has been parsed. *)
Record Reading (hdr msg : Message) : Prop := {
  reading_header : headerOf msg = headerOf hdr;
  reading_event : from_option inInt32 true (event msg) = true;
  reading_sequence : from_option inInt32 true (sequence msg) = true;
  reading_errorCode : from_option inUint32 true (errorCode msg) = true;
  reading_sessionId :
    isSome (sessionId msg) = true ->
    from_option readSessionId_skips true (event msg) = false;
  reading_connectId :
    isSome (connectId msg) = true ->
    from_option readConnectId_reads false (event msg) = true
}.

(** *** The registry *)

(** The socket a handler or a call is about. *)
Definition socketOf (a : Action) : WebSocket :=
  match a with
  | Frame ws _ | Receive ws | SocketError ws _ | Close ws => ws
  end.

(** Every resolver in a waiter list was created by an earlier call. *)
Definition waitersFresh (reg : Registry) : Prop :=
  forall ws w, w ∈ waitersOf ws reg -> (w < nextWaiter reg)%nat.

(** No resolver is in a waiter list twice, nor in two waiter lists. *)
Definition waitersDistinct (reg : Registry) : Prop :=
  (forall ws, NoDup (waitersOf ws reg))
  /\ (forall ws1 ws2 w,
        w ∈ waitersOf ws1 reg -> w ∈ waitersOf ws2 reg -> ws1 = ws2).

(** A resolver that an earlier call has created and that is in no waiter
    list. *)
Definition retired (w : Waiter) (reg : Registry) : Prop :=
  (w < nextWaiter reg)%nat /\ forall ws, w ∉ waitersOf ws reg.

(** What happens on one socket, in the order it happens: the listener runs
    on a frame that has arrived, or the consumer calls [ReceiveMessage]. *)
Inductive Move : Type :=
| Arrive (data : list byte)
| Call.

(** The registry, what each call so far has returned (its message, or the
    resolver its promise waits on) and the resolvers the listener has called
    so far, each with its message. *)
Record Play : Type := mkPlay {
  registry : Registry;
  calls : list (Message + Waiter);
  resolutions : list (Waiter * Message)
}.

(** One move: the listener appends the resolver it calls, with the message,
    to [resolutions]; a call appends what it returns to [calls]. *)
Definition playMove (ws : WebSocket) (p : Play) (m : Move) : Play :=
  match m with
  | Arrive data =>
      match onMessage ws data (registry p) with
      | Ok (reg, Some resolved) =>
          mkPlay reg (calls p) (resolutions p ++ [resolved])
      | Ok (reg, None) => mkPlay reg (calls p) (resolutions p)
      | Err _ => p
      end
  | Call =>
      let '(reg, returned) := ReceiveMessage ws (registry p) in
      mkPlay reg (calls p ++ [returned]) (resolutions p)
  end.

Definition play (ws : WebSocket) (moves : list Move) (reg : Registry) : Play :=
  fold_left (playMove ws) moves (mkPlay reg [] []).

(** The message a resolver has been called with. *)
Fixpoint resolvedWith (resolver : Waiter) (resolutions : list (Waiter * Message))
  : option Message :=
  match resolutions with
  | [] => None
  | (w, msg) :: rest =>
      if (w =? resolver)%nat then Some msg else resolvedWith resolver rest
  end.

(** The message the promise of the [i]-th call has been resolved with. *)
Definition settledWith (p : Play) (i : nat) : option Message :=
  match calls p !! i with
  | Some (inl msg) => Some msg
  | Some (inr resolver) => resolvedWith resolver (resolutions p)
  | None => None
  end.

(** The message of a frame that arrives and decodes. *)
Definition arrived (m : Move) : option Message :=
  match m with
  | Arrive data =>
      match unmarshalMessage data with
      | Ok msg => Some msg
      | Err _ => None
      end
  | Call => None
  end.

(** The messages of the frames that arrive and decode, in order. *)
Definition arrivals (moves : list Move) : list Message := omap arrived moves.

Definition isCall (m : Move) : bool :=
  match m with
  | Call => true
  | Arrive _ => false
  end.

(** What holds of a play on [ws] after [moves], from a registry in which
    [ws] has its two arrays, both empty. *)
Record PlayInv (ws : WebSocket) (moves : list Move) (p : Play) : Prop := {
  inv_queue :
    messageQueues (registry p) !! ws
    = Some (drop (length (calls p)) (arrivals moves));
  inv_waiters :
    exists W, messageCallbacks (registry p) !! ws = Some W
      /\ map inr W = drop (length (arrivals moves)) (calls p)
      /\ NoDup W
      /\ (forall w, w ∈ W -> resolvedWith w (resolutions p) = None);
  inv_fresh :
    forall w msg, (w, msg) ∈ resolutions p -> (w < nextWaiter (registry p))%nat;
  inv_fresh' :
    forall w, inr w ∈ calls p -> (w < nextWaiter (registry p))%nat;
  inv_settled :
    forall i, (i < length (calls p))%nat ->
      settledWith p i = arrivals moves !! i
}.

(** *** The streaming loop *)

(** The payloads of the audio messages among [msgs], in order. *)
Definition audioOf (msgs : list Message) : list (list byte) :=
  map payload (List.filter (fun msg => type msg =? MsgType.AudioOnlyServer) msgs).

(** ** The speech service: [TTSService]

    The voices are what [loadVoices] returns: the content of the voices
    file, or no voice when the file cannot be read. *)
Module TTSService.

Inductive Gender : Type := male | female.

Record VoiceConfig : Type := mkVoiceConfig {
  id : string;
  name : string;
  originalName : string;
  description : string;
  gender : Gender;
  lang : string;
  model : string;
  note : option string
}.

Record VoiceParams : Type := mkVoiceParams {
  voiceId : string;
  resourceId : string
}.

(** [filePath.replace(/\\/g, '/')] *)
Fixpoint normalizePath (filePath : string) : string :=
  match filePath with
  | EmptyString => EmptyString
  | String c rest =>
      String (if Ascii.eqb c "\"%char then "/"%char else c) (normalizePath rest)
  end.

Definition getVoiceConfig (voices : list VoiceConfig) (speakerName : string)
  : option VoiceConfig :=
  match List.find (fun v => String.eqb (name v) speakerName) voices with
  | Some voice => Some voice
  | None => List.find (fun v => String.eqb (id v) speakerName) voices
  end.

Definition getVoiceParams (voices : list VoiceConfig) (speakerName : string)
  : VoiceParams :=
  match getVoiceConfig voices speakerName with
  | Some voice => {| voiceId := id voice; resourceId := model voice |}
  | None => {| voiceId := speakerName; resourceId := "seed-tts-2.0" |}
  end.

(** A [PodcastDialogue] item, without its [pause_after], which is not read
    here. *)
Record PodcastDialogue : Type := mkPodcastDialogue {
  speaker : string;
  text : string
}.

(** What [synthesizeDialogue] does to the world, in order. *)
Inductive Effect : Type :=
| Synthesize (text speaker : string)
    (* a call of synthesizeSingle *)
| Progress (current total : nat)
    (* options.onProgress(current, total) *)
| Delay (ms : nat).
    (* await this.delay(ms) *)

(** The error [synthesizeDialogue] throws: its text has the position of the
    item, counted from 1, and the message of the error it has caught. *)
Record DialogueError : Type := mkDialogueError {
  position : nat;
  message : string
}.

(** The calls of [synthesizeSingle] among the effects, each with its text
    and its speaker; the progress reports, each with its two numbers; the
    delays. *)
Definition callsOf (effects : list Effect) : list (string * string) :=
  omap (fun effect =>
          match effect with
          | Synthesize text speaker => Some (text, speaker)
          | _ => None
          end) effects.

Definition progressOf (effects : list Effect) : list (nat * nat) :=
  omap (fun effect =>
          match effect with
          | Progress current total => Some (current, total)
          | _ => None
          end) effects.

Definition delaysOf (effects : list Effect) : list nat :=
  omap (fun effect =>
          match effect with
          | Delay ms => Some ms
          | _ => None
          end) effects.

(** The text and the speaker of an item, as [synthesizeSingle] gets them. *)
Definition spoken (item : PodcastDialogue) : string * string :=
  (text item, speaker item).

Section SynthesizeDialogue.

(** An audio segment, as [synthesizeSingle] returns it. *)
Variable AudioSegment : Type.

(** What the [i]-th call of [synthesizeSingle] comes to, with the task id
    and the options of this run: a segment, or the message of the error it
    throws. *)
Variable synthesizeSingle : nat -> string -> string -> AudioSegment + string.

(** [options.onProgress], if set: the message of the error it throws, if it
    throws. *)
Variable onProgress : option (nat -> nat -> option string).

(** The [for] loop from index [i] on. *)
Fixpoint synthesizeFrom (i total : nat) (segments : list AudioSegment)
    (dialogue : list PodcastDialogue)
  : (list AudioSegment + DialogueError) * list Effect :=
  match dialogue with
  | [] => (inl segments, [])
  | item :: rest =>
      let call := Synthesize (text item) (speaker item) in
      match synthesizeSingle i (text item) (speaker item) with
      | inr message => (inr (mkDialogueError (i + 1) message), [call])
      | inl segment =>
          let segments := segments ++ [segment] in
          let report :=
            match onProgress with
            | Some callback => [Progress (i + 1) total]
            | None => []
            end in
          match onProgress ≫= (fun callback => callback (i + 1) total)%nat with
          | Some message =>
              (inr (mkDialogueError (i + 1) message), call :: report)
          | None =>
              let wait := if (i <? total - 1)%nat then [Delay 100] else [] in
              let '(result, effects) :=
                synthesizeFrom (i + 1) total segments rest in
              (result, call :: report ++ wait ++ effects)
          end
      end
  end.

Definition synthesizeDialogue (dialogue : list PodcastDialogue)
  : (list AudioSegment + DialogueError) * list Effect :=
  synthesizeFrom 0 (length dialogue) [] dialogue.

(** The effects of one turn of the loop that goes on to the next, before
    those of the turns that follow. *)
Definition turn (i total : nat) (item : PodcastDialogue)
    (effects : list Effect) : list Effect :=
  Synthesize (text item) (speaker item)
  :: match onProgress with
     | Some _ => [Progress (i + 1) total]
     | None => []
     end
  ++ (if (i <? total - 1)%nat then [Delay 100] else [])
  ++ effects.

(** [if (options?.onProgress) options.onProgress(current, total)]: the
    message of the error the callback throws, if it is set and throws. *)
Definition reportProgress (current total : nat) : option string :=
  onProgress ≫= (fun callback => callback current total).

(** The reports [first], [first + 1], ... of [total], [count] of them, when
    the callback is set. *)
Definition reportsOf (first count total : nat) : list (nat * nat) :=
  match onProgress with
  | Some _ => map (fun current => (current, total)) (seq first count)
  | None => []
  end.

(** The turn of the loop for [item], the [i]-th, goes through: the call
    returns a segment and the report of progress does not throw. *)
Definition succeeds (i total : nat) (item : PodcastDialogue) : Prop :=
  exists segment,
    synthesizeSingle i (text item) (speaker item) = inl segment
    /\ reportProgress (i + 1) total = None.

(** What [synthesizeFrom] has done when it returns or throws. *)
Definition dialogueOutcome (i total : nat) (segments : list AudioSegment)
    (dialogue : list PodcastDialogue)
    (outcome : (list AudioSegment + DialogueError) * list Effect) : Prop :=
  match fst outcome with
  | inl result =>
      callsOf (snd outcome) = map spoken dialogue
      /\ progressOf (snd outcome) = reportsOf (i + 1) (length dialogue) total
      /\ delaysOf (snd outcome)
         = replicate (Nat.min (length dialogue) (total - 1 - i)) 100%nat
      /\ exists new,
           result = segments ++ new
           /\ length new = length dialogue
           /\ forall j item,
                dialogue !! j = Some item ->
                exists segment,
                  new !! j = Some segment
                  /\ synthesizeSingle (i + j) (text item) (speaker item)
                     = inl segment
                  /\ reportProgress (i + j + 1) total = None
  | inr error =>
      exists (k : nat) (item : PodcastDialogue),
        dialogue !! k = Some item
        /\ position error = (i + k + 1)%nat
        /\ (forall j item',
              (j < k)%nat -> dialogue !! j = Some item' ->
              succeeds (i + j) total item')
        /\ (synthesizeSingle (i + k) (text item) (speaker item)
            = inr (message error)
            /\ progressOf (snd outcome) = reportsOf (i + 1) k total
            \/ (exists segment,
                  synthesizeSingle (i + k) (text item) (speaker item)
                  = inl segment)
               /\ reportProgress (i + k + 1) total = Some (message error)
               /\ progressOf (snd outcome) = reportsOf (i + 1) (k + 1) total)
        /\ callsOf (snd outcome) = map spoken (take (k + 1) dialogue)
        /\ delaysOf (snd outcome)
           = replicate (Nat.min k (total - 1 - i)) 100%nat
  end.

End SynthesizeDialogue.

End TTSService.

(** * Part II: properties *)

(** ** Bytes and words *)

Lemma Z_of_byte_range (b : byte) : 0 <= Z_of_byte b < 256.
Proof.
  unfold Z_of_byte. pose proof (Byte.to_N_bounded b). lia.
Qed.

Lemma Z_of_byte_of_Z (z : Z) : Z_of_byte (byte_of_Z z) = z mod 256.
Proof.
  unfold Z_of_byte, byte_of_Z.
  assert (Hr : 0 <= z mod 256 < 256) by (apply Z.mod_pos_bound; lia).
  destruct (Byte.of_N (Z.to_N (z mod 256))) as [b|] eqn:Hb.
  - apply Byte.to_of_N in Hb. rewrite Hb. lia.
  - apply Byte.of_N_None_iff in Hb. lia.
Qed.

Lemma byte_of_Z_of_byte (b : byte) : byte_of_Z (Z_of_byte b) = b.
Proof.
  unfold byte_of_Z, Z_of_byte.
  pose proof (Byte.to_N_bounded b) as Hb.
  rewrite Z.mod_small by lia.
  rewrite N2Z.id, Byte.of_to_N. reflexivity.
Qed.

Lemma length_be32 (v : Z) : length (be32 v) = 4%nat.
Proof. reflexivity. Qed.

Lemma getUint32_app (pre rest : list byte) :
  getUint32 (pre ++ rest) (length pre) = getUint32 rest 0.
Proof.
  unfold getUint32. rewrite drop_app_length. reflexivity.
Qed.

Lemma getUint32_be32 (v : Z) (rest : list byte) :
  getUint32 (be32 v ++ rest) 0 = v mod 2 ^ 32.
Proof.
  unfold getUint32, be32. cbn. rewrite take_0. cbn [fold_left].
  rewrite !Z_of_byte_of_Z, !Z.shiftr_div_pow2 by lia.
  change (2 ^ 24) with (256 * 256 * 256). change (2 ^ 16) with (256 * 256).
  change (2 ^ 8) with 256. change (2 ^ 32) with (256 * 256 * 256 * 256).
  rewrite (Z.mod_eq v (256 * 256 * 256 * 256)) by lia.
  rewrite <- !Z.div_div by lia.
  Z.div_mod_to_equations. lia.
Qed.

Lemma getUint32_range (data : list byte) (offset : nat) :
  0 <= getUint32 data offset < 2 ^ 32.
Proof.
  unfold getUint32.
  assert (Hgen : forall (l : list byte) (acc : Z) (n : nat),
             0 <= acc < 256 ^ Z.of_nat n ->
             0 <= fold_left (fun acc b => acc * 256 + Z_of_byte b) l acc
               < 256 ^ Z.of_nat (n + length l)).
  { induction l as [|b l IH]; intros acc n Hacc; cbn [fold_left length].
    - rewrite Nat.add_0_r. exact Hacc.
    - replace (n + S (length l))%nat with (S n + length l)%nat by lia.
      apply IH. pose proof (Z_of_byte_range b).
      rewrite Nat2Z.inj_succ, Z.pow_succ_r by lia. nia. }
  specialize (Hgen (take 4 (drop offset data)) 0 0%nat).
  cbn [Nat.add] in Hgen.
  assert (Hlen : (length (take 4 (drop offset data)) <= 4)%nat)
    by (rewrite length_take; lia).
  assert (0 <= 0 < 256 ^ Z.of_nat 0) as H0 by (cbn; lia).
  specialize (Hgen H0).
  assert (256 ^ Z.of_nat (length (take 4 (drop offset data))) <= 256 ^ 4)
    by (apply Z.pow_le_mono_r; lia).
  change (2 ^ 32) with (256 ^ 4). lia.
Qed.

Lemma getInt32_be32 (v : Z) (pre rest : list byte) :
  - 2 ^ 31 <= v < 2 ^ 31 ->
  getInt32 (pre ++ be32 v ++ rest) (length pre) = v.
Proof.
  intros Hv. unfold getInt32. rewrite getUint32_app, getUint32_be32.
  change (2 ^ 31) with 2147483648 in *. change (2 ^ 32) with 4294967296.
  destruct (Z.ltb_spec (v mod 4294967296) 2147483648);
    Z.div_mod_to_equations; lia.
Qed.

Lemma getUint32_be32_at (v : Z) (pre rest : list byte) :
  0 <= v < 2 ^ 32 ->
  getUint32 (pre ++ be32 v ++ rest) (length pre) = v.
Proof.
  intros Hv. rewrite getUint32_app, getUint32_be32.
  apply Z.mod_small. exact Hv.
Qed.

Lemma slice_app (pre body rest : list byte) :
  slice (pre ++ body ++ rest) (length pre) (length pre + length body) = body.
Proof.
  unfold slice. rewrite drop_app_length.
  replace (length pre + length body - length pre)%nat with (length body) by lia.
  apply take_app_length.
Qed.

(** ** The base header *)

(** Two 4-bit values packed into one byte come apart again; checked on all
    256 pairs. *)
Lemma nibbles_complete (z : Z) : 0 <= z < 16 -> In z nibbles.
Proof.
  intros Hz.
  assert (z = 0 \/ z = 1 \/ z = 2 \/ z = 3 \/ z = 4 \/ z = 5 \/ z = 6 \/ z = 7
          \/ z = 8 \/ z = 9 \/ z = 10 \/ z = 11 \/ z = 12 \/ z = 13 \/ z = 14
          \/ z = 15) as Hc by lia.
  unfold nibbles. cbn [In]. intuition auto.
Qed.

Lemma nibbles_unpack (hi lo : Z) :
  0 <= hi < 16 -> 0 <= lo < 16 ->
  Z.shiftr (packed hi lo) 4 = hi /\ Z.land (packed hi lo) 15 = lo.
Proof.
  intros Hhi%nibbles_complete Hlo%nibbles_complete.
  assert (Hall : forallb (fun h => forallb (fun l =>
            (Z.shiftr (packed h l) 4 =? h) && (Z.land (packed h l) 15 =? l))
            nibbles) nibbles = true) by (vm_compute; reflexivity).
  rewrite forallb_forall in Hall. specialize (Hall hi Hhi).
  rewrite forallb_forall in Hall. specialize (Hall lo Hlo).
  apply andb_prop in Hall as [H1 H2].
  split; apply Z.eqb_eq; assumption.
Qed.

Lemma is4bit_spec (z : Z) : is4bit z = true <-> 0 <= z < 16.
Proof. unfold is4bit. rewrite andb_true_iff, Z.leb_le, Z.ltb_lt. tauto. Qed.

Lemma length_headerBytes (m : Message) :
  length (headerBytes m) = Z.to_nat (4 * headerSize m).
Proof. unfold headerBytes. rewrite !length_insert, length_replicate. reflexivity. Qed.

Lemma headerBytes_shape (m : Message) :
  1 <= headerSize m ->
  headerBytes m =
    byte_of_Z (Z.lor (Z.shiftl (version m) 4) (headerSize m))
    :: byte_of_Z (Z.lor (Z.shiftl (type m) 4) (flag m))
    :: byte_of_Z (Z.lor (Z.shiftl (serialization m) 4) (compression m))
    :: replicate (Z.to_nat (4 * headerSize m) - 3) Byte.x00.
Proof.
  intros Hhs. unfold headerBytes.
  destruct (Z.to_nat (4 * headerSize m)) as [|[|[|n]]] eqn:Hn; try lia.
  cbn. rewrite Nat.sub_0_r. reflexivity.
Qed.

Lemma parseHeader_headerBytes (m : Message) (rest : list byte) :
  headerFieldsOk m = true ->
  parseHeader (headerBytes m ++ rest) = headerOf m.
Proof.
  unfold headerFieldsOk. rewrite !andb_true_iff, !is4bit_spec, Z.leb_le.
  intros [[[[[[Hv Hh1] Hh] Ht] Hf] Hs] Hc].
  rewrite headerBytes_shape by lia.
  unfold parseHeader, headerOf, byteAt. cbn [app lookup list_lookup].
  change (Z_of_byte (byte_of_Z (Z.lor (Z.shiftl ?a 4) ?b))) with (packed a b).
  destruct (nibbles_unpack (version m) (headerSize m)) as [-> ->]; try lia.
  destruct (nibbles_unpack (type m) (flag m)) as [-> ->]; try lia.
  destruct (nibbles_unpack (serialization m) (compression m)) as [-> ->]; try lia.
  reflexivity.
Qed.

(** ** Readers on a frame laid out field after field *)
Section ReadField.
Variables (msg : Message) (pre rest : list byte).

Lemma readEvent_field (e : Z) :
  - 2 ^ 31 <= e < 2 ^ 31 ->
  readEvent msg (pre ++ be32 e ++ rest) (length pre)
  = Ok (set_event (Some e) msg, length (pre ++ be32 e)).
Proof.
  intros He. unfold readEvent.
  rewrite !length_app, length_be32.
  destruct (Nat.ltb_spec (length pre + (4 + length rest)) (length pre + 4));
    [lia|].
  rewrite getInt32_be32 by exact He. reflexivity.
Qed.

Lemma readSequence_field (s : Z) :
  - 2 ^ 31 <= s < 2 ^ 31 ->
  readSequence msg (pre ++ be32 s ++ rest) (length pre)
  = Ok (set_sequence (Some s) msg, length (pre ++ be32 s)).
Proof.
  intros Hs. unfold readSequence.
  rewrite !length_app, length_be32.
  destruct (Nat.ltb_spec (length pre + (4 + length rest)) (length pre + 4));
    [lia|].
  rewrite getInt32_be32 by exact Hs. reflexivity.
Qed.

Lemma readErrorCode_field (c : Z) :
  0 <= c < 2 ^ 32 ->
  readErrorCode msg (pre ++ be32 c ++ rest) (length pre)
  = Ok (set_errorCode (Some c) msg, length (pre ++ be32 c)).
Proof.
  intros Hc. unfold readErrorCode.
  rewrite !length_app, length_be32.
  destruct (Nat.ltb_spec (length pre + (4 + length rest)) (length pre + 4));
    [lia|].
  rewrite getUint32_be32_at by exact Hc. reflexivity.
Qed.

(** A length-prefixed body: what the three variable-length readers see. *)
Lemma sized_body (body : list byte) :
  Z.of_nat (length body) < 2 ^ 32 ->
  let data := pre ++ (be32 (Z.of_nat (length body)) ++ body) ++ rest in
  (length data <? length pre + 4)%nat = false
  /\ getUint32 data (length pre) = Z.of_nat (length body)
  /\ (Z.of_nat (length data)
      <? Z.of_nat (length pre + 4) + Z.of_nat (length body)) = false
  /\ slice data (length pre + 4) (length pre + 4 + length body) = body.
Proof.
  intros Hlen data. subst data.
  rewrite <- (app_assoc (be32 _)).
  rewrite !length_app, length_be32.
  repeat split.
  - apply Nat.ltb_ge. lia.
  - rewrite getUint32_be32_at by lia. reflexivity.
  - apply Z.ltb_ge. lia.
  - replace (length pre + 4)%nat
      with (length (pre ++ be32 (Z.of_nat (length body))))
      by (rewrite length_app, length_be32; reflexivity).
    rewrite (app_assoc pre). apply slice_app.
Qed.

Lemma readSessionId_field (e : Z) (s : string) :
  event msg = Some e ->
  readSessionId_skips e = false ->
  s <> EmptyString ->
  hasBOM s = false ->
  Z.of_nat (length (list_byte_of_string s)) < 2 ^ 32 ->
  let field := be32 (Z.of_nat (length (list_byte_of_string s)))
                 ++ list_byte_of_string s in
  readSessionId msg (pre ++ field ++ rest) (length pre)
  = Ok (set_sessionId (Some s) msg, length (pre ++ field)).
Proof.
  intros He Hskip Hs Hbom Hlen field. subst field.
  destruct (sized_body (list_byte_of_string s) Hlen) as (H1 & H2 & H3 & H4).
  unfold readSessionId. rewrite He, Hskip, H1, H2.
  assert (Hpos : (0 < length (list_byte_of_string s))%nat).
  { destruct s; [congruence|]. cbn. lia. }
  destruct (Z.ltb_spec 0 (Z.of_nat (length (list_byte_of_string s)))); [|lia].
  rewrite H3, Nat2Z.id, H4.
  unfold utf8Decode. unfold hasBOM in Hbom. rewrite Hbom.
  rewrite string_of_list_byte_of_string.
  rewrite !length_app, length_be32. do 2 f_equal. lia.
Qed.

(** The empty session id, as it is written for a session id that is empty or
    unset: four length bytes, which is all the reader takes. *)
Lemma readSessionId_empty_field (e : Z) :
  event msg = Some e ->
  readSessionId_skips e = false ->
  let field := be32 (Z.of_nat (length (list_byte_of_string EmptyString)))
                 ++ list_byte_of_string EmptyString in
  readSessionId msg (pre ++ field ++ rest) (length pre)
  = Ok (msg, length (pre ++ field)).
Proof.
  intros He Hskip field. subst field.
  change (list_byte_of_string EmptyString) with (@nil byte).
  destruct (sized_body []) as (H1 & H2 & _); [cbn; lia|].
  unfold readSessionId. rewrite He, Hskip, H1, H2.
  cbn [length Z.of_nat Z.ltb Z.compare].
  rewrite !length_app, length_be32. cbn [length]. (do 2 f_equal); lia.
Qed.

Lemma readPayload_field (p : list byte) :
  payload msg = [] ->
  rest = [] ->
  Z.of_nat (length p) < 2 ^ 32 ->
  let field := be32 (Z.of_nat (length p)) ++ p in
  readPayload msg (pre ++ field ++ rest) (length pre)
  = Ok (set_payload p msg, length (pre ++ field ++ rest)).
Proof.
  intros Hp Hrest Hlen field. subst field.
  destruct (sized_body p Hlen) as (H1 & H2 & H3 & H4).
  unfold readPayload. rewrite H1, H2.
  destruct (Z.ltb_spec 0 (Z.of_nat (length p))) as [Hpos|Hzero].
  - rewrite H3, Nat2Z.id, H4. subst rest.
    rewrite !length_app, length_be32. cbn [length]. do 2 f_equal. lia.
  - assert (p = []) as -> by (destruct p; [reflexivity|cbn in Hzero; lia]).
    subst rest. rewrite !length_app, length_be32. cbn [length].
    assert (Hsame : set_payload [] msg = msg)
      by (destruct msg; cbn in Hp |- *; subst; reflexivity).
    rewrite Hsame. do 2 f_equal; lia.
Qed.
End ReadField.

(** ** Round trip *)

(** Decoding a frame that begins with the header of [m]. *)
Lemma unmarshal_frame (m : Message) (body : list byte) :
  headerFieldsOk m = true ->
  unmarshalWithOffset (headerBytes m ++ body)
  = (readers ← getReaders (headerOf m);
     runReaders readers (headerOf m) (headerBytes m ++ body)
       (length (headerBytes m))).
Proof.
  intros Hh. unfold unmarshalWithOffset.
  rewrite parseHeader_headerBytes by exact Hh.
  pose proof (length_headerBytes m) as Hlen.
  unfold headerFieldsOk in Hh. rewrite !andb_true_iff, Z.leb_le in Hh.
  destruct (Nat.ltb_spec (length (headerBytes m ++ body)) 3) as [Hlt|_].
  { rewrite length_app in Hlt. lia. }
  cbn [headerOf headerSize]. rewrite <- Hlen. reflexivity.
Qed.

Lemma flag_cases (f : Z) :
  (f =? MsgTypeFlagBits.WithEvent) = true /\ isSeqFlag f = false
  \/ (f =? MsgTypeFlagBits.WithEvent) = false.
Proof.
  unfold isSeqFlag, MsgTypeFlagBits.WithEvent, MsgTypeFlagBits.PositiveSeq,
    MsgTypeFlagBits.NegativeSeq.
  destruct (Z.eqb_spec f 4) as [->|]; [left|right]; auto.
Qed.

Lemma readSessionId_skip (msg : Message) (data : list byte) (offset : nat) (e : Z) :
  event msg = Some e -> readSessionId_skips e = true ->
  readSessionId msg data offset = Ok (msg, offset).
Proof. intros He Hs. unfold readSessionId. rewrite He, Hs. reflexivity. Qed.

Lemma readConnectId_skip (msg : Message) (data : list byte) (offset : nat) (e : Z) :
  event msg = Some e -> readConnectId_reads e = false ->
  readConnectId msg data offset = Ok (msg, offset).
Proof. intros He Hs. unfold readConnectId. rewrite He, Hs. reflexivity. Qed.

(** One reader of the chain consuming the field under the cursor. *)
Lemma runReaders_field (r : Reader) (rs : list Reader) (msg msg' : Message)
    (pre field rest : list byte) :
  runReader r msg (pre ++ field ++ rest) (length pre)
    = Ok (msg', length (pre ++ field)) ->
  runReaders (r :: rs) msg (pre ++ field ++ rest) (length pre)
  = runReaders rs msg' ((pre ++ field) ++ rest) (length (pre ++ field)).
Proof.
  intros H. cbn [runReaders]. rewrite H. cbn [mbind result_bind].
  rewrite app_assoc. reflexivity.
Qed.

(** One reader of the chain leaving the cursor where it is. *)
Lemma runReaders_skip (r : Reader) (rs : list Reader) (msg : Message)
    (data : list byte) (offset : nat) :
  runReader r msg data offset = Ok (msg, offset) ->
  runReaders (r :: rs) msg data offset = runReaders rs msg data offset.
Proof.
  intros H. cbn [runReaders]. rewrite H. reflexivity.
Qed.

Lemma runReaders_payload (msg : Message) (pre p : list byte) :
  payload msg = [] ->
  Z.of_nat (length p) < 2 ^ 32 ->
  runReaders [RPayload] msg
    (pre ++ (be32 (Z.of_nat (length p)) ++ p) ++ []) (length pre)
  = Ok (set_payload p msg,
        length (pre ++ (be32 (Z.of_nat (length p)) ++ p) ++ [])).
Proof.
  intros Hp Hlen. cbn [runReaders runReader].
  rewrite (readPayload_field msg pre [] p Hp eq_refl Hlen).
  reflexivity.
Qed.

Lemma inInt32_spec (z : Z) : inInt32 z = true <-> - 2 ^ 31 <= z < 2 ^ 31.
Proof. unfold inInt32. rewrite andb_true_iff, Z.leb_le, Z.ltb_lt. tauto. Qed.

Lemma inUint32_spec (z : Z) : inUint32 z = true <-> 0 <= z < 2 ^ 32.
Proof. unfold inUint32. rewrite andb_true_iff, Z.leb_le, Z.ltb_lt. tauto. Qed.

Lemma writeSkip_readSkip (e : Z) :
  readConnectId_reads e = false ->
  readSessionId_skips e = writeSessionId_skips e.
Proof.
  unfold readConnectId_reads, readSessionId_skips, writeSessionId_skips.
  intros [[H1 H2]%orb_false_elim H3]%orb_false_elim.
  rewrite H3, orb_false_r. reflexivity.
Qed.

Lemma isContentType_not_Error (t : Z) :
  isContentType t = true -> (t =? MsgType.Error) = false.
Proof.
  destruct (Z.eqb_spec t MsgType.Error) as [->|]; [|reflexivity].
  vm_compute. congruence.
Qed.

Ltac same_message m :=
  rewrite <- ?app_assoc;
  match goal with
  | |- Ok (?a, ?n) = Ok (?b, ?n) =>
      replace a with b; [reflexivity|];
      destruct m; cbn in *; subst; reflexivity
  end.

(** The round trip, with the session id left free to be unset or empty: it
    comes back unset then. *)
Lemma roundtrip_core (m : Message) :
  wellFormed m = true -> presenceRulesNoSession m = true ->
  layoutReadable m = true ->
  from_option hasBOM false (sessionId m) = false ->
  exists data, marshalMessage m = Ok data
    /\ unmarshalWithOffset data
       = Ok (set_sessionId (dropEmpty (sessionId m)) (set_connectId None m),
             length data).
Proof.
  intros Hwf Hpr Hdec Hbom.
  unfold wellFormed in Hwf. rewrite !andb_true_iff in Hwf.
  destruct Hwf as [[[[[[Hh Hk] Hev] Hsq] Hec] Hsid] Hpl].
  unfold presenceRulesNoSession in Hpr. rewrite !andb_true_iff in Hpr.
  destruct Hpr as [[[Pev Psid] Psq] Pec].
  unfold layoutReadable in Hdec. rewrite !andb_true_iff in Hdec.
  destruct Hdec as [Dev Derr].
  apply Bool.eqb_prop in Pev, Psq, Pec.
  apply Z.ltb_lt in Hpl.
  assert (Hhs : (4 * headerSize m <? 0) = false).
  { unfold headerFieldsOk in Hh. rewrite !andb_true_iff, Z.leb_le in Hh.
    apply Z.ltb_ge. lia. }
  assert (Hpay : payload (headerOf m) = []) by reflexivity.
  unfold marshalMessage, getWriters. rewrite Hhs.
  pose proof (unmarshal_frame m) as Hframe.
  unfold getReaders in Hframe. cbn [headerOf type flag] in Hframe.
  fold (headerOf m) in Hframe.
  unfold isKnownType in Hk.
  destruct (isContentType (type m)) eqn:Hct.
  - (* the five content kinds *)
    rewrite (isContentType_not_Error _ Hct) in Pec.
    destruct (flag_cases (flag m)) as [[Hfe Hfs]|Hfe].
    + (* WithEvent *)
      rewrite Hfe, Hfs in *. cbn [andb] in *.
      destruct (event m) as [e|] eqn:Eev; [|discriminate Pev].
      destruct (sequence m) as [?|] eqn:Esq; [discriminate Psq|].
      destruct (errorCode m) as [?|] eqn:Eec; [discriminate Pec|].
      cbn [from_option] in *.
      apply negb_true_iff in Dev. apply inInt32_spec in Hev.
      pose proof (writeSkip_readSkip e Dev) as Hskip.
      eexists. split; [reflexivity|].
      cbn [mbind result_bind app omap list_omap runWriter concat].
      unfold writeEvent, writeSessionId, writePayload. rewrite Eev.
      destruct (writeSessionId_skips e) eqn:Hws; cbn [negb] in Psid.
      * destruct (sessionId m) as [?|] eqn:Esid; [discriminate Psid|].
        cbn [concat]. rewrite Hframe by exact Hh.
        cbn [mbind result_bind app].
        erewrite runReaders_field by (apply readEvent_field; exact Hev).
        erewrite runReaders_skip
          by (eapply readSessionId_skip; [reflexivity|exact Hskip]).
        erewrite runReaders_skip
          by (eapply readConnectId_skip; [reflexivity|exact Dev]).
        rewrite runReaders_payload by (reflexivity || exact Hpl).
        same_message m.
      * destruct (sessionId m) as [[|c sid]|] eqn:Esid;
          cbn [from_option default dropEmpty] in *.
        -- (* the empty session id *)
           cbn [concat]. rewrite Hframe by exact Hh.
           cbn [mbind result_bind app].
           erewrite runReaders_field by (apply readEvent_field; exact Hev).
           erewrite runReaders_field
             by (eapply (readSessionId_empty_field _ _ _ e);
                 [reflexivity|exact Hskip]).
           erewrite runReaders_skip
             by (eapply readConnectId_skip; [reflexivity|exact Dev]).
           rewrite runReaders_payload by (reflexivity || exact Hpl).
           same_message m.
        -- apply Z.ltb_lt in Hsid.
           cbn [concat]. rewrite Hframe by exact Hh.
           cbn [mbind result_bind app].
           erewrite runReaders_field by (apply readEvent_field; exact Hev).
           erewrite runReaders_field
             by (eapply (readSessionId_field _ _ _ e (String c sid));
                 [reflexivity|exact Hskip|discriminate|exact Hbom|exact Hsid]).
           erewrite runReaders_skip
             by (eapply readConnectId_skip; [reflexivity|exact Dev]).
           rewrite runReaders_payload by (reflexivity || exact Hpl).
           same_message m.
        -- (* no session id: written as the empty one *)
           cbn [concat]. rewrite Hframe by exact Hh.
           cbn [mbind result_bind app].
           erewrite runReaders_field by (apply readEvent_field; exact Hev).
           erewrite runReaders_field
             by (eapply (readSessionId_empty_field _ _ _ e);
                 [reflexivity|exact Hskip]).
           erewrite runReaders_skip
             by (eapply readConnectId_skip; [reflexivity|exact Dev]).
           rewrite runReaders_payload by (reflexivity || exact Hpl).
           same_message m.
    + (* no event *)
      rewrite Hfe in *. cbn [andb] in *.
      destruct (event m) as [?|] eqn:Eev; [discriminate Pev|].
      destruct (sessionId m) as [?|] eqn:Esid; [discriminate Psid|].
      destruct (errorCode m) as [?|] eqn:Eec; [discriminate Pec|].
      destruct (isSeqFlag (flag m)) eqn:Hfs.
      * destruct (sequence m) as [q|] eqn:Esq; [|discriminate Psq].
        cbn [from_option] in *. apply inInt32_spec in Hsq.
        eexists. split; [reflexivity|].
        cbn [mbind result_bind app omap list_omap runWriter concat].
        unfold writeSequence, writePayload. rewrite Esq.
        cbn [concat]. rewrite Hframe by exact Hh.
        cbn [mbind result_bind app].
        erewrite runReaders_field by (apply readSequence_field; exact Hsq).
        rewrite runReaders_payload by (reflexivity || exact Hpl).
        same_message m.
      * destruct (sequence m) as [q|] eqn:Esq; [discriminate Psq|].
        eexists. split; [reflexivity|].
        cbn [mbind result_bind app omap list_omap runWriter concat].
        unfold writePayload.
        cbn [concat]. rewrite Hframe by exact Hh.
        cbn [mbind result_bind app].
        rewrite runReaders_payload by (reflexivity || exact Hpl).
        same_message m.
  - (* Error *)
    cbn [orb] in Hk. rewrite Hk in *. cbn [andb negb] in *.
    apply negb_true_iff in Derr. rewrite Derr in *. cbn [andb] in *.
    destruct (event m) as [?|] eqn:Eev; [discriminate Pev|].
    destruct (sessionId m) as [?|] eqn:Esid; [discriminate Psid|].
    destruct (sequence m) as [?|] eqn:Esq; [discriminate Psq|].
    destruct (errorCode m) as [c|] eqn:Eec; [|discriminate Pec].
    cbn [from_option] in *. apply inUint32_spec in Hec.
    eexists. split; [reflexivity|].
    cbn [mbind result_bind app omap list_omap runWriter concat].
    unfold writeErrorCode, writePayload. rewrite Eec.
    cbn [concat]. rewrite Hframe by exact Hh.
    cbn [mbind result_bind app].
    erewrite runReaders_field by (apply readErrorCode_field; exact Hec).
    rewrite runReaders_payload by (reflexivity || exact Hpl).
    same_message m.
Qed.

Lemma presenceRules_NoSession (m : Message) :
  presenceRules m = true -> presenceRulesNoSession m = true.
Proof.
  unfold presenceRules, presenceRulesNoSession.
  rewrite !andb_true_iff. intros [[[Pev Psid] Psq] Pec].
  repeat split; try assumption.
  apply Bool.eqb_prop in Psid. rewrite Psid.
  destruct ((flag m =? MsgTypeFlagBits.WithEvent)
            && from_option (fun e => negb (writeSessionId_skips e)) false
                 (event m)); reflexivity.
Qed.

Lemma roundtrip_offset (m : Message) :
  wellFormed m = true -> presenceRules m = true ->
  decodableAsWritten m = true ->
  exists data, marshalMessage m = Ok data
    /\ unmarshalWithOffset data = Ok (set_connectId None m, length data).
Proof.
  intros Hwf Hpr%presenceRules_NoSession Hdec.
  unfold decodableAsWritten, sessionIdReadable in Hdec.
  rewrite !andb_true_iff, !negb_true_iff in Hdec.
  destruct Hdec as [[Hne Hbom] Hlay].
  destruct (roundtrip_core m Hwf Hpr Hlay Hbom) as (data & Hm & Hu).
  exists data. split; [exact Hm|]. rewrite Hu. do 2 f_equal.
  destruct m as [v hs t f se c ev [[|a sid]|] cid sq ec pl];
    cbn in Hne |- *; [discriminate Hne|reflexivity|reflexivity].
Qed.

(** A frame written for such a message is read to its last byte. *)
Lemma marshal_completeFrame (m : Message) (data : list byte) :
  wellFormed m = true -> presenceRules m = true ->
  decodableAsWritten m = true ->
  marshalMessage m = Ok data -> completeFrame data.
Proof.
  intros Hwf Hpr Hdec Hm.
  destruct (roundtrip_offset m Hwf Hpr Hdec) as (data' & Hm' & Hu).
  rewrite Hm in Hm'. injection Hm' as <-.
  exists (set_connectId None m). exact Hu.
Qed.

(** *** C1: round trip *)

(** C1, as amended.  For every message [m] of the data model that obeys the
    presence rules and whose session id, when it has one, is not the empty
    string and does not begin with a byte order mark, whose event, when it
    has one, is none of [ConnectionStarted], [ConnectionFailed],
    [ConnectionFinished], and that is not an [Error] message flagged
    [WithEvent]: decoding the encoding of [m] returns [m] with [connectId]
    unset.  So every applicable field comes back as it was, and the fields
    that [m] leaves unset by the presence rules stay unset. *)
Theorem roundtrip_decodable (m : Message) :
  wellFormed m = true -> presenceRules m = true ->
  decodableAsWritten m = true ->
  exists data,
    marshalMessage m = Ok data
    /\ unmarshalMessage data = Ok (set_connectId None m).
Proof.
  intros Hwf Hpr Hdec.
  destruct (roundtrip_offset m Hwf Hpr Hdec) as (data & Hm & Hu).
  exists data. split; [exact Hm|].
  unfold unmarshalMessage. rewrite Hu. reflexivity.
Qed.

Lemma roundtrip_decodable_witness :
  let m := StartSession_message emptyJson "abc" in
  wellFormed m = true /\ presenceRules m = true
  /\ decodableAsWritten m = true
  /\ exists data,
       marshalMessage m = Ok data
       /\ unmarshalMessage data = Ok (set_connectId None m).
Proof.
  cbv zeta.
  split; [vm_compute; reflexivity|].
  split; [vm_compute; reflexivity|].
  split; [vm_compute; reflexivity|].
  apply (roundtrip_decodable (StartSession_message emptyJson "abc"));
    vm_compute; reflexivity.
Defined.

(** C1 as stated fails on a session id that is the empty string: the message
    obeys the presence rules, and its session id comes back unset. *)
Lemma roundtrip_loses_empty_sessionId :
  let m := StartSession_message emptyJson "" in
  wellFormed m = true /\ presenceRules m = true
  /\ exists data msg,
       marshalMessage m = Ok data
       /\ unmarshalMessage data = Ok msg
       /\ sessionId m = Some EmptyString
       /\ sessionId msg = None.
Proof.
  cbv zeta.
  split; [vm_compute; reflexivity|].
  split; [vm_compute; reflexivity|].
  eexists. eexists.
  split; [vm_compute; reflexivity|].
  split; [vm_compute; reflexivity|].
  split; reflexivity.
Qed.

(** The other restrictions of the amended claim are needed as well.  A
    session id that begins with a byte order mark comes back without it. *)
Example roundtrip_loses_byte_order_mark :
  let bom := string_of_list_byte [Byte.xef; Byte.xbb; Byte.xbf] in
  let m := StartSession_message emptyJson (bom ++ "abc") in
  wellFormed m = true /\ presenceRules m = true
  /\ exists data msg,
       marshalMessage m = Ok data
       /\ unmarshalMessage data = Ok msg
       /\ sessionId msg = Some "abc"%string.
Proof.
  cbv zeta.
  split; [vm_compute; reflexivity|].
  split; [vm_compute; reflexivity|].
  eexists. eexists.
  split; [vm_compute; reflexivity|].
  split; [vm_compute; reflexivity|].
  reflexivity.
Qed.

(** A [ConnectionStarted] message obeys the presence rules (no session id), and
    the decoder takes its payload for the connect id. *)
Example roundtrip_ConnectionStarted_fails :
  let m := withEvent_message EventType.ConnectionStarted None emptyJson in
  wellFormed m = true /\ presenceRules m = true
  /\ exists data,
       marshalMessage m = Ok data
       /\ unmarshalMessage data = Err (TruncatedField "payload size").
Proof.
  cbv zeta.
  split; [vm_compute; reflexivity|].
  split; [vm_compute; reflexivity|].
  eexists. split; [vm_compute; reflexivity|vm_compute; reflexivity].
Qed.

(** An [Error] message with an event is written event first and read error
    code first. *)
Example roundtrip_Error_WithEvent_fails :
  wellFormed errorWithEvent = true /\ presenceRules errorWithEvent = true
  /\ exists data,
       marshalMessage errorWithEvent = Ok data
       /\ unmarshalMessage data = Err (TruncatedField "session ID").
Proof.
  split; [vm_compute; reflexivity|].
  split; [vm_compute; reflexivity|].
  eexists. split; [vm_compute; reflexivity|vm_compute; reflexivity].
Qed.

(** *** C2: the frame of [StartSession] *)

(** C2, as amended.  Encoding the [FullClientRequest] message with flag
    [WithEvent], event [StartSession] (100), session id "abc" and payload
    '{}' that [createMessage] and [StartSession] build gives the 4-byte
    header 11 14 10 00, then 00 00 00 64, then 00 00 00 03 61 62 63, then
    00 00 00 02 7b 7d. *)
Theorem StartSession_frame :
  marshalMessage (StartSession_message emptyJson "abc") = Ok startSessionFrame
  /\ StartSession emptyJson "abc" = Ok startSessionFrame.
Proof. split; vm_compute; reflexivity. Qed.

(** C2 as stated fails: the frame does not begin with the three bytes
    01 14 01. *)
Lemma StartSession_frame_not_short :
  marshalMessage (StartSession_message emptyJson "abc")
  <> Ok startSessionFrame_short.
Proof. vm_compute. discriminate. Qed.

(** ** The registry *)

(** Every handler keeps the queue or the waiter list of every socket empty. *)
Lemma rendezvous_step (reg : Registry) (a : Action) :
  rendezvous reg -> rendezvous (step reg a).
Proof.
  intros Hinv ws'. specialize (Hinv ws'). unfold queueOf, waitersOf in *.
  destruct a as [ws data|ws|ws w|ws]; cbn [step].
  - unfold onMessage.
    destruct (unmarshalMessage data) as [msg|e]; [|exact Hinv].
    destruct (messageCallbacks reg !! ws) as [[|cb cbs]|] eqn:Hcb;
      [| |exact Hinv].
    + destruct (messageQueues reg !! ws) as [q|] eqn:Hq; [|exact Hinv].
      simpl. destruct (decide (ws = ws')) as [<-|Hne].
      * right. rewrite Hcb. reflexivity.
      * rewrite lookup_insert_ne by exact Hne. exact Hinv.
    + simpl. destruct (decide (ws = ws')) as [<-|Hne].
      * left. rewrite Hcb in Hinv.
        destruct Hinv as [H|H]; [exact H|discriminate H].
      * rewrite lookup_insert_ne by exact Hne. exact Hinv.
  - unfold ReceiveMessage, setupMessageHandler.
    destruct (messageQueues reg !! ws) as [q|] eqn:Hq.
    + rewrite Hq. simpl. destruct q as [|msg q]; simpl.
      * destruct (decide (ws = ws')) as [<-|Hne].
        -- left. rewrite Hq. reflexivity.
        -- rewrite lookup_insert_ne by exact Hne. exact Hinv.
      * destruct (decide (ws = ws')) as [<-|Hne].
        -- right. rewrite Hq in Hinv.
           destruct Hinv as [H|H]; [discriminate H|exact H].
        -- rewrite lookup_insert_ne by exact Hne. exact Hinv.
    + simpl. rewrite !lookup_insert_eq. simpl.
      destruct (decide (ws = ws')) as [<-|Hne].
      * left. rewrite lookup_insert_eq. reflexivity.
      * rewrite !lookup_insert_ne by exact Hne. exact Hinv.
  - unfold errorHandler.
    destruct (messageCallbacks reg !! ws) as [cbs|] eqn:Hcb; [|exact Hinv].
    destruct (list_find _ cbs) as [[i x]|] eqn:Hf; [|exact Hinv].
    simpl. destruct (decide (ws = ws')) as [<-|Hne].
    + rewrite lookup_insert_eq. simpl.
      rewrite Hcb in Hinv. simpl in Hinv.
      destruct Hinv as [H|H]; [left; exact H|].
      subst cbs. apply list_find_Some in Hf as [Hf _]. discriminate Hf.
    + rewrite lookup_insert_ne by exact Hne. exact Hinv.
  - unfold onClose. simpl.
    destruct (decide (ws = ws')) as [<-|Hne].
    + left. rewrite lookup_delete_eq. reflexivity.
    + rewrite !lookup_delete_ne by exact Hne. exact Hinv.
Qed.

Lemma rendezvous_fold (actions : list Action) (reg : Registry) :
  rendezvous reg -> rendezvous (fold_left step actions reg).
Proof.
  revert reg. induction actions as [|a actions IH]; intros reg Hinv.
  - exact Hinv.
  - cbn [fold_left]. apply IH, rendezvous_step, Hinv.
Qed.

(** The two maps always have the same sockets as keys, so a listener or a
    call that finds one array finds the other. *)
Lemma sameKeys_step (reg : Registry) (a : Action) :
  sameKeys reg -> sameKeys (step reg a).
Proof.
  intros Hinv ws'. specialize (Hinv ws').
  destruct a as [ws data|ws|ws w|ws]; cbn [step].
  - unfold onMessage.
    destruct (unmarshalMessage data) as [msg|e]; [|exact Hinv].
    destruct (messageCallbacks reg !! ws) as [[|cb cbs]|] eqn:Hcb;
      [| |exact Hinv].
    + destruct (messageQueues reg !! ws) as [q|] eqn:Hq; [|exact Hinv].
      simpl. destruct (decide (ws = ws')) as [<-|Hne].
      * rewrite lookup_insert_eq, Hcb. split; discriminate.
      * rewrite lookup_insert_ne by exact Hne. exact Hinv.
    + simpl. destruct (decide (ws = ws')) as [<-|Hne].
      * rewrite lookup_insert_eq. rewrite Hcb in Hinv.
        split; [intros Hq; apply Hinv in Hq; discriminate Hq|discriminate].
      * rewrite lookup_insert_ne by exact Hne. exact Hinv.
  - unfold ReceiveMessage, setupMessageHandler.
    destruct (messageQueues reg !! ws) as [q|] eqn:Hq.
    + rewrite Hq. simpl. destruct q as [|msg q]; simpl.
      * destruct (decide (ws = ws')) as [<-|Hne].
        -- rewrite lookup_insert_eq, Hq. split; discriminate.
        -- rewrite lookup_insert_ne by exact Hne. exact Hinv.
      * destruct (decide (ws = ws')) as [<-|Hne].
        -- rewrite lookup_insert_eq. rewrite Hq in Hinv.
           split; [discriminate|intros Hc; apply Hinv in Hc; discriminate Hc].
        -- rewrite lookup_insert_ne by exact Hne. exact Hinv.
    + simpl. rewrite !lookup_insert_eq. simpl.
      destruct (decide (ws = ws')) as [<-|Hne].
      * rewrite !lookup_insert_eq. split; discriminate.
      * rewrite !lookup_insert_ne by exact Hne. exact Hinv.
  - unfold errorHandler.
    destruct (messageCallbacks reg !! ws) as [cbs|] eqn:Hcb; [|exact Hinv].
    destruct (list_find _ cbs) as [[i x]|] eqn:Hf; [|exact Hinv].
    simpl. destruct (decide (ws = ws')) as [<-|Hne].
    + rewrite lookup_insert_eq. rewrite Hcb in Hinv.
      split; [intros Hq; apply Hinv in Hq; discriminate Hq|discriminate].
    + rewrite lookup_insert_ne by exact Hne. exact Hinv.
  - unfold onClose. simpl.
    destruct (decide (ws = ws')) as [<-|Hne].
    + rewrite !lookup_delete_eq. split; reflexivity.
    + rewrite !lookup_delete_ne by exact Hne. exact Hinv.
Qed.

Lemma sameKeys_run (actions : list Action) : sameKeys (run actions).
Proof.
  unfold run.
  assert (Hgen : forall reg, sameKeys reg -> sameKeys (fold_left step actions reg)).
  { induction actions as [|a actions IH]; intros reg Hinv; [exact Hinv|].
    cbn [fold_left]. apply IH, sameKeys_step, Hinv. }
  apply Hgen. intros ws. split; reflexivity.
Qed.

(** *** C6: the queue and the waiters *)

(** C6, as amended.  In every state of the registry reached by any
    interleaving of frame deliveries and [ReceiveMessage] calls (and of
    socket errors and closes), at most one of the message queue and the waiter
    list of a socket is non-empty: one of the two is empty. *)
Theorem never_both (actions : list Action) (ws : WebSocket) :
  queueOf ws (run actions) = [] \/ waitersOf ws (run actions) = [].
Proof.
  apply rendezvous_fold. intros ws'. left. reflexivity.
Qed.

(** C6 as stated fails: after a [ReceiveMessage] that waits and the frame
    that serves it, the socket has both arrays, and both are empty, so it is
    not the case that exactly one of them is non-empty. *)
Lemma both_empty_reachable :
  let reg := run [Receive 1%positive; Frame 1%positive statusFrame] in
  messageQueues reg !! 1%positive = Some []
  /\ messageCallbacks reg !! 1%positive = Some []
  /\ ~ exactlyOne 1%positive reg.
Proof.
  cbv zeta. split; [|split]; [vm_compute; reflexivity ..|].
  unfold exactlyOne. intros [[H _]|[_ H]]; apply H; vm_compute; reflexivity.
Qed.

Lemma onMessage_queued (ws : WebSocket) (data : list byte) (reg : Registry)
    (msg : Message) (queue : list Message) :
  unmarshalMessage data = Ok msg ->
  messageCallbacks reg !! ws = Some [] ->
  messageQueues reg !! ws = Some queue ->
  onMessage ws data reg = Ok (setQueue ws (queue ++ [msg]) reg, None).
Proof.
  intros Hd Hcb Hq. unfold onMessage. rewrite Hd, Hcb, Hq. reflexivity.
Qed.

Lemma ReceiveMessage_queued (ws : WebSocket) (reg : Registry)
    (msg : Message) (queue : list Message) :
  messageQueues reg !! ws = Some (msg :: queue) ->
  ReceiveMessage ws reg = (setQueue ws queue reg, inl msg).
Proof.
  intros Hq. unfold ReceiveMessage, setupMessageHandler. rewrite Hq. simpl.
  rewrite Hq. reflexivity.
Qed.

Lemma setQueue_queue (ws : WebSocket) (queue : list Message) (reg : Registry) :
  messageQueues (setQueue ws queue reg) !! ws = Some queue.
Proof. apply lookup_insert_eq. Qed.

Lemma setQueue_callbacks (ws : WebSocket) (queue : list Message) (reg : Registry) :
  messageCallbacks (setQueue ws queue reg) = messageCallbacks reg.
Proof. reflexivity. Qed.

(** Frames that arrive while nobody waits are appended to the queue. *)
Lemma frames_queued (ws : WebSocket) (frames : list (list byte))
    (msgs : list Message) :
  Forall2 (fun data msg => unmarshalMessage data = Ok msg) frames msgs ->
  forall (reg : Registry) (queue : list Message),
    messageCallbacks reg !! ws = Some [] ->
    messageQueues reg !! ws = Some queue ->
    fold_left step (map (Frame ws) frames) reg
    = match frames with
      | [] => reg
      | _ => setQueue ws (queue ++ msgs) reg
      end.
Proof.
  induction 1 as [|data msg frames msgs Hd Hrest IH]; intros reg queue Hcb Hq.
  - reflexivity.
  - cbn [map fold_left step].
    rewrite (onMessage_queued ws data reg msg queue Hd Hcb Hq).
    rewrite (IH _ (queue ++ [msg])); [|exact Hcb|apply setQueue_queue].
    destruct frames.
    + inversion Hrest. subst. reflexivity.
    + unfold setQueue. cbn [messageQueues messageCallbacks nextWaiter].
      rewrite insert_insert_eq, <- app_assoc. reflexivity.
Qed.

(** Calls made while messages are queued take them from the front. *)
Lemma receiveAll_queued (ws : WebSocket) (msgs : list Message) :
  forall (reg : Registry) (rest : list Message),
    messageQueues reg !! ws = Some (msgs ++ rest) ->
    exists reg',
      receiveAll (length msgs) ws reg = (reg', map inl msgs)
      /\ messageQueues reg' !! ws = Some rest
      /\ messageCallbacks reg' = messageCallbacks reg.
Proof.
  induction msgs as [|msg msgs IH]; intros reg rest Hq.
  - exists reg. repeat split. exact Hq.
  - cbn [length receiveAll app] in *.
    rewrite (ReceiveMessage_queued ws reg msg (msgs ++ rest) Hq).
    destruct (IH (setQueue ws (msgs ++ rest) reg) rest (setQueue_queue _ _ _))
      as (reg' & Hall & Hq' & Hcb').
    exists reg'. rewrite Hall. repeat split; assumption.
Qed.

(** Any number of frames that arrive while nobody waits come back, in the
    order of their arrival, from as many calls. *)
Lemma fifo_general (ws : WebSocket) (reg : Registry)
    (frames : list (list byte)) (msgs : list Message) :
  messageQueues reg !! ws = Some [] ->
  messageCallbacks reg !! ws = Some [] ->
  Forall2 (fun data msg => unmarshalMessage data = Ok msg) frames msgs ->
  exists reg',
    receiveAll (length msgs) ws (fold_left step (map (Frame ws) frames) reg)
    = (reg', map inl msgs)
    /\ messageQueues reg' !! ws = Some []
    /\ messageCallbacks reg' !! ws = Some [].
Proof.
  intros Hq Hcb Hdec.
  rewrite (frames_queued ws frames msgs Hdec reg [] Hcb Hq).
  destruct Hdec as [|data msg frames msgs Hd Hrest].
  - exists reg. repeat split; assumption.
  - destruct (receiveAll_queued ws (msg :: msgs)
                (setQueue ws ([] ++ msg :: msgs) reg) [])
      as (reg' & Hall & Hq' & Hcb').
    { rewrite setQueue_queue, app_nil_r. reflexivity. }
    exists reg'. repeat split; [exact Hall|exact Hq'|].
    rewrite Hcb'. exact Hcb.
Qed.

Lemma ReceiveMessage_idle (ws : WebSocket) (reg : Registry) :
  idle ws reg ->
  exists reg',
    ReceiveMessage ws reg = (reg', inr (nextWaiter reg))
    /\ messageQueues reg' !! ws = Some []
    /\ messageCallbacks reg' !! ws = Some [nextWaiter reg].
Proof.
  intros [[Hq Hcb]|[Hq Hcb]]; unfold ReceiveMessage, setupMessageHandler;
    rewrite Hq; simpl.
  - rewrite !lookup_insert_eq. simpl. eexists. split; [reflexivity|].
    simpl. rewrite !lookup_insert_eq. split; reflexivity.
  - rewrite Hq, Hcb. simpl. eexists. split; [reflexivity|].
    simpl. rewrite lookup_insert_eq. split; [exact Hq|reflexivity].
Qed.

Lemma onMessage_waiting (ws : WebSocket) (data : list byte) (reg : Registry)
    (msg : Message) (w : Waiter) (ws' : list Waiter) :
  unmarshalMessage data = Ok msg ->
  messageCallbacks reg !! ws = Some (w :: ws') ->
  onMessage ws data reg
  = Ok (mkRegistry (messageQueues reg) (<[ws := ws']> (messageCallbacks reg))
          (nextWaiter reg), Some (w, msg)).
Proof.
  intros Hd Hcb. unfold onMessage. rewrite Hd, Hcb. reflexivity.
Qed.

(** *** C7: delivery in arrival order *)

(** C7.  On a socket that has its queue and its waiter list, both empty
    (the listener is there: [ReceiveMessage] has been called on the socket
    and it has not closed since): three frames that arrive are queued, none is handed to a waiter, and the next three
    [ReceiveMessage] calls return their messages at once, in the order of
    arrival.  And on a socket with nothing queued and nobody waiting, a
    [ReceiveMessage] call stays pending on a new resolver; the next frame to
    arrive resolves that very resolver with its message, and the frame after
    it is queued. *)
Theorem fifo_delivery (ws : WebSocket) (reg : Registry) :
  (forall (f1 f2 f3 : list byte) (M1 M2 M3 : Message),
      messageQueues reg !! ws = Some [] ->
      messageCallbacks reg !! ws = Some [] ->
      unmarshalMessage f1 = Ok M1 ->
      unmarshalMessage f2 = Ok M2 ->
      unmarshalMessage f3 = Ok M3 ->
      exists a1 a2 a3 r1 r2 r3,
        onMessage ws f1 reg = Ok (a1, None)
        /\ onMessage ws f2 a1 = Ok (a2, None)
        /\ onMessage ws f3 a2 = Ok (a3, None)
        /\ ReceiveMessage ws a3 = (r1, inl M1)
        /\ ReceiveMessage ws r1 = (r2, inl M2)
        /\ ReceiveMessage ws r2 = (r3, inl M3)
        /\ idle ws r3)
  /\ (forall (f1 f2 : list byte) (M1 M2 : Message),
      idle ws reg ->
      unmarshalMessage f1 = Ok M1 ->
      unmarshalMessage f2 = Ok M2 ->
      exists w r1 r2 r3,
        ReceiveMessage ws reg = (r1, inr w)
        /\ onMessage ws f1 r1 = Ok (r2, Some (w, M1))
        /\ onMessage ws f2 r2 = Ok (r3, None)
        /\ messageQueues r3 !! ws = Some [M2]
        /\ messageCallbacks r3 !! ws = Some []).
Proof.
  split.
  - intros f1 f2 f3 M1 M2 M3 Hq Hcb H1 H2 H3.
    do 6 eexists.
    split; [apply (onMessage_queued ws f1 reg M1 [] H1 Hcb Hq)|].
    split; [eapply onMessage_queued; [exact H2|exact Hcb|apply setQueue_queue]|].
    split; [eapply onMessage_queued; [exact H3|exact Hcb|apply setQueue_queue]|].
    split; [apply ReceiveMessage_queued; apply setQueue_queue|].
    split; [apply ReceiveMessage_queued; apply setQueue_queue|].
    split; [apply ReceiveMessage_queued; apply setQueue_queue|].
    right. split; [apply setQueue_queue|exact Hcb].
  - intros f1 f2 M1 M2 Hidle H1 H2.
    destruct (ReceiveMessage_idle ws reg Hidle) as (r1 & Hr & Hq1 & Hcb1).
    exists (nextWaiter reg), r1. do 2 eexists.
    split; [exact Hr|].
    split; [apply (onMessage_waiting ws f1 r1 M1 _ [] H1 Hcb1)|].
    split.
    + apply (onMessage_queued ws f2 _ M2 [] H2).
      * simpl. apply lookup_insert_eq.
      * simpl. exact Hq1.
    + split; [apply setQueue_queue|]. simpl. apply lookup_insert_eq.
Qed.

Lemma fifo_delivery_witness :
  let ws := 1%positive in
  let reg := run [Receive ws; Frame ws statusFrame] in
  (exists M1 M2 M3 a1 a2 a3 r1 r2 r3,
      unmarshalMessage statusFrame = Ok M1
      /\ unmarshalMessage audioFrame1 = Ok M2
      /\ unmarshalMessage audioFrame2 = Ok M3
      /\ onMessage ws statusFrame reg = Ok (a1, None)
      /\ onMessage ws audioFrame1 a1 = Ok (a2, None)
      /\ onMessage ws audioFrame2 a2 = Ok (a3, None)
      /\ ReceiveMessage ws a3 = (r1, inl M1)
      /\ ReceiveMessage ws r1 = (r2, inl M2)
      /\ ReceiveMessage ws r2 = (r3, inl M3)
      /\ idle ws r3)
  /\ (exists M1 M2 w r1 r2 r3,
      unmarshalMessage audioFrame1 = Ok M1
      /\ unmarshalMessage audioFrame2 = Ok M2
      /\ ReceiveMessage ws reg = (r1, inr w)
      /\ onMessage ws audioFrame1 r1 = Ok (r2, Some (w, M1))
      /\ onMessage ws audioFrame2 r2 = Ok (r3, None)
      /\ messageQueues r3 !! ws = Some [M2]
      /\ messageCallbacks r3 !! ws = Some []).
Proof.
  cbv zeta.
  set (reg := run [Receive 1%positive; Frame 1%positive statusFrame]).
  assert (Hq : messageQueues reg !! 1%positive = Some [])
    by (vm_compute; reflexivity).
  assert (Hcb : messageCallbacks reg !! 1%positive = Some [])
    by (vm_compute; reflexivity).
  split.
  - eexists. eexists. eexists.
    assert (H1 : unmarshalMessage statusFrame = Ok _) by (vm_compute; reflexivity).
    assert (H2 : unmarshalMessage audioFrame1 = Ok _) by (vm_compute; reflexivity).
    assert (H3 : unmarshalMessage audioFrame2 = Ok _) by (vm_compute; reflexivity).
    destruct (proj1 (fifo_delivery 1%positive reg) _ _ _ _ _ _ Hq Hcb H1 H2 H3)
      as (a1 & a2 & a3 & r1 & r2 & r3 & Hrest).
    exists a1, a2, a3, r1, r2, r3.
    split; [exact H1|]. split; [exact H2|]. split; [exact H3|]. exact Hrest.
  - eexists. eexists.
    assert (H1 : unmarshalMessage audioFrame1 = Ok _) by (vm_compute; reflexivity).
    assert (H2 : unmarshalMessage audioFrame2 = Ok _) by (vm_compute; reflexivity).
    destruct (proj2 (fifo_delivery 1%positive reg) _ _ _ _
                (or_intror (conj Hq Hcb)) H1 H2)
      as (w & r1 & r2 & r3 & Hrest).
    exists w, r1, r2, r3.
    split; [exact H1|]. split; [exact H2|]. exact Hrest.
Defined.

(** Before the first [ReceiveMessage] on a socket there is no listener on
    it: three frames that arrive with nobody waiting leave no trace in the
    registry, and the three calls that follow all stay pending, each on its
    own resolver. *)
Example fifo_lost_before_first_call :
  Forall (fun data => exists msg, unmarshalMessage data = Ok msg)
    [statusFrame; audioFrame1; audioFrame2]
  /\ waitersOf 1%positive emptyRegistry = []
  /\ run [Frame 1%positive statusFrame; Frame 1%positive audioFrame1;
          Frame 1%positive audioFrame2] = emptyRegistry
  /\ snd (receiveAll 3 1%positive
            (run [Frame 1%positive statusFrame; Frame 1%positive audioFrame1;
                  Frame 1%positive audioFrame2]))
     = [inr 0%nat; inr 1%nat; inr 2%nat].
Proof.
  split; [|vm_compute; repeat split].
  repeat (constructor; [eexists; vm_compute; reflexivity|]). constructor.
Qed.

(** ** Names identify what they name *)

Lemma decimal_inj (a b : Z) : decimal a = decimal b -> a = b.
Proof.
  unfold decimal. intros H.
  assert (Hnn : forall z, Z.to_int z <> Decimal.Pos Decimal.Nil
                       /\ Z.to_int z <> Decimal.Neg Decimal.Nil).
  { intros [|p|p]; cbn; split; try discriminate;
      intros [= E]; exact (Unsigned.to_uint_nonnil p E). }
  apply (f_equal NilZero.int_of_string) in H.
  rewrite !NilZero.isi in H by apply Hnn.
  injection H as H. apply DecimalZ.to_int_inj. exact H.
Qed.

Lemma enumName_In (names : list (Z * string)) (n : Z) (s : string) :
  enumName names n = Some s -> In (n, s) names.
Proof.
  unfold enumName. destruct (List.find _ names) as [[k v]|] eqn:Hf; [|discriminate].
  intros [= <-]. apply List.find_some in Hf as [Hin Hk].
  apply Z.eqb_eq in Hk. cbn in Hk. subst k. exact Hin.
Qed.

Lemma enumName_inj (names : list (Z * string)) (a b : Z) (s : string) :
  NoDup (map snd names) ->
  enumName names a = Some s -> enumName names b = Some s -> a = b.
Proof.
  intros Hnd Ha%enumName_In Hb%enumName_In.
  induction names as [|[k v] names IH]; [destruct Ha|].
  cbn [map snd] in Hnd. apply NoDup_cons in Hnd as [Hnotin Hnd].
  rewrite list_elem_of_In in Hnotin.
  destruct Ha as [Ha|Ha], Hb as [Hb|Hb].
  - congruence.
  - injection Ha as -> ->. exfalso. apply Hnotin.
    apply (List.in_map snd) in Hb. exact Hb.
  - injection Hb as -> ->. exfalso. apply Hnotin.
    apply (List.in_map snd) in Ha. exact Ha.
  - apply IH; assumption.
Qed.

Lemma enumName_not_i (names : list (Z * string)) (n : Z) (s : string) :
  forallb (fun entry => negb (startsWith_i (snd entry))) names = true ->
  enumName names n = Some s -> startsWith_i s = false.
Proof.
  intros Hall Hn%enumName_In. rewrite forallb_forall in Hall.
  specialize (Hall _ Hn). apply negb_true_iff in Hall. exact Hall.
Qed.

Lemma EventType_names_NoDup : NoDup (map snd EventType.names).
Proof. apply (bool_decide_unpack _). vm_compute. reflexivity. Qed.

Lemma MsgType_names_NoDup : NoDup (map snd MsgType.names).
Proof. apply (bool_decide_unpack _). vm_compute. reflexivity. Qed.

Lemma getEventTypeName_inj (a b : Z) :
  getEventTypeName a = getEventTypeName b -> a = b.
Proof.
  unfold getEventTypeName.
  destruct (enumName EventType.names a) as [sa|] eqn:Ha;
    destruct (enumName EventType.names b) as [sb|] eqn:Hb; intros H.
  - subst sb. exact (enumName_inj _ a b sa EventType_names_NoDup Ha Hb).
  - apply enumName_not_i in Ha; [|vm_compute; reflexivity].
    subst sa. discriminate Ha.
  - apply enumName_not_i in Hb; [|vm_compute; reflexivity].
    subst sb. discriminate Hb.
  - cbn in H. injection H as H. apply decimal_inj. exact H.
Qed.

Lemma getMsgTypeName_inj (a b : Z) :
  getMsgTypeName a = getMsgTypeName b -> a = b.
Proof.
  unfold getMsgTypeName.
  destruct (enumName MsgType.names a) as [sa|] eqn:Ha;
    destruct (enumName MsgType.names b) as [sb|] eqn:Hb; intros H.
  - subst sb. exact (enumName_inj _ a b sa MsgType_names_NoDup Ha Hb).
  - apply enumName_not_i in Ha; [|vm_compute; reflexivity].
    subst sa. discriminate Ha.
  - apply enumName_not_i in Hb; [|vm_compute; reflexivity].
    subst sb. discriminate Hb.
  - cbn in H. injection H as H. apply decimal_inj. exact H.
Qed.

(** ** The consumers *)

Lemma isEvent_spec (eventType : Z) (event : option Z) :
  isEvent eventType event = true <-> event = Some eventType.
Proof.
  destruct event as [e|]; cbn; [|split; discriminate].
  rewrite Z.eqb_eq. split; congruence.
Qed.

(** *** C9: [WaitForEvent] *)

(** C9.  [WaitForEvent] reads exactly one received message (with none to
    read it stays suspended, and what comes after the first message is left
    unread).  It returns that message when its kind and event are the
    expected ones, and otherwise throws the error that names the kind and the
    event it has seen (an unset event is named as event 0); those two names
    determine the kind and the event. *)
Theorem WaitForEvent_once (msgType eventType : Z) (msg : Message)
    (rest : list Message) :
  WaitForEvent msgType eventType [] = (Suspended, [])
  /\ (type msg = msgType /\ event msg = Some eventType ->
      WaitForEvent msgType eventType (msg :: rest) = (Returned msg, rest))
  /\ (~ (type msg = msgType /\ event msg = Some eventType) ->
      WaitForEvent msgType eventType (msg :: rest)
      = (Thrown (UnexpectedMessage (getMsgTypeName (type msg))
                   (getEventTypeName (default 0 (event msg)))), rest))
  /\ (forall msg' : Message,
        UnexpectedMessage (getMsgTypeName (type msg'))
          (getEventTypeName (default 0 (event msg')))
        = UnexpectedMessage (getMsgTypeName (type msg))
            (getEventTypeName (default 0 (event msg))) ->
        type msg' = type msg
        /\ default 0 (event msg') = default 0 (event msg)).
Proof.
  split; [reflexivity|]. split; [|split].
  - intros [Ht He]. cbn [WaitForEvent].
    apply Z.eqb_eq in Ht. apply isEvent_spec in He. rewrite Ht, He.
    reflexivity.
  - intros Hne. cbn [WaitForEvent].
    destruct (Z.eqb_spec (type msg) msgType) as [Ht|Ht]; [|reflexivity].
    destruct (isEvent eventType (event msg)) eqn:He; [|reflexivity].
    apply isEvent_spec in He. exfalso. apply Hne. split; assumption.
  - intros msg' [= Ht He]. split.
    + apply getMsgTypeName_inj. exact Ht.
    + apply getEventTypeName_inj. exact He.
Qed.

Lemma WaitForEvent_once_witness :
  (type finishedMessage = MsgType.FullServerResponse
   /\ event finishedMessage = Some EventType.SessionFinished)
  /\ WaitForEvent MsgType.FullServerResponse EventType.SessionFinished
       [finishedMessage; statusMessage]
     = (Returned finishedMessage, [statusMessage])
  /\ ~ (type statusMessage = MsgType.FullServerResponse
        /\ event statusMessage = Some EventType.SessionFinished)
  /\ WaitForEvent MsgType.FullServerResponse EventType.SessionFinished
       [statusMessage; finishedMessage]
     = (Thrown (UnexpectedMessage "FullServerResponse" "None"),
        [finishedMessage]).
Proof.
  assert (Hyes : type finishedMessage = MsgType.FullServerResponse
                 /\ event finishedMessage = Some EventType.SessionFinished)
    by (split; reflexivity).
  assert (Hno : ~ (type statusMessage = MsgType.FullServerResponse
                   /\ event statusMessage = Some EventType.SessionFinished))
    by (intros [_ He]; discriminate He).
  split; [exact Hyes|].
  split; [exact (proj1 (proj2 (WaitForEvent_once MsgType.FullServerResponse
                   EventType.SessionFinished finishedMessage [statusMessage]))
                   Hyes)|].
  split; [exact Hno|].
  exact (proj1 (proj2 (proj2 (WaitForEvent_once MsgType.FullServerResponse
           EventType.SessionFinished statusMessage [finishedMessage]))) Hno).
Defined.

Lemma isLast_spec (msg : Message) :
  isLast msg = true
  <-> type msg = MsgType.FullServerResponse
      /\ event msg = Some EventType.SessionFinished.
Proof.
  unfold isLast. rewrite andb_true_iff, Z.eqb_eq, isEvent_spec. tauto.
Qed.

Lemma receiveLoop_keepsGoing (audioChunks : list (list byte)) (msg : Message)
    (rest : list Message) :
  keepsGoing msg ->
  receiveLoop audioChunks (msg :: rest)
  = receiveLoop
      (if type msg =? MsgType.AudioOnlyServer
       then audioChunks ++ [payload msg] else audioChunks) rest.
Proof.
  intros Hk. cbn [receiveLoop]. unfold collect.
  assert (Hlast : isLast msg = false).
  { apply not_true_iff_false. rewrite isLast_spec.
    destruct Hk as [[_ He]|Ht]; [tauto|].
    intros [Ht' _]. rewrite Ht in Ht'. discriminate Ht'. }
  rewrite Hlast.
  destruct Hk as [[Ht _]|Ht]; rewrite Ht; reflexivity.
Qed.

Lemma receiveLoop_unknown (audioChunks : list (list byte)) (msg : Message)
    (rest : list Message) :
  type msg <> MsgType.FullServerResponse ->
  type msg <> MsgType.AudioOnlyServer ->
  receiveLoop audioChunks (msg :: rest) = (Thrown (UnknownMessage msg), rest).
Proof.
  intros H1 H2. cbn [receiveLoop]. unfold collect.
  destruct (Z.eqb_spec (type msg) MsgType.FullServerResponse); [contradiction|].
  destruct (Z.eqb_spec (type msg) MsgType.AudioOnlyServer); [contradiction|].
  reflexivity.
Qed.

Lemma receiveLoop_unknown_after (before : list Message) :
  Forall keepsGoing before ->
  forall (audioChunks : list (list byte)) (msg : Message) (rest : list Message),
    type msg <> MsgType.FullServerResponse ->
    type msg <> MsgType.AudioOnlyServer ->
    receiveLoop audioChunks (before ++ msg :: rest)
    = (Thrown (UnknownMessage msg), rest).
Proof.
  induction 1 as [|m before Hm _ IH]; intros audioChunks msg rest H1 H2.
  - apply receiveLoop_unknown; assumption.
  - cbn [app]. rewrite receiveLoop_keepsGoing by exact Hm.
    apply IH; assumption.
Qed.

Lemma audioOf_cons (msg : Message) (msgs : list Message) :
  audioOf (msg :: msgs)
  = (if type msg =? MsgType.AudioOnlyServer then [payload msg] else [])
    ++ audioOf msgs.
Proof.
  unfold audioOf. cbn [List.filter].
  destruct (type msg =? MsgType.AudioOnlyServer); reflexivity.
Qed.

Lemma receiveLoop_collects (before : list Message) :
  Forall keepsGoing before ->
  forall (audioChunks : list (list byte)) (finished : Message)
         (rest : list Message),
    isLast finished = true ->
    receiveLoop audioChunks (before ++ finished :: rest)
    = (Returned (audioChunks ++ audioOf before), rest).
Proof.
  induction 1 as [|msg before Hmsg _ IH]; intros audioChunks finished rest Hlast.
  - cbn [app receiveLoop]. unfold collect.
    apply isLast_spec in Hlast as Hl. destruct Hl as [Ht _].
    rewrite Ht, Hlast. cbn. rewrite app_nil_r. reflexivity.
  - cbn [app]. rewrite receiveLoop_keepsGoing by exact Hmsg.
    rewrite IH by exact Hlast. rewrite audioOf_cons.
    destruct (type msg =? MsgType.AudioOnlyServer);
      rewrite <- ?app_assoc; reflexivity.
Qed.

(** No payload is collected exactly when no audio message has come. *)
Lemma audioOf_nil (msgs : list Message) :
  audioOf msgs = []
  <-> Forall (fun msg => type msg <> MsgType.AudioOnlyServer) msgs.
Proof.
  induction msgs as [|msg msgs IH].
  - split; [constructor|reflexivity].
  - rewrite audioOf_cons, Forall_cons.
    destruct (Z.eqb_spec (type msg) MsgType.AudioOnlyServer) as [Ht|Ht].
    + split; [discriminate|]. intros [Hn _]. contradiction.
    + cbn [app]. rewrite IH. tauto.
Qed.

(** *** C8: the streaming loop *)

(** C8.  On the arrivals status response, audio A, audio B, response with
    event [SessionFinished], the loop returns after exactly these four
    messages, leaving what follows unread, and its audio is A followed by B.
    A message of any kind other than [FullServerResponse] and
    [AudioOnlyServer] makes the loop throw at once, wherever it comes.  And
    when the loop ends, the function throws [EmptyResult] exactly when no
    audio message has come before the response that ends it: the test is on
    the number of chunks, not on their bytes. *)
Theorem streaming_loop :
  (forall (status audioA audioB finished : Message) (rest : list Message),
      type status = MsgType.FullServerResponse ->
      event status <> Some EventType.SessionFinished ->
      type audioA = MsgType.AudioOnlyServer ->
      type audioB = MsgType.AudioOnlyServer ->
      type finished = MsgType.FullServerResponse ->
      event finished = Some EventType.SessionFinished ->
      receiveAudio (status :: audioA :: audioB :: finished :: rest)
      = (Returned (payload audioA ++ payload audioB), rest))
  /\ (forall (before : list Message) (msg : Message) (rest : list Message),
      Forall keepsGoing before ->
      type msg <> MsgType.FullServerResponse ->
      type msg <> MsgType.AudioOnlyServer ->
      receiveAudio (before ++ msg :: rest) = (Thrown (UnknownMessage msg), rest))
  /\ (forall (before : list Message) (finished : Message) (rest : list Message),
      Forall keepsGoing before ->
      type finished = MsgType.FullServerResponse ->
      event finished = Some EventType.SessionFinished ->
      (receiveAudio (before ++ finished :: rest) = (Thrown EmptyResult, rest)
       <-> Forall (fun msg => type msg <> MsgType.AudioOnlyServer) before)).
Proof.
  split; [|split].
  - intros status audioA audioB finished rest Hs Hse Ha Hb Hf Hfe.
    unfold receiveAudio.
    rewrite receiveLoop_keepsGoing by (left; split; assumption).
    rewrite Hs. cbn [Z.eqb MsgType.FullServerResponse MsgType.AudioOnlyServer Pos.eqb].
    rewrite receiveLoop_keepsGoing by (right; assumption).
    rewrite receiveLoop_keepsGoing by (right; assumption).
    rewrite Ha, Hb. cbn [Z.eqb MsgType.AudioOnlyServer Pos.eqb app].
    cbn [receiveLoop]. unfold collect. rewrite Hf.
    assert (Hlast : isLast finished = true)
      by (apply isLast_spec; split; assumption).
    cbn [Z.eqb MsgType.FullServerResponse Pos.eqb]. rewrite Hlast.
    cbn [length Nat.eqb concat]. rewrite app_nil_r. reflexivity.
  - intros before msg rest Hb H1 H2. unfold receiveAudio.
    rewrite receiveLoop_unknown_after by assumption. reflexivity.
  - intros before finished rest Hb Ht He. unfold receiveAudio.
    rewrite (receiveLoop_collects before Hb [] finished rest)
      by (apply isLast_spec; split; assumption).
    cbn [app]. rewrite <- audioOf_nil.
    destruct (audioOf before) as [|chunk chunks]; cbn [length Nat.eqb].
    + split; reflexivity.
    + split; discriminate.
Qed.

Lemma streaming_loop_witness :
  let audioA := audioMessage 1 [Byte.xaa; Byte.xab] in
  let audioB := audioMessage 2 [Byte.xba] in
  let stray := createMessage MsgType.FrontEndResultServer MsgTypeFlagBits.NoSeq in
  receiveAudio [statusMessage; audioA; audioB; finishedMessage; statusMessage]
  = (Returned [Byte.xaa; Byte.xab; Byte.xba], [statusMessage])
  /\ receiveAudio ([statusMessage; audioA] ++ stray :: [audioB])
     = (Thrown (UnknownMessage stray), [audioB])
  /\ receiveAudio [statusMessage; finishedMessage; audioA]
     = (Thrown EmptyResult, [audioA]).
Proof.
  cbv zeta. split; [|split].
  - apply (proj1 streaming_loop statusMessage
             (audioMessage 1 [Byte.xaa; Byte.xab]) (audioMessage 2 [Byte.xba])
             finishedMessage [statusMessage]);
      (reflexivity || discriminate).
  - apply (proj1 (proj2 streaming_loop)).
    + constructor; [left; split; [reflexivity|discriminate]|].
      constructor; [right; reflexivity|]. constructor.
    + discriminate.
    + discriminate.
  - apply (proj2 (proj2 streaming_loop) [statusMessage] finishedMessage
             [audioMessage 1 [Byte.xaa; Byte.xab]]).
    + constructor; [left; split; [reflexivity|discriminate]|constructor].
    + reflexivity.
    + reflexivity.
    + constructor; [discriminate|constructor].
Defined.

(** The audio is "empty" by the number of chunks, as in the source: the
    loop ends normally on an audio message with an empty payload and the
    response that ends it, the audio collected has no byte, and the function
    returns it, without an error. *)
Example receiveAudio_empty_chunks :
  receiveLoop [] [audioMessage 1 []; finishedMessage] = (Returned [[]], [])
  /\ concat [@nil byte] = []
  /\ receiveAudio [audioMessage 1 []; finishedMessage] = (Returned [], []).
Proof. repeat split. Qed.

(** ** Truncated frames *)
Lemma getUint32_take (data : list byte) (k offset : nat) :
  (offset + 4 <= k)%nat ->
  getUint32 (take k data) offset = getUint32 data offset.
Proof.
  intros Hk. unfold getUint32.
  rewrite skipn_firstn_comm, take_take.
  replace (4 `min` (k - offset))%nat with 4%nat by lia. reflexivity.
Qed.

Lemma slice_take (data : list byte) (k from to : nat) :
  (to <= k)%nat ->
  slice (take k data) from to = slice data from to.
Proof.
  intros Hk. unfold slice.
  rewrite skipn_firstn_comm, take_take.
  replace ((to - from) `min` (k - from))%nat with (to - from)%nat by lia.
  reflexivity.
Qed.

Lemma getInt32_take (data : list byte) (k offset : nat) :
  (offset + 4 <= k)%nat ->
  getInt32 (take k data) offset = getInt32 data offset.
Proof. intros Hk. unfold getInt32. rewrite getUint32_take by exact Hk. reflexivity. Qed.

(** A bounds check that passed on the truncated buffer passes on the whole
    buffer. *)
Ltac take_check :=
  match goal with
  | |- context [(length (take ?k ?d) <? ?n)%nat] =>
      destruct (Nat.ltb_spec (length (take k d)) n); [discriminate|];
      destruct (Nat.ltb_spec (length d) n); [lia|]
  end.

Ltac take_sized :=
  take_check; rewrite getUint32_take by lia;
  match goal with
  | |- context [0 <? ?size] =>
      destruct (Z.ltb_spec 0 size); [|exact (fun H => H)]
  end;
  match goal with
  | |- context [Z.of_nat (length (take ?k ?d)) <? ?n] =>
      destruct (Z.ltb_spec (Z.of_nat (length (take k d))) n); [discriminate|];
      destruct (Z.ltb_spec (Z.of_nat (length d)) n); [lia|]
  end;
  rewrite slice_take by lia; exact (fun H => H).

(** What a reader gets out of a truncated buffer, it gets out of the whole
    buffer too. *)
Lemma runReader_take (r : Reader) (msg msg' : Message) (data : list byte)
    (k offset offset' : nat) :
  runReader r msg (take k data) offset = Ok (msg', offset') ->
  runReader r msg data offset = Ok (msg', offset').
Proof.
  assert (Hlen : (length (take k data) <= k)%nat) by (rewrite length_take; lia).
  assert (Hlen' : (length (take k data) <= length data)%nat)
    by (rewrite length_take; lia).
  destruct r; cbn [runReader];
    unfold readSequence, readErrorCode, readEvent, readSessionId,
      readConnectId, readPayload.
  - take_check. rewrite getInt32_take by lia. exact (fun H => H).
  - take_check. rewrite getUint32_take by lia. exact (fun H => H).
  - take_check. rewrite getInt32_take by lia. exact (fun H => H).
  - destruct (event msg) as [e|]; [|exact (fun H => H)].
    destruct (readSessionId_skips e); [exact (fun H => H)|]. take_sized.
  - destruct (event msg) as [e|]; [|exact (fun H => H)].
    destruct (negb (readConnectId_reads e)); [exact (fun H => H)|]. take_sized.
  - take_sized.
Qed.

(** A reader fails for one reason only: the buffer ends too early. *)
Lemma runReader_Err (r : Reader) (msg : Message) (data : list byte)
    (offset : nat) (e : Error) :
  runReader r msg data offset = Err e -> exists what, e = TruncatedField what.
Proof.
  destruct r; cbn [runReader];
    unfold readSequence, readErrorCode, readEvent, readSessionId,
      readConnectId, readPayload;
    repeat match goal with
      | |- context [match ?x with _ => _ end] => destruct x
      end;
    intros [= <-] || discriminate; eexists; reflexivity.
Qed.

(** The payload reader never leaves the cursor past the end. *)
Lemma readPayload_bound (msg msg' : Message) (data : list byte)
    (offset offset' : nat) :
  readPayload msg data offset = Ok (msg', offset') ->
  (offset' <= length data)%nat.
Proof.
  unfold readPayload.
  destruct (Nat.ltb_spec (length data) (offset + 4)); [discriminate|].
  destruct (Z.ltb_spec 0 (getUint32 data offset)).
  - destruct (Z.ltb_spec (Z.of_nat (length data))
                (Z.of_nat (offset + 4) + getUint32 data offset));
      [discriminate|].
    intros [= _ <-]. lia.
  - intros [= _ <-]. lia.
Qed.

Lemma runReaders_take (rs : list Reader) (data : list byte) (k : nat) :
  forall (msg msg' : Message) (offset offset' : nat),
    runReaders rs msg (take k data) offset = Ok (msg', offset') ->
    runReaders rs msg data offset = Ok (msg', offset').
Proof.
  induction rs as [|r rs IH]; intros msg msg' offset offset'; cbn [runReaders].
  - exact (fun H => H).
  - destruct (runReader r msg (take k data) offset) as [[m1 o1]|e] eqn:Hr;
      [|discriminate].
    rewrite (runReader_take _ _ _ _ _ _ _ Hr). cbn [mbind result_bind].
    apply IH.
Qed.

Lemma runReaders_Err (rs : list Reader) (data : list byte) (e : Error) :
  forall (msg : Message) (offset : nat),
    runReaders rs msg data offset = Err e -> exists what, e = TruncatedField what.
Proof.
  induction rs as [|r rs IH]; intros msg offset; cbn [runReaders].
  - discriminate.
  - destruct (runReader r msg data offset) as [[m1 o1]|e1] eqn:Hr;
      cbn [mbind result_bind].
    + apply IH.
    + intros [= <-]. exact (runReader_Err _ _ _ _ _ Hr).
Qed.

Lemma runReaders_bound (rs : list Reader) (data : list byte) :
  forall (msg msg' : Message) (offset offset' : nat),
    runReaders (rs ++ [RPayload]) msg data offset = Ok (msg', offset') ->
    (offset' <= length data)%nat.
Proof.
  induction rs as [|r rs IH]; intros msg msg' offset offset';
    cbn [app runReaders].
  - cbn [runReader].
    destruct (readPayload msg data offset) as [[m1 o1]|e] eqn:Hr;
      cbn [mbind result_bind]; [|discriminate].
    intros [= _ <-]. exact (readPayload_bound _ _ _ _ _ Hr).
  - destruct (runReader r msg data offset) as [[m1 o1]|e] eqn:Hr;
      cbn [mbind result_bind]; [|discriminate].
    apply IH.
Qed.

Lemma getReaders_ends_with_payload (msg : Message) (rs : list Reader) :
  getReaders msg = Ok rs -> exists rs', rs = rs' ++ [RPayload].
Proof.
  unfold getReaders.
  destruct (isContentType (type msg)); [|destruct (type msg =? MsgType.Error)];
    intros [= <-].
  - rewrite app_assoc. eexists. reflexivity.
  - cbn [app]. rewrite app_comm_cons. eexists. reflexivity.
Qed.

Lemma parseHeader_take (data : list byte) (k : nat) :
  (3 <= k)%nat -> parseHeader (take k data) = parseHeader data.
Proof.
  intros Hk. unfold parseHeader, byteAt.
  rewrite !lookup_take_lt by lia. reflexivity.
Qed.

(** *** C5: truncation *)

(** C5.  Cut a frame that the decoder reads to its last byte anywhere before
    its end: [unmarshalMessage] fails on what is left, with [FrameTooShort]
    when fewer than 3 bytes are left and with [TruncatedField] otherwise.  It
    returns no message and fails with no other error. *)
Theorem truncation_safety (data : list byte) (k : nat) :
  completeFrame data ->
  (k < length data)%nat ->
  exists e,
    unmarshalMessage (take k data) = Err e
    /\ isTruncation e = true
    /\ (e = FrameTooShort k <-> (k < 3)%nat).
Proof.
  intros [msg Hfull] Hk. unfold unmarshalMessage.
  assert (Hlen : length (take k data) = k) by (rewrite length_take; lia).
  unfold unmarshalWithOffset in *. rewrite Hlen.
  destruct (Nat.ltb_spec k 3) as [Hshort|Hlong].
  - exists (FrameTooShort k). cbn. split; [reflexivity|]. split; [reflexivity|].
    split; auto.
  - destruct (Nat.ltb_spec (length data) 3) as [|_]; [lia|].
    rewrite parseHeader_take by exact Hlong.
    destruct (getReaders (parseHeader data)) as [rs|e] eqn:Hrs;
      cbn [mbind result_bind] in *; [|discriminate].
    destruct (getReaders_ends_with_payload _ _ Hrs) as [rs' ->].
    destruct (runReaders (rs' ++ [RPayload]) (parseHeader data) (take k data)
                (Z.to_nat (4 * headerSize (parseHeader data))))
      as [[m1 o1]|e] eqn:Hrun.
    + exfalso. pose proof (runReaders_bound _ _ _ _ _ _ Hrun) as Hb.
      apply runReaders_take in Hrun. rewrite Hrun in Hfull.
      injection Hfull as _ ->. lia.
    + exists e. cbn. split; [reflexivity|].
      destruct (runReaders_Err _ _ _ _ _ Hrun) as [what ->].
      split; [reflexivity|]. split; [discriminate|lia].
Qed.

Lemma truncation_safety_witness :
  completeFrame startSessionFrame
  /\ (10 < length startSessionFrame)%nat
  /\ exists e,
       unmarshalMessage (take 10 startSessionFrame) = Err e
       /\ isTruncation e = true
       /\ (e = FrameTooShort 10 <-> (10 < 3)%nat).
Proof.
  assert (Hc : completeFrame startSessionFrame).
  { apply (marshal_completeFrame (StartSession_message emptyJson "abc"));
      vm_compute; reflexivity. }
  assert (Hk : (10 < length startSessionFrame)%nat) by (vm_compute; lia).
  split; [exact Hc|]. split; [exact Hk|].
  exact (truncation_safety startSessionFrame 10 Hc Hk).
Defined.

(** ** The read order *)

Lemma readSessionId_prefixed (msg : Message) (data : list byte) (offset : nat) (e : Z) :
  event msg = Some e ->
  readSessionId msg data offset
  = (if memZ e sessionIdExcluded then Ok (msg, offset)
     else
       '(body, offset) ← readLengthPrefixed "session ID" data offset;
       Ok (match body with
           | Some bytes => set_sessionId (Some (utf8Decode bytes)) msg
           | None => msg
           end, offset)).
Proof.
  intros He. unfold readSessionId, readLengthPrefixed. rewrite He.
  replace (memZ e sessionIdExcluded) with (readSessionId_skips e).
  2:{ unfold memZ, sessionIdExcluded, readSessionId_skips. cbn [existsb].
      rewrite orb_false_r, !orb_assoc. reflexivity. }
  destruct (readSessionId_skips e); [reflexivity|].
  cbn [append].
  destruct (length data <? offset + 4)%nat; [reflexivity|].
  destruct (0 <? getUint32 data offset); [|reflexivity].
  destruct (Z.of_nat (length data)
            <? Z.of_nat (offset + 4) + getUint32 data offset);
    reflexivity.
Qed.

Lemma readConnectId_prefixed (msg : Message) (data : list byte) (offset : nat) (e : Z) :
  event msg = Some e ->
  readConnectId msg data offset
  = (if memZ e connectIdIncluded then
       '(body, offset) ← readLengthPrefixed "connect ID" data offset;
       Ok (match body with
           | Some bytes => set_connectId (Some (utf8Decode bytes)) msg
           | None => msg
           end, offset)
     else Ok (msg, offset)).
Proof.
  intros He. unfold readConnectId, readLengthPrefixed. rewrite He.
  replace (memZ e connectIdIncluded) with (readConnectId_reads e).
  2:{ unfold memZ, connectIdIncluded, readConnectId_reads. cbn [existsb].
      rewrite orb_false_r, !orb_assoc. reflexivity. }
  destruct (readConnectId_reads e); [|reflexivity].
  cbn [negb append].
  destruct (length data <? offset + 4)%nat; [reflexivity|].
  destruct (0 <? getUint32 data offset); [|reflexivity].
  destruct (Z.of_nat (length data)
            <? Z.of_nat (offset + 4) + getUint32 data offset);
    reflexivity.
Qed.

Lemma readPayload_prefixed (msg : Message) (data : list byte) (offset : nat) :
  readPayload msg data offset
  = ('(body, offset) ← readLengthPrefixed "payload" data offset;
     Ok (match body with
         | Some bytes => set_payload bytes msg
         | None => msg
         end, offset)).
Proof.
  unfold readPayload, readLengthPrefixed. cbn [append].
  destruct (length data <? offset + 4)%nat; [reflexivity|].
  destruct (0 <? getUint32 data offset); [|reflexivity].
  destruct (Z.of_nat (length data)
            <? Z.of_nat (offset + 4) + getUint32 data offset);
    reflexivity.
Qed.

Lemma runReaders_single (r : Reader) (msg : Message) (data : list byte)
    (offset : nat) :
  runReaders [r] msg data offset = runReader r msg data offset.
Proof.
  cbn [runReaders]. destruct (runReader r msg data offset) as [[m o]|];
    reflexivity.
Qed.

Lemma result_bind_Ok {A B : Type} (r : result (A * B)) :
  ('(a, b) ← r; Ok (a, b)) = r.
Proof. destruct r as [[a b]|]; reflexivity. Qed.

Lemma runReaders_cons (r : Reader) (rs : list Reader) (msg : Message)
    (data : list byte) (offset : nat) :
  runReaders (r :: rs) msg data offset
  = ('(msg', offset') ← runReader r msg data offset;
     runReaders rs msg' data offset').
Proof. reflexivity. Qed.

Ltac payload_end :=
  cbn [mbind result_bind]; rewrite result_bind_Ok; apply readPayload_prefixed.

Lemma eventTail_inOrder (msg : Message) (data : list byte) (offset : nat) :
  runReaders [REvent; RSessionId; RConnectId; RPayload] msg data offset
  = ('(msg, offset) ←
       (if (length data <? offset + 4)%nat then Err (TruncatedField "event")
        else
          let e := getInt32 data offset in
          let msg := set_event (Some e) msg in
          let offset := (offset + 4)%nat in
          '(msg, offset) ←
            (if memZ e sessionIdExcluded then Ok (msg, offset)
             else
               '(body, offset) ← readLengthPrefixed "session ID" data offset;
               Ok (match body with
                   | Some bytes =>
                       set_sessionId (Some (utf8Decode bytes)) msg
                   | None => msg
                   end, offset));
          (if memZ e connectIdIncluded then
             '(body, offset) ← readLengthPrefixed "connect ID" data offset;
             Ok (match body with
                 | Some bytes =>
                     set_connectId (Some (utf8Decode bytes)) msg
                 | None => msg
                 end, offset)
           else Ok (msg, offset)));
     '(body, offset) ← readLengthPrefixed "payload" data offset;
     Ok (match body with
         | Some bytes => set_payload bytes msg
         | None => msg
         end, offset)).
Proof.
  cbn [runReaders runReader]. unfold readEvent.
  destruct (length data <? offset + 4)%nat; [reflexivity|].
  cbn [mbind result_bind]. cbv zeta.
  set (e := getInt32 data offset). set (msg1 := set_event (Some e) msg).
  rewrite (readSessionId_prefixed msg1 data _ e) by reflexivity.
  destruct (memZ e sessionIdExcluded).
  - cbn [mbind result_bind].
    rewrite (readConnectId_prefixed msg1 data _ e) by reflexivity.
    destruct (memZ e connectIdIncluded); [|payload_end].
    destruct (readLengthPrefixed "connect ID" data (offset + 4)) as [[b o]|];
      [|reflexivity].
    payload_end.
  - destruct (readLengthPrefixed "session ID" data (offset + 4)) as [[b o]|];
      [|reflexivity].
    cbn [mbind result_bind].
    erewrite (readConnectId_prefixed _ data _ e)
      by (destruct b; reflexivity).
    destruct (memZ e connectIdIncluded); [|payload_end].
    destruct (readLengthPrefixed "connect ID" data o) as [[b' o']|];
      [|reflexivity].
    payload_end.
Qed.

(** *** C4: the read order *)

(** C4.  On every buffer of at least 3 bytes [unmarshalMessage] does what
    [decodeInOrder] does: first the sequence (content kinds with flag
    [PositiveSeq] or [NegativeSeq]) or the error code (kind [Error]), and
    [UnsupportedMessageType] for any other kind; second, with flag
    [WithEvent], the event, then the session id unless the event is one of
    the five connection events, then the connect id if the event is one of
    [ConnectionStarted], [ConnectionFailed], [ConnectionFinished]; finally
    the length-prefixed payload.  Results and errors are the same. *)
Theorem unmarshal_reads_inOrder (data : list byte) :
  (3 <= length data)%nat ->
  unmarshalWithOffset data = decodeInOrder data
  /\ unmarshalMessage data = fst <$> decodeInOrder data.
Proof.
  intros Hlen.
  assert (H : unmarshalWithOffset data = decodeInOrder data).
  { unfold unmarshalWithOffset, decodeInOrder, getReaders.
    destruct (Nat.ltb_spec (length data) 3) as [|_]; [lia|].
    set (msg := parseHeader data).
    set (offset := Z.to_nat (4 * headerSize msg)).
    destruct (isContentType (type msg)).
    - destruct (isSeqFlag (flag msg)).
      + cbn [mbind result_bind app]. rewrite runReaders_cons.
        cbn [runReader]. unfold readSequence.
        destruct (length data <? offset + 4)%nat; [reflexivity|].
        cbn [mbind result_bind set_sequence flag].
        destruct (flag msg =? MsgTypeFlagBits.WithEvent).
        * cbn [app]. rewrite eventTail_inOrder.
          reflexivity.
        * cbn [app]. rewrite runReaders_single. cbn [runReader].
          apply readPayload_prefixed.
      + cbn [mbind result_bind app].
        destruct (flag msg =? MsgTypeFlagBits.WithEvent).
        * cbn [app]. rewrite eventTail_inOrder.
          reflexivity.
        * cbn [app]. rewrite runReaders_single. cbn [runReader].
          apply readPayload_prefixed.
    - destruct (type msg =? MsgType.Error); [|reflexivity].
      cbn [mbind result_bind app]. rewrite runReaders_cons.
      cbn [runReader]. unfold readErrorCode.
      destruct (length data <? offset + 4)%nat; [reflexivity|].
      cbn [mbind result_bind set_errorCode flag].
      destruct (flag msg =? MsgTypeFlagBits.WithEvent).
      * cbn [app]. rewrite eventTail_inOrder.
        reflexivity.
      * cbn [app]. rewrite runReaders_single. cbn [runReader].
        apply readPayload_prefixed. }
  split; [exact H|]. unfold unmarshalMessage. rewrite H. reflexivity.
Qed.

Lemma unmarshal_reads_inOrder_witness :
  (3 <= length startSessionFrame)%nat
  /\ unmarshalWithOffset startSessionFrame = decodeInOrder startSessionFrame
  /\ unmarshalMessage startSessionFrame
     = fst <$> decodeInOrder startSessionFrame.
Proof.
  assert (Hlen : (3 <= length startSessionFrame)%nat) by (vm_compute; lia).
  split; [exact Hlen|].
  exact (unmarshal_reads_inOrder startSessionFrame Hlen).
Defined.

(** ** Zero-length fields *)

Lemma omap_pointwise {A B : Type} (f g : A -> option B) (l : list A) :
  (forall x, f x = g x) -> omap f l = omap g l.
Proof.
  intros Hfg. induction l as [|x l IH]; [reflexivity|].
  cbn [omap list_omap]. rewrite Hfg, IH. reflexivity.
Qed.

(** An empty session id is written exactly as an unset one. *)
Lemma marshal_empty_sessionId (m : Message) :
  sessionId m = Some EmptyString ->
  marshalMessage m = marshalMessage (set_sessionId None m).
Proof.
  intros Hs. unfold marshalMessage, getWriters.
  cbn [headerSize set_sessionId type flag].
  destruct (4 * headerSize m <? 0); [reflexivity|].
  assert (Hw : forall w, runWriter w m = runWriter w (set_sessionId None m)).
  { intros []; cbn [runWriter]; try reflexivity.
    unfold writeSessionId. cbn [event set_sessionId sessionId]. rewrite Hs.
    reflexivity. }
  assert (Hh : headerBytes m = headerBytes (set_sessionId None m)) by reflexivity.
  rewrite <- Hh.
  destruct (isContentType (type m)); [|destruct (type m =? MsgType.Error)];
    cbn [mbind result_bind]; try reflexivity;
    do 3 f_equal; apply omap_pointwise, Hw.
Qed.

(** A reader sets no field but its own. *)
Lemma runReader_other_fields (r : Reader) (msg msg' : Message)
    (data : list byte) (offset offset' : nat) :
  runReader r msg data offset = Ok (msg', offset') ->
  (r <> RSessionId -> sessionId msg' = sessionId msg)
  /\ (r <> RConnectId -> connectId msg' = connectId msg)
  /\ (r <> RPayload -> payload msg' = payload msg).
Proof.
  destruct r; cbn [runReader];
    unfold readSequence, readErrorCode, readEvent, readSessionId,
      readConnectId, readPayload;
    repeat match goal with
      | |- context [match ?x with _ => _ end] => destruct x
      end;
    intros [= <- _] || discriminate;
    repeat split; intros Hne; reflexivity || contradiction.
Qed.

(** *** C10: zero-length fields *)

(** C10.  Where the 4-byte length of the session id, of the connect id or of
    the payload is zero, the reader takes the 4 length bytes and leaves the
    message as it is: the three fields start unset, unset and empty, and no
    other reader sets them.  An empty session id is written exactly as an
    unset one, and it is read back unset, not as the empty string. *)
Theorem zero_length_fields :
  (forall (msg : Message) (data : list byte) (offset : nat) (e : Z),
      event msg = Some e -> readSessionId_skips e = false ->
      (offset + 4 <= length data)%nat -> getUint32 data offset = 0 ->
      readSessionId msg data offset = Ok (msg, (offset + 4)%nat))
  /\ (forall (msg : Message) (data : list byte) (offset : nat) (e : Z),
      event msg = Some e -> readConnectId_reads e = true ->
      (offset + 4 <= length data)%nat -> getUint32 data offset = 0 ->
      readConnectId msg data offset = Ok (msg, (offset + 4)%nat))
  /\ (forall (msg : Message) (data : list byte) (offset : nat),
      (offset + 4 <= length data)%nat -> getUint32 data offset = 0 ->
      readPayload msg data offset = Ok (msg, (offset + 4)%nat))
  /\ (forall (data : list byte),
      sessionId (parseHeader data) = None
      /\ connectId (parseHeader data) = None
      /\ payload (parseHeader data) = [])
  /\ (forall (r : Reader) (msg msg' : Message) (data : list byte)
        (offset offset' : nat),
      runReader r msg data offset = Ok (msg', offset') ->
      (r <> RSessionId -> sessionId msg' = sessionId msg)
      /\ (r <> RConnectId -> connectId msg' = connectId msg)
      /\ (r <> RPayload -> payload msg' = payload msg))
  /\ (forall m : Message,
      wellFormed m = true -> presenceRules m = true ->
      layoutReadable m = true ->
      sessionId m = Some EmptyString ->
      exists data,
        marshalMessage m = Ok data
        /\ marshalMessage (set_sessionId None m) = Ok data
        /\ unmarshalMessage data
           = Ok (set_sessionId None (set_connectId None m))).
Proof.
  split; [|split; [|split; [|split; [|split]]]].
  - intros msg data offset e He Hskip Hlen Hzero. unfold readSessionId.
    rewrite He, Hskip, Hzero.
    destruct (Nat.ltb_spec (length data) (offset + 4)); [lia|]. reflexivity.
  - intros msg data offset e He Hreads Hlen Hzero. unfold readConnectId.
    rewrite He, Hreads, Hzero.
    destruct (Nat.ltb_spec (length data) (offset + 4)); [lia|]. reflexivity.
  - intros msg data offset Hlen Hzero. unfold readPayload. rewrite Hzero.
    destruct (Nat.ltb_spec (length data) (offset + 4)); [lia|]. reflexivity.
  - intros data. repeat split.
  - exact runReader_other_fields.
  - intros m Hwf Hpr%presenceRules_NoSession Hlay Hs.
    destruct (roundtrip_core m Hwf Hpr Hlay) as (data & Hm & Hu).
    { rewrite Hs. reflexivity. }
    exists data. split; [exact Hm|]. split.
    + rewrite <- marshal_empty_sessionId; assumption.
    + unfold unmarshalMessage. rewrite Hu, Hs. reflexivity.
Qed.

Lemma zero_length_fields_witness :
  let m := StartSession_message [] "" in
  let data := [Byte.x11; Byte.x14; Byte.x10; Byte.x00;
               Byte.x00; Byte.x00; Byte.x00; Byte.x64;
               Byte.x00; Byte.x00; Byte.x00; Byte.x00;
               Byte.x00; Byte.x00; Byte.x00; Byte.x00] in
  let msg := set_sessionId None m in
  (wellFormed m = true /\ presenceRules m = true /\ layoutReadable m = true
   /\ sessionId m = Some EmptyString)
  /\ (exists data',
        marshalMessage m = Ok data'
        /\ marshalMessage (set_sessionId None m) = Ok data'
        /\ unmarshalMessage data'
           = Ok (set_sessionId None (set_connectId None m)))
  /\ readSessionId (set_event (Some 100) msg) data 8
     = Ok (set_event (Some 100) msg, 12%nat)
  /\ readConnectId (set_event (Some 50) msg) data 8
     = Ok (set_event (Some 50) msg, 12%nat)
  /\ readPayload msg data 12 = Ok (msg, 16%nat).
Proof.
  cbv zeta.
  set (m := StartSession_message [] "").
  set (data := [Byte.x11; Byte.x14; Byte.x10; Byte.x00;
                Byte.x00; Byte.x00; Byte.x00; Byte.x64;
                Byte.x00; Byte.x00; Byte.x00; Byte.x00;
                Byte.x00; Byte.x00; Byte.x00; Byte.x00]).
  assert (Hwf : wellFormed m = true) by (vm_compute; reflexivity).
  assert (Hpr : presenceRules m = true) by (vm_compute; reflexivity).
  assert (Hlay : layoutReadable m = true) by (vm_compute; reflexivity).
  assert (Hs : sessionId m = Some EmptyString) by reflexivity.
  split; [repeat split; assumption|].
  split.
  { exact (proj2 (proj2 (proj2 (proj2 (proj2 zero_length_fields))))
             m Hwf Hpr Hlay Hs). }
  split.
  { apply (proj1 zero_length_fields _ data 8%nat 100);
      [reflexivity|reflexivity|vm_compute; lia|vm_compute; reflexivity]. }
  split.
  { apply (proj1 (proj2 zero_length_fields) _ data 8%nat 50);
      [reflexivity|reflexivity|vm_compute; lia|vm_compute; reflexivity]. }
  apply (proj1 (proj2 (proj2 zero_length_fields)) _ data 12%nat);
    [vm_compute; lia|vm_compute; reflexivity].
Defined.

(** ** Which fields are in a frame *)









(** *** C3: what decides the presence of a field *)





(** ** Further properties of the codec *)

(** *** What the decoder reads *)

(** A reader never moves the cursor backwards, and it has checked the buffer
    up to where it leaves the cursor. *)
Lemma runReader_mono (r : Reader) (msg msg' : Message) (data : list byte)
    (offset offset' : nat) :
  runReader r msg data offset = Ok (msg', offset') ->
  (offset <= offset')%nat
  /\ (offset' = offset \/ (offset + 4 <= offset' <= length data)%nat).
Proof.
  destruct r; cbn [runReader];
    unfold readSequence, readErrorCode, readEvent, readSessionId,
      readConnectId, readPayload;
    repeat match goal with
      | |- context [event msg] => destruct (event msg)
      | |- context [if readSessionId_skips ?e then _ else _] =>
          destruct (readSessionId_skips e)
      | |- context [if negb ?b then _ else _] => destruct (negb b)
      | |- context [(?a <? ?b)%nat] => destruct (Nat.ltb_spec a b)
      | |- context [?a <? ?b] => destruct (Z.ltb_spec a b)
      end;
    intros [= _ <-] || discriminate; lia.
Qed.

Lemma runReader_take_ge (r : Reader) (msg msg' : Message) (data : list byte)
    (k offset offset' : nat) :
  runReader r msg data offset = Ok (msg', offset') ->
  (offset' <= k)%nat ->
  runReader r msg (take k data) offset = Ok (msg', offset').
Proof.
  intros Hr Hk. destruct (runReader_mono _ _ _ _ _ _ Hr) as [Hle Hchk].
  assert (Hlen : length (take k data) = (k `min` length data)%nat)
    by apply length_take.
  revert Hr Hchk.
  destruct r; cbn [runReader];
    unfold readSequence, readErrorCode, readEvent, readSessionId,
      readConnectId, readPayload;
    repeat match goal with
      | |- context [event msg] => destruct (event msg)
      | |- context [if readSessionId_skips ?e then _ else _] =>
          destruct (readSessionId_skips e)
      | |- context [if negb ?b then _ else _] => destruct (negb b)
      end;
    try exact (fun H _ => H);
    (destruct (Nat.ltb_spec (length data) (offset + 4)); [discriminate|]);
    intros Hr Hchk;
    (destruct Hchk as [->|Hchk];
     [revert Hr;
      repeat match goal with
        | |- context [?a <? ?b] => destruct (Z.ltb_spec a b)
        end; intros [= _ Ho] || discriminate; lia|]);
    (destruct (Nat.ltb_spec (length (take k data)) (offset + 4)); [lia|]);
    rewrite ?getUint32_take, ?getInt32_take by lia;
    try exact Hr;
    revert Hr;
    (destruct (Z.ltb_spec 0 (getUint32 data offset)); [|exact (fun H => H)]);
    (destruct (Z.ltb_spec (Z.of_nat (length data))
                (Z.of_nat (offset + 4) + getUint32 data offset));
     [discriminate|]);
    intros [= <- <-];
    (destruct (Z.ltb_spec (Z.of_nat (length (take k data)))
                (Z.of_nat (offset + 4) + getUint32 data offset)); [lia|]);
    rewrite slice_take by lia; reflexivity.
Qed.

Lemma runReaders_mono (rs : list Reader) (data : list byte) :
  forall (msg msg' : Message) (offset offset' : nat),
    runReaders rs msg data offset = Ok (msg', offset') ->
    (offset <= offset')%nat.
Proof.
  induction rs as [|r rs IH]; intros msg msg' offset offset'; cbn [runReaders].
  - intros [= _ <-]. lia.
  - destruct (runReader r msg data offset) as [[m1 o1]|e] eqn:Hr;
      cbn [mbind result_bind]; [|discriminate].
    intros Hrs. apply IH in Hrs. apply runReader_mono in Hr. lia.
Qed.

Lemma runReaders_take_ge (rs : list Reader) (data : list byte) (k : nat) :
  forall (msg msg' : Message) (offset offset' : nat),
    runReaders rs msg data offset = Ok (msg', offset') ->
    (offset' <= k)%nat ->
    runReaders rs msg (take k data) offset = Ok (msg', offset').
Proof.
  induction rs as [|r rs IH]; intros msg msg' offset offset'; cbn [runReaders].
  - exact (fun H _ => H).
  - destruct (runReader r msg data offset) as [[m1 o1]|e] eqn:Hr;
      cbn [mbind result_bind]; [|discriminate].
    intros Hrs Hk. pose proof (runReaders_mono _ _ _ _ _ _ Hrs) as Hm.
    rewrite (runReader_take_ge _ _ _ _ _ _ _ Hr) by lia.
    cbn [mbind result_bind]. apply IH; assumption.
Qed.

(** The payload reader takes at least the four bytes of the length. *)
Lemma runReaders_payload_moves (rs : list Reader) (data : list byte) :
  forall (msg msg' : Message) (offset offset' : nat),
    runReaders (rs ++ [RPayload]) msg data offset = Ok (msg', offset') ->
    (offset + 4 <= offset')%nat.
Proof.
  induction rs as [|r rs IH]; intros msg msg' offset offset';
    cbn [app runReaders].
  - cbn [runReader].
    destruct (readPayload msg data offset) as [[m1 o1]|e] eqn:Hr;
      cbn [mbind result_bind]; [|discriminate].
    intros [= _ <-]. revert Hr. unfold readPayload.
    repeat match goal with
      | |- context [(?a <? ?b)%nat] => destruct (Nat.ltb_spec a b)
      | |- context [?a <? ?b] => destruct (Z.ltb_spec a b)
      end; intros [= _ <-] || discriminate; lia.
  - destruct (runReader r msg data offset) as [[m1 o1]|e] eqn:Hr;
      cbn [mbind result_bind]; [|discriminate].
    intros Hrs. apply IH in Hrs. apply runReader_mono in Hr. lia.
Qed.

Lemma unmarshal_take_offset (data : list byte) (msg : Message) (offset : nat) :
  unmarshalWithOffset data = Ok (msg, offset) ->
  (4 <= offset <= length data)%nat
  /\ unmarshalWithOffset (take offset data) = Ok (msg, offset).
Proof.
  unfold unmarshalWithOffset.
  destruct (Nat.ltb_spec (length data) 3) as [|Hl]; [discriminate|].
  destruct (getReaders (parseHeader data)) as [rs|e] eqn:Hrs;
    cbn [mbind result_bind]; [|discriminate].
  intros Hrun.
  destruct (getReaders_ends_with_payload _ _ Hrs) as [rs' ->].
  pose proof (runReaders_payload_moves _ _ _ _ _ _ Hrun) as Hmv.
  pose proof (runReaders_bound _ _ _ _ _ _ Hrun) as Hb.
  split; [lia|].
  rewrite length_take.
  destruct (Nat.ltb_spec (offset `min` length data) 3) as [|_]; [lia|].
  rewrite parseHeader_take by lia. rewrite Hrs. cbn [mbind result_bind].
  apply runReaders_take_ge; [exact Hrun|lia].
Qed.

Lemma unmarshal_of_take (data : list byte) (k : nat) (msg : Message)
    (offset : nat) :
  unmarshalWithOffset (take k data) = Ok (msg, offset) ->
  unmarshalWithOffset data = Ok (msg, offset).
Proof.
  unfold unmarshalWithOffset.
  destruct (Nat.ltb_spec (length (take k data)) 3) as [|Hl]; [discriminate|].
  rewrite length_take in Hl.
  destruct (Nat.ltb_spec (length data) 3) as [|_]; [lia|].
  rewrite parseHeader_take by lia.
  destruct (getReaders (parseHeader data)) as [rs|e];
    cbn [mbind result_bind]; [|discriminate].
  apply runReaders_take.
Qed.

(** X1.  When [unmarshalMessage] returns a message it has read a prefix of
    the buffer, of at least four bytes, and nothing after it: every buffer
    that begins with the same bytes decodes to the same message, with the
    same final offset.  So bytes that follow the payload are ignored. *)
Theorem unmarshal_reads_prefix_only (data data' : list byte) (msg : Message)
    (offset : nat) :
  unmarshalWithOffset data = Ok (msg, offset) ->
  take offset data' = take offset data ->
  (4 <= offset <= length data)%nat
  /\ unmarshalWithOffset data' = Ok (msg, offset)
  /\ unmarshalMessage data' = unmarshalMessage data.
Proof.
  intros Hd Heq. destruct (unmarshal_take_offset _ _ _ Hd) as [Hb Ht].
  split; [exact Hb|].
  assert (Hd' : unmarshalWithOffset data' = Ok (msg, offset)).
  { apply (unmarshal_of_take data' offset). rewrite Heq. exact Ht. }
  split; [exact Hd'|]. unfold unmarshalMessage. rewrite Hd, Hd'. reflexivity.
Qed.

Lemma unmarshal_reads_prefix_only_witness :
  let data := startSessionFrame in
  let data' := startSessionFrame ++ [Byte.xff; Byte.x00; Byte.x7f] in
  let msg := StartSession_message emptyJson "abc" in
  unmarshalWithOffset data = Ok (msg, 21%nat)
  /\ take 21 data' = take 21 data
  /\ (4 <= 21 <= length data)%nat
  /\ unmarshalWithOffset data' = Ok (msg, 21%nat)
  /\ unmarshalMessage data' = unmarshalMessage data.
Proof.
  assert (H1 : unmarshalWithOffset startSessionFrame
               = Ok (StartSession_message emptyJson "abc", 21%nat))
    by (vm_compute; reflexivity).
  assert (H2 : take 21 (startSessionFrame ++ [Byte.xff; Byte.x00; Byte.x7f])
               = take 21 startSessionFrame) by (vm_compute; reflexivity).
  split; [exact H1|]. split; [exact H2|].
  exact (unmarshal_reads_prefix_only _ _ _ _ H1 H2).
Defined.

(** What a reader does at [offset] depends on the length of the buffer and on
    the bytes from [offset] on. *)
Lemma runReader_same_tail (r : Reader) (msg : Message) (data data' : list byte)
    (offset : nat) :
  length data = length data' ->
  drop offset data = drop offset data' ->
  runReader r msg data offset = runReader r msg data' offset.
Proof.
  intros Hlen Htail.
  assert (Hu : getUint32 data offset = getUint32 data' offset)
    by (unfold getUint32; rewrite Htail; reflexivity).
  assert (Hi : getInt32 data offset = getInt32 data' offset)
    by (unfold getInt32; rewrite Hu; reflexivity).
  assert (Hs : forall to, slice data (offset + 4) to = slice data' (offset + 4) to).
  { intros to. unfold slice. rewrite <- !drop_drop, Htail. reflexivity. }
  destruct r; cbn [runReader];
    unfold readSequence, readErrorCode, readEvent, readSessionId,
      readConnectId, readPayload; cbv zeta;
    rewrite ?Hlen, ?Hu, ?Hi, ?Hs; reflexivity.
Qed.

Lemma runReaders_same_tail (rs : list Reader) (data data' : list byte) :
  length data = length data' ->
  forall (msg : Message) (offset : nat),
    drop offset data = drop offset data' ->
    runReaders rs msg data offset = runReaders rs msg data' offset.
Proof.
  intros Hlen. induction rs as [|r rs IH]; intros msg offset Htail;
    cbn [runReaders]; [reflexivity|].
  rewrite <- (runReader_same_tail r msg data data' offset Hlen Htail).
  destruct (runReader r msg data offset) as [[m1 o1]|e] eqn:Hr;
    cbn [mbind result_bind]; [|reflexivity].
  apply IH. destruct (runReader_mono _ _ _ _ _ _ Hr) as [Hle _].
  replace o1 with (offset + (o1 - offset))%nat by lia.
  rewrite <- !drop_drop, Htail. reflexivity.
Qed.

(** X2.  The decoder looks at the first three bytes of the header only: a
    change of any other byte of the [4 * headerSize] header bytes changes
    neither the message nor the error that [unmarshalMessage] returns. *)
Theorem unmarshal_ignores_header_padding (data : list byte) (i : nat) (b : byte) :
  (3 <= i)%nat ->
  (i < Z.to_nat (4 * headerSize (parseHeader data)))%nat ->
  unmarshalWithOffset (<[i := b]> data) = unmarshalWithOffset data.
Proof.
  intros Hi Hh. unfold unmarshalWithOffset.
  assert (Hp : parseHeader (<[i := b]> data) = parseHeader data).
  { unfold parseHeader, byteAt. rewrite !list_lookup_insert_ne by lia.
    reflexivity. }
  rewrite length_insert, Hp.
  destruct (length data <? 3)%nat; [reflexivity|].
  destruct (getReaders (parseHeader data)) as [rs|e];
    cbn [mbind result_bind]; [|reflexivity].
  apply runReaders_same_tail.
  - apply length_insert.
  - apply drop_insert_lt. exact Hh.
Qed.

Lemma unmarshal_ignores_header_padding_witness :
  let data := [Byte.x12; Byte.x90; Byte.x10; Byte.x00;
               Byte.x00; Byte.x00; Byte.x00; Byte.x00;
               Byte.x00; Byte.x00; Byte.x00; Byte.x01; Byte.x7b] in
  (3 <= 6)%nat
  /\ (6 < Z.to_nat (4 * headerSize (parseHeader data)))%nat
  /\ unmarshalWithOffset (<[6%nat := Byte.xff]> data) = unmarshalWithOffset data
  /\ unmarshalWithOffset data
     = Ok (mkMessage 1 2 MsgType.FullServerResponse MsgTypeFlagBits.NoSeq 1 0
             None None None None None [Byte.x7b], 13%nat).
Proof.
  intros data.
  assert (H1 : (3 <= 6)%nat) by lia.
  assert (H2 : (6 < Z.to_nat (4 * headerSize (parseHeader data)))%nat)
    by (vm_compute; lia).
  split; [exact H1|]. split; [exact H2|].
  split; [exact (unmarshal_ignores_header_padding data 6 Byte.xff H1 H2)|].
  vm_compute. reflexivity.
Defined.

(** *** What the encoder and the decoder return *)

Lemma getWriters_ends_with_payload (msg : Message) (ws : list Writer) :
  getWriters msg = Ok ws -> exists ws', ws = ws' ++ [WPayload].
Proof.
  unfold getWriters.
  destruct (isContentType (type msg)); [|destruct (type msg =? MsgType.Error)];
    intros [= <-].
  - rewrite app_assoc. eexists. reflexivity.
  - eexists (_ ++ [WErrorCode]). rewrite <- app_assoc. reflexivity.
Qed.

Lemma omap_snoc_Some {A B : Type} (f : A -> option B) (l : list A) (a : A) (b : B) :
  f a = Some b -> omap f (l ++ [a]) = omap f l ++ [b].
Proof.
  intros Hf. induction l as [|x l IH]; cbn.
  - rewrite Hf. reflexivity.
  - fold (omap f (l ++ [a])). rewrite IH. destruct (f x); reflexivity.
Qed.

(** X3.  A negative [headerSize] makes [marshalMessage] fail with the
    [RangeError] of the header array.  With a [headerSize] from 0 to 15, what
    its four bits hold, [marshalMessage] fails exactly when the kind is none
    of the six, with "unsupported message type"; otherwise it returns a
    frame, whatever the other fields hold: the header, the fields, and last
    the length of the payload and the payload.  (Above 15 the outcome is not
    stated: the allocation of the header array fails once its length passes
    the limit of the engine.) *)
Theorem marshal_outcome (m : Message) :
  (headerSize m < 0 ->
   marshalMessage m = Err (InvalidTypedArrayLength (4 * headerSize m)))
  /\ (0 <= headerSize m <= 15 -> isKnownType (type m) = false ->
      marshalMessage m = Err (UnsupportedMessageType (type m)))
  /\ (0 <= headerSize m <= 15 -> isKnownType (type m) = true ->
      exists fields,
        marshalMessage m
        = Ok (headerBytes m ++ fields
              ++ be32 (Z.of_nat (length (payload m))) ++ payload m)).
Proof.
  unfold marshalMessage.
  split; [|split].
  - intros Hh. destruct (Z.ltb_spec (4 * headerSize m) 0); [reflexivity|lia].
  - intros Hh Hk. destruct (Z.ltb_spec (4 * headerSize m) 0); [lia|].
    unfold getWriters, isKnownType in *. apply orb_false_elim in Hk as [-> ->].
    reflexivity.
  - intros Hh Hk. destruct (Z.ltb_spec (4 * headerSize m) 0); [lia|].
    destruct (getWriters m) as [ws|e] eqn:Hw.
    + destruct (getWriters_ends_with_payload _ _ Hw) as [ws' ->].
      cbn [mbind result_bind].
      exists (concat (omap (fun writer => runWriter writer m) ws')).
      rewrite (omap_snoc_Some _ _ _
                 (be32 (Z.of_nat (length (payload m))) ++ payload m))
        by reflexivity.
      cbn [concat]. rewrite concat_app. cbn [concat].
      rewrite app_nil_r. reflexivity.
    + exfalso. unfold getWriters, isKnownType in *.
      destruct (isContentType (type m)); [discriminate|].
      cbn [orb] in Hk. rewrite Hk in Hw. discriminate.
Qed.

Lemma marshal_outcome_witness :
  let bad := createMessage MsgType.Invalid MsgTypeFlagBits.NoSeq in
  let neg := {| version := 1; headerSize := -1; type := 9;
       flag := 0; serialization := 1; compression := 0; event := None;
       sessionId := None; connectId := None; sequence := None;
       errorCode := None; payload := [] |} in
  let m := audioMessage 7 [Byte.xaa] in
  (headerSize neg < 0
   /\ marshalMessage neg = Err (InvalidTypedArrayLength (-4)))
  /\ (0 <= headerSize bad <= 15 /\ isKnownType (type bad) = false
      /\ marshalMessage bad = Err (UnsupportedMessageType 0))
  /\ (0 <= headerSize m <= 15 /\ isKnownType (type m) = true
      /\ exists fields,
           marshalMessage m
           = Ok (headerBytes m ++ fields
                 ++ be32 (Z.of_nat (length (payload m))) ++ payload m)).
Proof.
  intros bad neg m.
  split; [|split].
  - assert (H : headerSize neg < 0) by (change (-1 < 0); lia). split; [exact H|].
    exact (proj1 (marshal_outcome neg) H).
  - assert (H : 0 <= headerSize bad <= 15) by (change (0 <= 1 <= 15); lia).
    assert (K : isKnownType (type bad) = false) by reflexivity.
    split; [exact H|]. split; [exact K|].
    exact (proj1 (proj2 (marshal_outcome bad)) H K).
  - assert (H : 0 <= headerSize m <= 15) by (change (0 <= 1 <= 15); lia).
    assert (K : isKnownType (type m) = true) by reflexivity.
    split; [exact H|]. split; [exact K|].
    exact (proj2 (proj2 (marshal_outcome m)) H K).
Defined.

Lemma runReader_Err_field (r : Reader) (msg : Message) (data : list byte)
    (offset : nat) (e : Error) :
  runReader r msg data offset = Err e ->
  exists what, e = TruncatedField what /\ In what truncatedFields.
Proof.
  destruct r; cbn [runReader];
    unfold readSequence, readErrorCode, readEvent, readSessionId,
      readConnectId, readPayload;
    repeat match goal with
      | |- context [match ?x with _ => _ end] => destruct x
      end;
    intros [= <-] || discriminate;
    (eexists; split; [reflexivity|]); cbn; tauto.
Qed.

Lemma runReaders_Err_field (rs : list Reader) (data : list byte) (e : Error) :
  forall (msg : Message) (offset : nat),
    runReaders rs msg data offset = Err e ->
    exists what, e = TruncatedField what /\ In what truncatedFields.
Proof.
  induction rs as [|r rs IH]; intros msg offset; cbn [runReaders].
  - discriminate.
  - destruct (runReader r msg data offset) as [[m1 o1]|e1] eqn:Hr;
      cbn [mbind result_bind].
    + apply IH.
    + intros [= <-]. exact (runReader_Err_field _ _ _ _ _ Hr).
Qed.

(** X4.  [unmarshalMessage] fails with "data too short" exactly on buffers
    of fewer than three bytes, with "unsupported message type" exactly on
    longer buffers whose kind is none of the six, and otherwise only with
    "insufficient data for" one of the nine field names. *)
Theorem unmarshal_errors (data : list byte) :
  ((length data < 3)%nat ->
   unmarshalMessage data = Err (FrameTooShort (length data)))
  /\ ((3 <= length data)%nat ->
      isKnownType (type (parseHeader data)) = false ->
      unmarshalMessage data
      = Err (UnsupportedMessageType (type (parseHeader data))))
  /\ (forall e : Error,
        unmarshalMessage data = Err e ->
        e = FrameTooShort (length data) /\ (length data < 3)%nat
        \/ e = UnsupportedMessageType (type (parseHeader data))
           /\ (3 <= length data)%nat
           /\ isKnownType (type (parseHeader data)) = false
        \/ exists what,
             e = TruncatedField what /\ In what truncatedFields
             /\ (3 <= length data)%nat
             /\ isKnownType (type (parseHeader data)) = true).
Proof.
  unfold unmarshalMessage, unmarshalWithOffset.
  split; [|split].
  - intros Hl. destruct (Nat.ltb_spec (length data) 3); [reflexivity|lia].
  - intros Hl Hk. destruct (Nat.ltb_spec (length data) 3); [lia|].
    unfold getReaders.
    unfold isKnownType in Hk. apply orb_false_elim in Hk as [-> ->].
    reflexivity.
  - intros e. destruct (Nat.ltb_spec (length data) 3) as [Hl|Hl].
    + intros [= <-]. left. split; [reflexivity|exact Hl].
    + unfold getReaders, isKnownType.
      destruct (isContentType (type (parseHeader data))) eqn:Hc;
        [|destruct (type (parseHeader data) =? MsgType.Error) eqn:He];
        cbn [mbind result_bind fmap result_fmap].
      * match goal with
        | |- context [runReaders ?rs ?m ?d ?o] =>
            destruct (runReaders rs m d o) as [[m1 o1]|e1] eqn:Hr
        end; [discriminate|].
        intros [= <-]. right. right.
        destruct (runReaders_Err_field _ _ _ _ _ Hr) as (what & -> & Hin).
        exists what. auto.
      * match goal with
        | |- context [runReaders ?rs ?m ?d ?o] =>
            destruct (runReaders rs m d o) as [[m1 o1]|e1] eqn:Hr
        end; [discriminate|].
        intros [= <-]. right. right.
        destruct (runReaders_Err_field _ _ _ _ _ Hr) as (what & -> & Hin).
        exists what. auto.
      * intros [= <-]. right. left. auto.
Qed.

Lemma unmarshal_errors_witness :
  ((length [Byte.x11; Byte.x90] < 3)%nat
   /\ unmarshalMessage [Byte.x11; Byte.x90] = Err (FrameTooShort 2))
  /\ ((3 <= length [Byte.x11; Byte.x30; Byte.x10; Byte.x00])%nat
      /\ isKnownType (type (parseHeader [Byte.x11; Byte.x30; Byte.x10; Byte.x00]))
         = false
      /\ unmarshalMessage [Byte.x11; Byte.x30; Byte.x10; Byte.x00]
         = Err (UnsupportedMessageType 3))
  /\ (unmarshalMessage (take 10 startSessionFrame)
      = Err (TruncatedField "session ID size")
      /\ In "session ID size"%string truncatedFields).
Proof.
  split; [|split].
  - assert (H : (length [Byte.x11; Byte.x90] < 3)%nat) by (cbn; lia).
    split; [exact H|]. exact (proj1 (unmarshal_errors _) H).
  - assert (H : (3 <= length [Byte.x11; Byte.x30; Byte.x10; Byte.x00])%nat)
      by (cbn; lia).
    assert (K : isKnownType
                  (type (parseHeader [Byte.x11; Byte.x30; Byte.x10; Byte.x00]))
                = false) by (vm_compute; reflexivity).
    split; [exact H|]. split; [exact K|].
    exact (proj1 (proj2 (unmarshal_errors _)) H K).
  - assert (H : unmarshalMessage (take 10 startSessionFrame)
                = Err (TruncatedField "session ID size"))
      by (vm_compute; reflexivity).
    split; [exact H|].
    destruct (proj2 (proj2 (unmarshal_errors _)) _ H)
      as [[Hno _]|[[Hno _]|(what & Hw & Hin & _)]];
      [discriminate Hno|discriminate Hno|].
    injection Hw as <-. exact Hin.
Defined.

Lemma getInt32_range (data : list byte) (offset : nat) :
  - 2 ^ 31 <= getInt32 data offset < 2 ^ 31.
Proof.
  unfold getInt32. pose proof (getUint32_range data offset).
  destruct (Z.ltb_spec (getUint32 data offset) (2 ^ 31)); lia.
Qed.

(** The fields a reader leaves alone, and what it puts into its own. *)
Lemma runReader_frame (r : Reader) (msg msg' : Message) (data : list byte)
    (offset offset' : nat) :
  runReader r msg data offset = Ok (msg', offset') ->
  headerOf msg' = headerOf msg
  /\ (r = REvent -> exists e, event msg' = Some e /\ inInt32 e = true)
  /\ (r <> REvent -> event msg' = event msg)
  /\ (r = RSequence -> exists s, sequence msg' = Some s /\ inInt32 s = true)
  /\ (r <> RSequence -> sequence msg' = sequence msg)
  /\ (r = RErrorCode ->
      exists c, errorCode msg' = Some c /\ inUint32 c = true)
  /\ (r <> RErrorCode -> errorCode msg' = errorCode msg)
  /\ (sessionId msg' = sessionId msg
      \/ r = RSessionId
         /\ from_option readSessionId_skips true (event msg) = false)
  /\ (connectId msg' = connectId msg
      \/ r = RConnectId
         /\ from_option readConnectId_reads false (event msg) = true).
Proof.
  pose proof (getInt32_range data offset) as Hi%inInt32_spec.
  pose proof (getUint32_range data offset) as Hu%inUint32_spec.
  destruct r; cbn [runReader];
    unfold readSequence, readErrorCode, readEvent, readSessionId,
      readConnectId, readPayload;
    repeat match goal with
      | |- context [match ?x with _ => _ end] => destruct x eqn:?
      end;
    intros [= <- <-] || discriminate;
    repeat match goal with
      | |- _ /\ _ => split
      | |- _ -> _ => intros ?
      end;
    try congruence; try reflexivity; cbn [event sequence errorCode sessionId
      connectId set_event set_sequence set_errorCode set_sessionId
      set_connectId set_payload];
    eauto;
    try (left; reflexivity).
  right. split; [reflexivity|]. cbn [from_option].
  apply negb_false_iff. assumption.
Qed.

Lemma reads_skips (e : Z) :
  readConnectId_reads e = true -> readSessionId_skips e = true.
Proof.
  unfold readConnectId_reads, readSessionId_skips.
  intros [[->| ->]%orb_true_iff| ->]%orb_true_iff;
    rewrite ?orb_true_r; reflexivity.
Qed.

Lemma headerOf_fields (a b : Message) :
  headerOf a = headerOf b ->
  version a = version b /\ headerSize a = headerSize b /\ type a = type b
  /\ flag a = flag b /\ serialization a = serialization b
  /\ compression a = compression b.
Proof. intros [= -> -> -> -> -> ->]. repeat split. Qed.

Lemma reading_step (r : Reader) (hdr msg msg' : Message) (data : list byte)
    (offset offset' : nat) :
  Reading hdr msg ->
  (r = REvent -> sessionId msg = None /\ connectId msg = None) ->
  runReader r msg data offset = Ok (msg', offset') ->
  Reading hdr msg'
  /\ isSome (event msg') = isSome (event msg) || bool_decide (r = REvent)
  /\ isSome (sequence msg') = isSome (sequence msg) || bool_decide (r = RSequence)
  /\ isSome (errorCode msg')
     = isSome (errorCode msg) || bool_decide (r = RErrorCode)
  /\ (r <> REvent -> r <> RSessionId -> sessionId msg' = sessionId msg)
  /\ (r <> REvent -> r <> RConnectId -> connectId msg' = connectId msg).
Proof.
  intros [Hh He Hs Hc Hsid Hcid] Hfirst Hr.
  apply runReader_frame in Hr
    as (Hh' & He1 & He2 & Hs1 & Hs2 & Hc1 & Hc2 & Hsid' & Hcid').
  destruct r;
    repeat match goal with
      | H : @eq Reader ?r ?r -> _ |- _ => specialize (H eq_refl)
      | H : not (@eq Reader ?r ?r') -> _ |- _ =>
          specialize (H ltac:(discriminate))
      | H : @eq Reader ?r ?r' -> _ |- _ => clear H
      | H : not (@eq Reader ?r ?r) -> _ |- _ => clear H
      | H : exists _, _ |- _ => destruct H as [? [? ?]]
      | H : _ \/ (?r = ?r' /\ _) |- _ =>
          assert (r <> r') by discriminate;
          destruct H as [H|[? _]]; [|contradiction]
      | H : _ /\ _ |- _ => destruct H
      end;
    (split; [constructor|]);
    repeat match goal with
      | H : ?f msg' = _ |- _ => rewrite H
      end;
    rewrite ?Hh; cbn [from_option isSome bool_decide decide_rel];
    rewrite ?orb_false_r, ?orb_true_r;
    repeat match goal with
      | |- _ /\ _ => split
      end;
    try assumption; try reflexivity; try (intros; congruence);
    try (intros; discriminate).
  all: try match goal with
           | |- context [isSome ?o] => destruct o; reflexivity
           end.
  all: repeat match goal with
         | H : sessionId _ = None |- _ => rewrite H; clear H
         | H : connectId _ = None |- _ => rewrite H; clear H
         end;
       try (intros; discriminate).
  all: match goal with
       | H : _ \/ _ |- _ =>
           destruct H as [H|[_ H]]; [rewrite H; assumption|intros _; exact H]
       end.
Qed.

Lemma reading_header_fields (hdr msg : Message) :
  Reading hdr msg ->
  version msg = version hdr /\ headerSize msg = headerSize hdr
  /\ type msg = type hdr /\ flag msg = flag hdr
  /\ serialization msg = serialization hdr
  /\ compression msg = compression hdr.
Proof. intros [Hh _ _ _ _ _]. exact (headerOf_fields _ _ Hh). Qed.

(** One reader of the list, run on a message about which [Reading] holds:
    the facts of [reading_step] are put into the context. *)
Ltac read_one HR :=
  match goal with
  | |- context [runReader ?r ?m ?d ?o] =>
      let Hr := fresh "Hr" in
      let Hfirst := fresh "Hfirst" in
      let HR' := fresh "HR" in
      let E1 := fresh "Eev" in
      let E2 := fresh "Esq" in
      let E3 := fresh "Eec" in
      let E4 := fresh "Esid" in
      let E5 := fresh "Ecid" in
      destruct (runReader r m d o) as [[? ?]|?] eqn:Hr;
      cbn [mbind result_bind fmap result_fmap]; [|discriminate];
      assert (Hfirst : r = REvent -> sessionId m = None /\ connectId m = None)
        by (intros ?; (discriminate || (split; congruence)));
      pose proof (reading_step _ _ _ _ _ _ _ HR Hfirst Hr)
        as (HR' & E1 & E2 & E3 & E4 & E5);
      try specialize (E4 ltac:(discriminate) ltac:(discriminate));
      try specialize (E5 ltac:(discriminate) ltac:(discriminate));
      clear Hfirst Hr
  end.

(** The three optional numbers of the message read last, from the chain of
    equations that the readers have left. *)
Ltac finish_shape :=
  unfold isKnownType;
  repeat match goal with
    | H : isSome ?x = _ |- context [isSome ?x] => rewrite H
    end;
  repeat match goal with
    | H : _ = true |- _ => rewrite H
    | H : _ = false |- _ => rewrite H
    end;
  reflexivity.

(** X5.  In every message that [unmarshalMessage] returns the event is set
    exactly when the flag is [WithEvent], the sequence exactly when the kind
    is one of the five content kinds and the flag is a sequence flag, the
    error code exactly when the kind is [Error]; a session id is set only
    with an event that has one, a connect id only with one of the three
    connection events, never both; and the numbers are within the ranges of
    the wire. *)
Theorem unmarshal_shape (data : list byte) (msg : Message) :
  unmarshalMessage data = Ok msg ->
  decodedShape msg /\ decodedRanges msg = true.
Proof.
  unfold unmarshalMessage, unmarshalWithOffset.
  destruct (length data <? 3)%nat; [discriminate|].
  set (hdr := parseHeader data).
  assert (HR : Reading hdr hdr) by (constructor; try reflexivity; discriminate).
  assert (Hsid : sessionId hdr = None) by reflexivity.
  assert (Hcid : connectId hdr = None) by reflexivity.
  assert (Hev : isSome (event hdr) = false) by reflexivity.
  assert (Hsq : isSome (sequence hdr) = false) by reflexivity.
  assert (Hec : isSome (errorCode hdr) = false) by reflexivity.
  assert (H4 : is4bit (version hdr) && is4bit (headerSize hdr)
               && is4bit (type hdr) && is4bit (flag hdr)
               && is4bit (serialization hdr) && is4bit (compression hdr)
               = true).
  { subst hdr. unfold parseHeader, byteAt.
    cbn [version headerSize type flag serialization compression].
    rewrite !andb_true_iff.
    repeat split; apply is4bit_spec;
      match goal with
      | |- context [data !! ?i] =>
          destruct (data !! i) as [b|]; [destruct b|]; vm_compute; split;
          congruence
      end. }
  clearbody hdr.
  assert (Hfin : forall m : Message,
             Reading hdr m ->
             isSome (event m) = (flag hdr =? MsgTypeFlagBits.WithEvent) ->
             isSome (sequence m)
             = isContentType (type hdr) && isSeqFlag (flag hdr) ->
             isSome (errorCode m) = (type hdr =? MsgType.Error) ->
             isKnownType (type hdr) = true ->
             decodedShape m /\ decodedRanges m = true).
  { intros m HRm Eev Esq Eec Hk.
    destruct (reading_header_fields _ _ HRm) as (Hv & Hh & Ht & Hf & Hs & Hc).
    destruct HRm as [_ Rev Rsq Rec Rsid Rcid].
    unfold decodedShape, decodedRanges.
    rewrite Hv, Hh, Ht, Hf, Hs, Hc, H4, Hk, Rev, Rsq, Rec.
    repeat split; try assumption.
    destruct (isSome (sessionId m)) eqn:Es, (isSome (connectId m)) eqn:Ec;
      try reflexivity.
    specialize (Rsid eq_refl). specialize (Rcid eq_refl).
    destruct (event m) as [e|]; cbn in Rsid, Rcid; [|discriminate].
    rewrite (reads_skips e Rcid) in Rsid. discriminate. }
  unfold getReaders.
  destruct (isContentType (type hdr)) eqn:Hct;
    [pose proof (isContentType_not_Error _ Hct) as Her
    |destruct (type hdr =? MsgType.Error) eqn:Her; [|discriminate]];
    (destruct (flag_cases (flag hdr)) as [[Hfe Hfs]|Hfe];
     [rewrite Hfe, ?Hfs|rewrite Hfe; try destruct (isSeqFlag (flag hdr)) eqn:Hfs]);
    cbn [app mbind result_bind runReaders fmap result_fmap].
  - (* event, session id, connect id, payload *)
    read_one HR. read_one HR0. read_one HR1. read_one HR2.
    intros [= <-]. apply Hfin; [assumption|..]; finish_shape.
  - (* sequence, payload *)
    read_one HR. read_one HR0.
    intros [= <-]. apply Hfin; [assumption|..]; finish_shape.
  - (* payload *)
    read_one HR.
    intros [= <-]. apply Hfin; [assumption|..]; finish_shape.
  - (* error code, event, session id, connect id, payload *)
    read_one HR. read_one HR0. read_one HR1. read_one HR2. read_one HR3.
    intros [= <-]. apply Hfin; [assumption|..]; finish_shape.
  - (* error code, payload *)
    read_one HR. read_one HR0.
    intros [= <-]. apply Hfin; [assumption|..]; finish_shape.
  - read_one HR. read_one HR0.
    intros [= <-]. apply Hfin; [assumption|..]; finish_shape.
Qed.

Lemma unmarshal_shape_witness :
  let data := [Byte.x11; Byte.x94; Byte.x10; Byte.x00;
               Byte.x00; Byte.x00; Byte.x00; Byte.x34;
               Byte.x00; Byte.x00; Byte.x00; Byte.x06;
               Byte.x63; Byte.x6f; Byte.x6e; Byte.x6e; Byte.x2d; Byte.x31;
               Byte.x00; Byte.x00; Byte.x00; Byte.x02; Byte.x7b; Byte.x7d] in
  unmarshalMessage data
  = Ok (mkMessage 1 1 MsgType.FullServerResponse MsgTypeFlagBits.WithEvent 1 0
          (Some EventType.ConnectionFinished) None (Some "conn-1"%string)
          None None emptyJson)
  /\ decodedShape (mkMessage 1 1 MsgType.FullServerResponse
                     MsgTypeFlagBits.WithEvent 1 0
                     (Some EventType.ConnectionFinished) None
                     (Some "conn-1"%string) None None emptyJson)
  /\ decodedRanges (mkMessage 1 1 MsgType.FullServerResponse
                      MsgTypeFlagBits.WithEvent 1 0
                      (Some EventType.ConnectionFinished) None
                      (Some "conn-1"%string) None None emptyJson) = true.
Proof.
  intros data.
  assert (H : unmarshalMessage data
              = Ok (mkMessage 1 1 MsgType.FullServerResponse
                      MsgTypeFlagBits.WithEvent 1 0
                      (Some EventType.ConnectionFinished) None
                      (Some "conn-1"%string) None None emptyJson))
    by (vm_compute; reflexivity).
  split; [exact H|]. exact (unmarshal_shape _ _ H).
Defined.

(** *** Round trips *)

Lemma byte_of_Z_add (z k : Z) : byte_of_Z (z + k * 256) = byte_of_Z z.
Proof. unfold byte_of_Z. rewrite Z.mod_add by lia. reflexivity. Qed.

Lemma be32_add (v k : Z) : be32 (v + k * 2 ^ 32) = be32 v.
Proof.
  unfold be32. rewrite !Z.shiftr_div_pow2 by lia.
  replace ((v + k * 2 ^ 32) / 2 ^ 24) with (v / 2 ^ 24 + (k * 2 ^ 0) * 256).
  2:{ replace (k * 2 ^ 32) with ((k * 2 ^ 0 * 256) * 2 ^ 24) by lia.
      rewrite Z.div_add by lia. reflexivity. }
  replace ((v + k * 2 ^ 32) / 2 ^ 16) with (v / 2 ^ 16 + (k * 2 ^ 8) * 256).
  2:{ replace (k * 2 ^ 32) with ((k * 2 ^ 8 * 256) * 2 ^ 16) by lia.
      rewrite Z.div_add by lia. reflexivity. }
  replace ((v + k * 2 ^ 32) / 2 ^ 8) with (v / 2 ^ 8 + (k * 2 ^ 16) * 256).
  2:{ replace (k * 2 ^ 32) with ((k * 2 ^ 16 * 256) * 2 ^ 8) by lia.
      rewrite Z.div_add by lia. reflexivity. }
  replace (v + k * 2 ^ 32) with (v + (k * 2 ^ 24) * 256) by lia.
  rewrite !byte_of_Z_add. reflexivity.
Qed.

Lemma be32_toInt32 (v : Z) : be32 (toInt32 v) = be32 v.
Proof.
  unfold toInt32.
  replace ((v + 2 ^ 31) mod 2 ^ 32 - 2 ^ 31)
    with (v + (- ((v + 2 ^ 31) / 2 ^ 32)) * 2 ^ 32).
  - apply be32_add.
  - pose proof (Z.div_mod (v + 2 ^ 31) (2 ^ 32)). lia.
Qed.

Lemma be32_toUint32 (v : Z) : be32 (toUint32 v) = be32 v.
Proof.
  unfold toUint32.
  replace (v mod 2 ^ 32) with (v + (- (v / 2 ^ 32)) * 2 ^ 32).
  - apply be32_add.
  - pose proof (Z.div_mod v (2 ^ 32)). lia.
Qed.

Lemma toInt32_range (v : Z) : - 2 ^ 31 <= toInt32 v < 2 ^ 31.
Proof. unfold toInt32. pose proof (Z.mod_pos_bound (v + 2 ^ 31) (2 ^ 32)). lia. Qed.

Lemma toUint32_range (v : Z) : 0 <= toUint32 v < 2 ^ 32.
Proof. unfold toUint32. apply Z.mod_pos_bound. lia. Qed.

Lemma marshal_asStored (m : Message) :
  marshalMessage (asStored m) = marshalMessage m.
Proof.
  unfold marshalMessage. cbn [asStored headerSize set_sequence set_errorCode].
  destruct (4 * headerSize m <? 0); [reflexivity|].
  assert (Hw : getWriters (asStored m) = getWriters m) by reflexivity.
  assert (Hh : headerBytes (asStored m) = headerBytes m) by reflexivity.
  rewrite Hw, Hh. destruct (getWriters m) as [ws|e]; [|reflexivity].
  cbn [mbind result_bind]. do 3 f_equal.
  apply omap_pointwise. intros w.
  destruct w; cbn [runWriter]; try reflexivity.
  - unfold writeSequence. cbn [asStored sequence set_sequence].
    destruct (sequence m); cbn; [rewrite be32_toInt32|]; reflexivity.
  - unfold writeErrorCode.
    cbn [asStored errorCode set_sequence set_errorCode].
    destruct (errorCode m); cbn; [rewrite be32_toUint32|]; reflexivity.
Qed.

Lemma wellFormed_asStored (m : Message) :
  wellFormed (withoutNumbers m) = true -> wellFormed (asStored m) = true.
Proof.
  unfold wellFormed, headerFieldsOk.
  cbn [withoutNumbers asStored set_sequence set_errorCode version headerSize
         type flag serialization compression event sequence errorCode
         sessionId payload from_option].
  rewrite !andb_true_iff. intros H.
  repeat match goal with
    | H : _ /\ _ |- _ => destruct H
    end.
  repeat split; try assumption.
  - destruct (sequence m); cbn; [|reflexivity].
    apply inInt32_spec, toInt32_range.
  - destruct (errorCode m); cbn; [|reflexivity].
    apply inUint32_spec, toUint32_range.
Qed.

(** X6.  The encoder does not reject a sequence or an error code that is out
    of range: it stores them modulo 2^32.  Decoding the encoding of a message
    that is otherwise as in C1 returns the message with its sequence wrapped
    to a signed and its error code to an unsigned 32-bit number. *)
Theorem roundtrip_wraps_numbers (m : Message) :
  wellFormed (withoutNumbers m) = true ->
  presenceRules m = true ->
  decodableAsWritten m = true ->
  exists data,
    marshalMessage m = Ok data
    /\ unmarshalMessage data = Ok (set_connectId None (asStored m)).
Proof.
  intros Hwf Hpr Hdec.
  assert (Hpr' : presenceRules (asStored m) = true).
  { revert Hpr. unfold presenceRules.
    cbn [asStored set_sequence set_errorCode event sessionId sequence
           errorCode type flag].
    destruct (sequence m), (errorCode m); exact (fun H => H). }
  assert (Hdec' : decodableAsWritten (asStored m) = true) by exact Hdec.
  destruct (roundtrip_offset (asStored m) (wellFormed_asStored m Hwf) Hpr' Hdec')
    as (data & Hm & Hu).
  exists data. rewrite <- marshal_asStored. split; [exact Hm|].
  unfold unmarshalMessage. rewrite Hu. reflexivity.
Qed.

Lemma roundtrip_wraps_numbers_witness :
  let m := audioMessage (2 ^ 32 + 2 ^ 31 + 5) [Byte.xaa] in
  wellFormed (withoutNumbers m) = true
  /\ presenceRules m = true
  /\ decodableAsWritten m = true
  /\ asStored m = audioMessage (- 2 ^ 31 + 5) [Byte.xaa]
  /\ exists data,
       marshalMessage m = Ok data
       /\ unmarshalMessage data = Ok (set_connectId None (asStored m)).
Proof.
  intros m.
  assert (H1 : wellFormed (withoutNumbers m) = true) by (vm_compute; reflexivity).
  assert (H2 : presenceRules m = true) by (vm_compute; reflexivity).
  assert (H3 : decodableAsWritten m = true) by (vm_compute; reflexivity).
  split; [exact H1|]. split; [exact H2|]. split; [exact H3|].
  split; [vm_compute; reflexivity|].
  exact (roundtrip_wraps_numbers m H1 H2 H3).
Defined.

(** Four bytes read as a number and written back are the same four bytes. *)
Lemma be32_getUint32 (data : list byte) (offset : nat) :
  (offset + 4 <= length data)%nat ->
  be32 (getUint32 data offset) = take 4 (drop offset data).
Proof.
  intros Hl. unfold getUint32.
  assert (Hd : (4 <= length (drop offset data))%nat)
    by (rewrite length_drop; lia).
  destruct (drop offset data) as [|a [|b [|c [|d rest]]]];
    cbn [length] in Hd; try lia.
  cbn [take fold_left firstn]. rewrite !take_0. cbn [fold_left].
  pose proof (Z_of_byte_range a). pose proof (Z_of_byte_range b).
  pose proof (Z_of_byte_range c). pose proof (Z_of_byte_range d).
  unfold be32. rewrite !Z.shiftr_div_pow2 by lia.
  set (A := Z_of_byte a) in *. set (B := Z_of_byte b) in *.
  set (C := Z_of_byte c) in *. set (D := Z_of_byte d) in *.
  replace ((((0 * 256 + A) * 256 + B) * 256 + C) * 256 + D)
    with (D + ((A * 256 + B) * 256 + C) * 256) by lia.
  rewrite byte_of_Z_add.
  replace ((D + ((A * 256 + B) * 256 + C) * 256) / 2 ^ 8)
    with (C + (A * 256 + B) * 256)
    by (change (2 ^ 8) with 256; rewrite Z.div_add, Z.div_small by lia; lia).
  rewrite byte_of_Z_add.
  replace ((D + ((A * 256 + B) * 256 + C) * 256) / 2 ^ 16)
    with (B + A * 256).
  2:{ replace (D + ((A * 256 + B) * 256 + C) * 256)
        with ((D + C * 256) + (B + A * 256) * 2 ^ 16) by lia.
      rewrite Z.div_add, Z.div_small by lia. lia. }
  rewrite byte_of_Z_add.
  replace ((D + ((A * 256 + B) * 256 + C) * 256) / 2 ^ 24) with A.
  2:{ replace (D + ((A * 256 + B) * 256 + C) * 256)
        with ((D + C * 256 + B * 2 ^ 16) + A * 2 ^ 24) by lia.
      rewrite Z.div_add, Z.div_small by lia. lia. }
  subst A B C D. rewrite !byte_of_Z_of_byte. reflexivity.
Qed.

Lemma be32_getInt32 (data : list byte) (offset : nat) :
  (offset + 4 <= length data)%nat ->
  be32 (getInt32 data offset) = take 4 (drop offset data).
Proof.
  intros Hl. unfold getInt32.
  destruct (getUint32 data offset <? 2 ^ 31).
  - apply be32_getUint32, Hl.
  - replace (getUint32 data offset - 2 ^ 32)
      with (getUint32 data offset + (-1) * 2 ^ 32) by lia.
    rewrite be32_add. apply be32_getUint32, Hl.
Qed.

(** The two nibbles of a byte, packed again. *)
Lemma repack_byte (b : byte) :
  byte_of_Z (Z.lor (Z.shiftl (Z.shiftr (Z_of_byte b) 4) 4)
               (Z.land (Z_of_byte b) 15)) = b.
Proof. destruct b; vm_compute; reflexivity. Qed.

(** The header of a frame whose padding is zero, written again. *)
Lemma headerBytes_parseHeader (data : list byte) :
  let h := Z.to_nat (4 * headerSize (parseHeader data)) in
  1 <= headerSize (parseHeader data) ->
  (h <= length data)%nat ->
  (forall i, (3 <= i < h)%nat -> data !! i = Some Byte.x00) ->
  headerBytes (parseHeader data) = take h data.
Proof.
  intros h Hs Hl Hpad. rewrite headerBytes_shape by exact Hs. fold h.
  assert (Hh : (4 <= h)%nat) by (unfold h; lia).
  destruct data as [|d0 [|d1 [|d2 rest]]]; cbn [length] in Hl; try lia.
  cbn [parseHeader version headerSize type flag serialization compression].
  change (byteAt (d0 :: d1 :: d2 :: rest) 0) with (Z_of_byte d0).
  change (byteAt (d0 :: d1 :: d2 :: rest) 1) with (Z_of_byte d1).
  change (byteAt (d0 :: d1 :: d2 :: rest) 2) with (Z_of_byte d2).
  rewrite !repack_byte.
  destruct h as [|[|[|h']]]; try lia. cbn [take firstn]. do 3 f_equal.
  replace (S (S (S h')) - 3)%nat with h' by lia.
  apply list_eq. intros i.
  destruct (Nat.lt_ge_cases i h') as [Hi|Hi].
  - rewrite lookup_replicate_2 by exact Hi.
    rewrite lookup_take_lt by exact Hi.
    symmetry. exact (Hpad (3 + i)%nat ltac:(lia)).
  - rewrite lookup_take_ge by exact Hi.
    apply lookup_replicate_None. exact Hi.
Qed.

(** A reader leaves the six header fields alone. *)
Lemma runReader_headerOf (r : Reader) (msg msg' : Message) (data : list byte)
    (offset offset' : nat) :
  runReader r msg data offset = Ok (msg', offset') ->
  headerOf msg' = headerOf msg.
Proof.
  destruct r; cbn [runReader];
    unfold readSequence, readErrorCode, readEvent, readSessionId,
      readConnectId, readPayload;
    repeat match goal with
      | |- context [match ?x with _ => _ end] => destruct x eqn:?
      end;
    intros [= <- <-] || discriminate; reflexivity.
Qed.

Lemma runReaders_headerOf (rs : list Reader) (data : list byte) :
  forall (msg msg' : Message) (offset offset' : nat),
    runReaders rs msg data offset = Ok (msg', offset') ->
    headerOf msg' = headerOf msg.
Proof.
  induction rs as [|r rs IH]; intros msg msg' offset offset'; cbn [runReaders].
  - intros [= <- _]. reflexivity.
  - destruct (runReader r msg data offset) as [[m1 o1]|e] eqn:Hr;
      cbn [mbind result_bind]; [|discriminate].
    intros Hrs. rewrite (IH _ _ _ _ Hrs). exact (runReader_headerOf _ _ _ _ _ _ Hr).
Qed.

(** The payload field that [readPayload] has read, written again. *)
Lemma readPayload_rewrite (msg msg' : Message) (data : list byte)
    (offset offset' : nat) :
  readPayload msg data offset = Ok (msg', offset') ->
  payload msg = [] ->
  msg' = set_payload (payload msg') msg
  /\ (offset + 4 <= offset' <= length data)%nat
  /\ be32 (Z.of_nat (length (payload msg'))) ++ payload msg'
     = take (offset' - offset) (drop offset data).
Proof.
  intros Hr Hempty. revert Hr. unfold readPayload.
  destruct (Nat.ltb_spec (length data) (offset + 4)) as [|Hl]; [discriminate|].
  pose proof (getUint32_range data offset) as Hr.
  destruct (Z.ltb_spec 0 (getUint32 data offset)) as [Hpos|Hzero].
  - destruct (Z.ltb_spec (Z.of_nat (length data))
                (Z.of_nat (offset + 4) + getUint32 data offset)) as [|Hfit];
      [discriminate|].
    intros [= <- <-]. cbn [payload set_payload].
    set (n := Z.to_nat (getUint32 data offset)) in *.
    assert (Hlen : length (slice data (offset + 4) (offset + 4 + n)) = n).
    { unfold slice. rewrite length_take, length_drop. lia. }
    split; [reflexivity|]. split; [lia|].
    rewrite Hlen. unfold n at 1. rewrite Z2Nat.id by lia.
    rewrite be32_getUint32 by exact Hl.
    unfold slice. rewrite <- drop_drop.
    replace (offset + 4 + n - (offset + 4))%nat with n by lia.
    rewrite take_take_drop. f_equal. lia.
  - intros [= <- <-]. rewrite Hempty.
    split; [destruct msg; cbn in *; subst; reflexivity|]. split; [lia|].
    cbn [length app]. rewrite app_nil_r.
    replace (Z.of_nat 0) with (getUint32 data offset) by lia.
    rewrite be32_getUint32 by exact Hl. f_equal. lia.
Qed.

Lemma three_parts (data : list byte) (h k : nat) :
  (h + k <= length data)%nat ->
  take h data ++ take k (drop h data)
    ++ take (length data - (h + k)) (drop (h + k) data)
  = data.
Proof.
  intros Hl. rewrite (take_ge (drop (h + k) data)) by (rewrite length_drop; lia).
  rewrite <- drop_drop, take_drop, take_drop. reflexivity.
Qed.

Lemma two_parts (data : list byte) (h : nat) :
  take h data ++ take (length data - h) (drop h data) = data.
Proof.
  rewrite (take_ge (drop h data)) by (rewrite length_drop; lia).
  apply take_drop.
Qed.

Lemma Ok_inj {A : Type} (a b : A) : Ok a = Ok b -> a = b.
Proof. intros [= ->]. reflexivity. Qed.

(** X7.  The other round trip, for frames without an event.  If
    [unmarshalMessage] reads a frame to its last byte, the flag it finds is
    not [WithEvent], the header is at least one unit long and its bytes after
    the third are zero, then [marshalMessage] of the decoded message gives
    the frame back, byte for byte. *)
Theorem marshal_unmarshal_plain (data : list byte) (msg : Message) :
  unmarshalWithOffset data = Ok (msg, length data) ->
  flag msg <> MsgTypeFlagBits.WithEvent ->
  1 <= headerSize msg ->
  (forall i : nat,
      (3 <= i < Z.to_nat (4 * headerSize msg))%nat ->
      data !! i = Some Byte.x00) ->
  marshalMessage msg = Ok data.
Proof.
  intros Hu Hf Hs Hpad. unfold unmarshalWithOffset in Hu.
  destruct (Nat.ltb_spec (length data) 3) as [|Hl]; [discriminate|].
  set (hdr := parseHeader data) in *.
  set (h := Z.to_nat (4 * headerSize hdr)) in *.
  destruct (getReaders hdr) as [rs|e] eqn:Hrs;
    cbn [mbind result_bind] in Hu; [|discriminate].
  pose proof (runReaders_headerOf _ _ _ _ _ _ Hu) as Hh.
  assert (Hhs : headerSize msg = headerSize hdr) by exact (f_equal headerSize Hh).
  assert (Hfl : flag msg = flag hdr) by exact (f_equal flag Hh).
  assert (Hhb : headerBytes msg = headerBytes hdr).
  { unfold headerBytes.
    rewrite (f_equal version Hh : version msg = version hdr),
      (f_equal type Hh : type msg = type hdr),
      (f_equal serialization Hh : serialization msg = serialization hdr),
      (f_equal compression Hh : compression msg = compression hdr),
      Hhs, Hfl. reflexivity. }
  rewrite Hhs in Hs, Hpad. fold h in Hpad. rewrite Hfl in Hf.
  assert (Hfe : (flag hdr =? MsgTypeFlagBits.WithEvent) = false)
    by (apply Z.eqb_neq; exact Hf).
  destruct (getReaders_ends_with_payload _ _ Hrs) as [rs' Hrs'].
  pose proof Hu as Hmv. rewrite Hrs' in Hmv.
  apply runReaders_payload_moves in Hmv.
  assert (Hle : (h <= length data)%nat) by lia.
  assert (Hhd : headerBytes hdr = take h data)
    by exact (headerBytes_parseHeader data Hs Hle Hpad).
  unfold marshalMessage, getWriters.
  rewrite Hhb, Hhd, Hhs, Hfl, Hfe,
    (f_equal type Hh : type msg = type hdr).
  destruct (Z.ltb_spec (4 * headerSize hdr) 0) as [|_]; [lia|].
  unfold getReaders in Hrs. rewrite Hfe in Hrs.
  destruct (isContentType (type hdr)) eqn:Hct;
    [destruct (isSeqFlag (flag hdr)) eqn:Hsq
    |destruct (type hdr =? MsgType.Error) eqn:Her; [|discriminate]];
    apply Ok_inj in Hrs; subst rs;
    cbn [app runReaders runReader mbind result_bind] in Hu;
    cbn [app mbind result_bind omap list_omap runWriter concat].
  - (* a sequence number and the payload *)
    unfold readSequence in Hu.
    destruct (Nat.ltb_spec (length data) (h + 4)) as [|Hl4]; [discriminate|].
    cbn [mbind result_bind] in Hu.
    destruct (readPayload _ data (h + 4)) as [[m1 o1]|?] eqn:Hp;
      cbn [mbind result_bind] in Hu; [|discriminate].
    apply Ok_inj in Hu. injection Hu as -> ->.
    destruct (readPayload_rewrite _ _ _ _ _ Hp eq_refl) as (Hm & Hb & Hbytes).
    unfold writeSequence, writePayload. rewrite Hm at 1.
    cbn [sequence set_payload set_sequence]. cbn [concat].
    rewrite Hbytes, be32_getInt32, app_nil_r by exact Hl4. f_equal.
    apply (three_parts data h 4). exact Hl4.
  - (* the payload alone *)
    destruct (readPayload _ data h) as [[m1 o1]|?] eqn:Hp;
      cbn [mbind result_bind] in Hu; [|discriminate].
    apply Ok_inj in Hu. injection Hu as -> ->.
    destruct (readPayload_rewrite _ _ _ _ _ Hp eq_refl) as (Hm & Hb & Hbytes).
    unfold writePayload. cbn [concat].
    rewrite Hbytes, app_nil_r. f_equal. apply two_parts.
  - (* an error code and the payload *)
    unfold readErrorCode in Hu.
    destruct (Nat.ltb_spec (length data) (h + 4)) as [|Hl4]; [discriminate|].
    cbn [mbind result_bind] in Hu.
    destruct (readPayload _ data (h + 4)) as [[m1 o1]|?] eqn:Hp;
      cbn [mbind result_bind] in Hu; [|discriminate].
    apply Ok_inj in Hu. injection Hu as -> ->.
    destruct (readPayload_rewrite _ _ _ _ _ Hp eq_refl) as (Hm & Hb & Hbytes).
    unfold writeErrorCode, writePayload. rewrite Hm at 1.
    cbn [errorCode set_payload set_errorCode]. cbn [concat].
    rewrite Hbytes, be32_getUint32, app_nil_r by exact Hl4. f_equal.
    apply (three_parts data h 4). exact Hl4.
Qed.

Lemma marshal_unmarshal_plain_witness :
  let msg := audioMessage 1 [Byte.xaa] in
  unmarshalWithOffset audioFrame1 = Ok (msg, length audioFrame1)
  /\ flag msg <> MsgTypeFlagBits.WithEvent
  /\ 1 <= headerSize msg
  /\ (forall i : nat,
        (3 <= i < Z.to_nat (4 * headerSize msg))%nat ->
        audioFrame1 !! i = Some Byte.x00)
  /\ marshalMessage msg = Ok audioFrame1.
Proof.
  intros msg.
  assert (H1 : unmarshalWithOffset audioFrame1 = Ok (msg, length audioFrame1))
    by (vm_compute; reflexivity).
  assert (H2 : flag msg <> MsgTypeFlagBits.WithEvent) by discriminate.
  assert (H3 : 1 <= headerSize msg) by (change (1 <= 1); lia).
  assert (H4 : forall i : nat,
             (3 <= i < Z.to_nat (4 * headerSize msg))%nat ->
             audioFrame1 !! i = Some Byte.x00).
  { intros i Hi. change (Z.to_nat (4 * headerSize msg)) with 4%nat in Hi.
    assert (i = 3%nat) as -> by lia. reflexivity. }
  split; [exact H1|]. split; [exact H2|]. split; [exact H3|].
  split; [exact H4|]. exact (marshal_unmarshal_plain _ _ H1 H2 H3 H4).
Defined.

(** *** The send helpers *)

Lemma withEvent_readable (e : Z) (sessionId : option string)
    (payload : list byte) :
  inInt32 e = true ->
  readConnectId_reads e = false ->
  isSome sessionId = negb (writeSessionId_skips e) ->
  from_option (fun s => negb (String.eqb EmptyString s) && negb (hasBOM s)
     && (Z.of_nat (length (list_byte_of_string s)) <? 2 ^ 32)) true sessionId
  = true ->
  Z.of_nat (length payload) < 2 ^ 32 ->
  sendsReadable (marshalMessage (withEvent_message e sessionId payload))
    (withEvent_message e sessionId payload).
Proof.
  intros He Hc Hs Hsid Hp.
  set (m := withEvent_message e sessionId payload).
  assert (Hwf : wellFormed m = true).
  { unfold wellFormed. cbn. rewrite He. cbn.
    apply Z.ltb_lt in Hp. rewrite Hp, andb_true_r.
    destruct sessionId as [s|]; cbn in *; [|reflexivity].
    rewrite !andb_true_iff in Hsid. tauto. }
  assert (Hpr : presenceRules m = true).
  { unfold presenceRules. cbn. rewrite Hs.
    destruct (writeSessionId_skips e); reflexivity. }
  assert (Hdec : decodableAsWritten m = true).
  { unfold decodableAsWritten, sessionIdReadable, layoutReadable. cbn.
    rewrite Hc. cbn. rewrite andb_true_r.
    destruct sessionId as [s|]; cbn in *; [|reflexivity].
    rewrite !andb_true_iff in Hsid. rewrite andb_true_iff. tauto. }
  destruct (roundtrip_offset m Hwf Hpr Hdec) as (data & Hm & Hu).
  exists data. split; [exact Hm|]. unfold unmarshalMessage. rewrite Hu.
  reflexivity.
Qed.

(** The frames of the session helpers are read back as the messages they
    were built from. *)
Theorem session_helpers_readable (payload : list byte) (sessionId : string) :
  sessionId <> EmptyString ->
  hasBOM sessionId = false ->
  Z.of_nat (length (list_byte_of_string sessionId)) < 2 ^ 32 ->
  Z.of_nat (length payload) < 2 ^ 32 ->
  sendsReadable (StartSession payload sessionId)
    (StartSession_message payload sessionId)
  /\ sendsReadable (FinishSession sessionId) (FinishSession_message sessionId)
  /\ sendsReadable (CancelSession sessionId) (CancelSession_message sessionId)
  /\ sendsReadable (TaskRequest payload sessionId)
       (TaskRequest_message payload sessionId).
Proof.
  intros Hne Hbom Hlen Hp.
  assert (Hsid : from_option
            (fun s => negb (String.eqb EmptyString s) && negb (hasBOM s)
               && (Z.of_nat (length (list_byte_of_string s)) <? 2 ^ 32))
            true (Some sessionId) = true).
  { cbn. rewrite Hbom. apply Z.ltb_lt in Hlen. rewrite Hlen.
    destruct sessionId; [congruence|reflexivity]. }
  assert (Hj : Z.of_nat (length emptyJson) < 2 ^ 32) by (cbn; lia).
  repeat split; apply withEvent_readable;
    reflexivity || assumption.
Qed.

(** So are the frames of the connection helpers and of
    [FullClientRequest]. *)
Theorem plain_helpers_readable (payload : list byte) :
  Z.of_nat (length payload) < 2 ^ 32 ->
  sendsReadable StartConnection StartConnection_message
  /\ sendsReadable FinishConnection FinishConnection_message
  /\ sendsReadable (FullClientRequest payload)
       (FullClientRequest_message payload).
Proof.
  intros Hp.
  assert (Hj : Z.of_nat (length emptyJson) < 2 ^ 32) by (cbn; lia).
  split; [|split].
  - apply withEvent_readable; reflexivity || assumption.
  - apply withEvent_readable; reflexivity || assumption.
  - set (m := FullClientRequest_message payload).
    assert (Hwf : wellFormed m = true).
    { unfold wellFormed. cbn. apply Z.ltb_lt. exact Hp. }
    destruct (roundtrip_offset m Hwf eq_refl eq_refl) as (data & Hm & Hu).
    exists data. split; [exact Hm|]. unfold unmarshalMessage. rewrite Hu.
    reflexivity.
Qed.

(** X8.  What the send helpers put on the wire, [unmarshalMessage] reads
    back as the message the helper has built: for [StartSession],
    [FinishSession], [CancelSession] and [TaskRequest] when the session id is
    not empty and does not begin with a byte order mark, for
    [StartConnection], [FinishConnection] and [FullClientRequest] always
    (lengths below 2^32). *)
Theorem send_helpers_readable :
  (forall (payload : list byte) (sessionId : string),
      sessionId <> EmptyString ->
      hasBOM sessionId = false ->
      Z.of_nat (length (list_byte_of_string sessionId)) < 2 ^ 32 ->
      Z.of_nat (length payload) < 2 ^ 32 ->
      sendsReadable (StartSession payload sessionId)
        (StartSession_message payload sessionId)
      /\ sendsReadable (FinishSession sessionId)
           (FinishSession_message sessionId)
      /\ sendsReadable (CancelSession sessionId)
           (CancelSession_message sessionId)
      /\ sendsReadable (TaskRequest payload sessionId)
           (TaskRequest_message payload sessionId))
  /\ (forall payload : list byte,
      Z.of_nat (length payload) < 2 ^ 32 ->
      sendsReadable StartConnection StartConnection_message
      /\ sendsReadable FinishConnection FinishConnection_message
      /\ sendsReadable (FullClientRequest payload)
           (FullClientRequest_message payload)).
Proof. split; [exact session_helpers_readable|exact plain_helpers_readable]. Qed.

Lemma send_helpers_readable_witness :
  let payload := emptyJson in
  let sessionId := "abc"%string in
  (sessionId <> EmptyString /\ hasBOM sessionId = false
   /\ Z.of_nat (length (list_byte_of_string sessionId)) < 2 ^ 32
   /\ Z.of_nat (length payload) < 2 ^ 32)
  /\ sendsReadable (StartSession payload sessionId)
       (StartSession_message payload sessionId)
  /\ sendsReadable (TaskRequest payload sessionId)
       (TaskRequest_message payload sessionId)
  /\ sendsReadable StartConnection StartConnection_message
  /\ sendsReadable (FullClientRequest payload)
       (FullClientRequest_message payload).
Proof.
  intros payload sessionId.
  assert (H1 : sessionId <> EmptyString) by discriminate.
  assert (H2 : hasBOM sessionId = false) by reflexivity.
  assert (H3 : Z.of_nat (length (list_byte_of_string sessionId)) < 2 ^ 32)
    by (vm_compute; reflexivity).
  assert (H4 : Z.of_nat (length payload) < 2 ^ 32) by (vm_compute; reflexivity).
  split; [auto|].
  destruct (proj1 send_helpers_readable payload sessionId H1 H2 H3 H4)
    as (Hss & _ & _ & Htr).
  destruct (proj2 send_helpers_readable payload H4) as (Hsc & _ & Hfc).
  auto.
Defined.

(** A reader leaves a sequence number and an event in place, and the readers
    of the sequence number and of the event set one. *)
Lemma runReader_sets (r : Reader) (msg msg' : Message) (data : list byte)
    (offset offset' : nat) :
  runReader r msg data offset = Ok (msg', offset') ->
  (r <> RSequence -> sequence msg' = sequence msg)
  /\ (r = RSequence -> sequence msg' = Some (getInt32 data offset))
  /\ (r <> REvent -> event msg' = event msg)
  /\ (r = REvent -> isSome (event msg') = true).
Proof.
  destruct r; cbn [runReader];
    unfold readSequence, readErrorCode, readEvent, readSessionId,
      readConnectId, readPayload;
    repeat match goal with
      | |- context [match ?x with _ => _ end] => destruct x eqn:?
      end;
    intros [= <- <-] || discriminate;
    repeat split; intros; cbn; congruence.
Qed.

Lemma AudioOnlyClient_frame (payload : list byte) (f : Z) :
  AudioOnlyClient payload f
  = Ok (headerBytes (AudioOnlyClient_message payload f)
        ++ be32 (Z.of_nat (length payload)) ++ payload).
Proof.
  unfold AudioOnlyClient, marshalMessage, getWriters.
  set (m := AudioOnlyClient_message payload f).
  change (4 * headerSize m <? 0) with false.
  change (isContentType (type m)) with true.
  change (flag m) with f. cbv iota.
  destruct (f =? MsgTypeFlagBits.WithEvent), (isSeqFlag f);
    cbn [app mbind result_bind omap list_omap runWriter];
    unfold writeEvent, writeSessionId, writeSequence, writePayload;
    cbn; rewrite ?app_nil_r; reflexivity.
Qed.

(** X9.  [AudioOnlyClient] sets no sequence number, whatever flag it is
    given.  Its frame is read back as the message it has built exactly when
    the flag is neither a sequence flag nor [WithEvent]; with a sequence flag
    the decoder takes the length of the payload for the sequence number. *)
Theorem AudioOnlyClient_flag (payload : list byte) (f : Z) :
  is4bit f = true ->
  Z.of_nat (length payload) < 2 ^ 31 ->
  (sendsReadable (AudioOnlyClient payload f)
     (AudioOnlyClient_message payload f)
   <-> isSeqFlag f = false /\ f <> MsgTypeFlagBits.WithEvent)
  /\ (isSeqFlag f = true ->
      forall (data : list byte) (msg : Message),
        AudioOnlyClient payload f = Ok data ->
        unmarshalMessage data = Ok msg ->
        sequence msg = Some (Z.of_nat (length payload))).
Proof.
  intros Hf Hp.
  set (m := AudioOnlyClient_message payload f).
  assert (Hh : headerFieldsOk m = true).
  { unfold headerFieldsOk. cbn. rewrite Hf. reflexivity. }
  assert (Hframe := unmarshal_frame m (be32 (Z.of_nat (length payload)) ++ payload) Hh).
  unfold getReaders in Hframe. cbn [headerOf type flag m AudioOnlyClient_message
    set_payload createMessage isContentType] in Hframe.
  change (isContentType MsgType.AudioOnlyClient) with true in Hframe.
  cbv iota in Hframe. fold m in Hframe.
  split.
  - split.
    + intros (data & Hs & Hu). rewrite AudioOnlyClient_frame in Hs.
      apply Ok_inj in Hs. subst data. fold m in Hu.
      unfold unmarshalMessage in Hu. rewrite Hframe in Hu.
      cbn [mbind result_bind] in Hu.
      destruct (isSeqFlag f) eqn:Hsq.
      * exfalso.
        assert (Hfe : (f =? MsgTypeFlagBits.WithEvent) = false).
        { destruct (flag_cases f) as [[_ H]|H]; [congruence|exact H]. }
        rewrite Hfe in Hu. cbn [app runReaders] in Hu.
        destruct (runReader RSequence _ _ _) as [[m1 o1]|?] eqn:H1;
          cbn [mbind result_bind] in Hu; [|discriminate].
        destruct (runReader RPayload m1 _ o1) as [[m3 o3]|?] eqn:H3;
          cbn [mbind result_bind fmap result_fmap fst] in Hu; [|discriminate].
        apply Ok_inj in Hu. subst m3.
        apply runReader_sets in H1 as (_ & H1 & _).
        apply runReader_sets in H3 as (H3 & _).
        rewrite H1 in H3 by reflexivity. specialize (H3 ltac:(discriminate)).
        discriminate H3.
      * split; [reflexivity|]. intros ->. cbn [Z.eqb] in Hu.
        change (MsgTypeFlagBits.WithEvent =? MsgTypeFlagBits.WithEvent)
          with true in Hu.
        cbn [app runReaders] in Hu.
        destruct (runReader REvent _ _ _) as [[m1 o1]|?] eqn:H1;
          cbn [mbind result_bind] in Hu; [|discriminate].
        destruct (runReader RSessionId m1 _ o1) as [[m2 o2]|?] eqn:H2;
          cbn [mbind result_bind] in Hu; [|discriminate].
        destruct (runReader RConnectId m2 _ o2) as [[m3 o3]|?] eqn:H3;
          cbn [mbind result_bind] in Hu; [|discriminate].
        destruct (runReader RPayload m3 _ o3) as [[m4 o4]|?] eqn:H4;
          cbn [mbind result_bind fmap result_fmap fst] in Hu; [|discriminate].
        apply Ok_inj in Hu. subst m4.
        apply runReader_sets in H1 as (_ & _ & _ & H1).
        apply runReader_sets in H2 as (_ & _ & H2 & _).
        apply runReader_sets in H3 as (_ & _ & H3 & _).
        apply runReader_sets in H4 as (_ & _ & H4 & _).
        specialize (H1 eq_refl). specialize (H2 ltac:(discriminate)).
        specialize (H3 ltac:(discriminate)). specialize (H4 ltac:(discriminate)).
        rewrite <- H2, <- H3, <- H4 in H1. discriminate H1.
    + intros [Hsq Hne].
      assert (Hwf : wellFormed m = true).
      { unfold wellFormed. rewrite Hh. cbn. apply Z.ltb_lt. lia. }
      assert (Hpr : presenceRules m = true).
      { unfold presenceRules. cbn. rewrite Hsq.
        destruct (Z.eqb_spec f MsgTypeFlagBits.WithEvent); [contradiction|].
        reflexivity. }
      destruct (roundtrip_offset m Hwf Hpr eq_refl) as (data & Hm & Hu).
      exists data. split; [exact Hm|]. unfold unmarshalMessage. rewrite Hu.
      reflexivity.
  - intros Hsq data msg Hs Hu. rewrite AudioOnlyClient_frame in Hs.
    apply Ok_inj in Hs. subst data. fold m in Hu.
    unfold unmarshalMessage in Hu. rewrite Hframe in Hu.
    cbn [mbind result_bind] in Hu. rewrite Hsq in Hu.
    assert (Hfe : (f =? MsgTypeFlagBits.WithEvent) = false).
    { destruct (flag_cases f) as [[_ H]|H]; [congruence|exact H]. }
    rewrite Hfe in Hu. cbn [app runReaders] in Hu.
    destruct (runReader RSequence _ _ _) as [[m1 o1]|?] eqn:H1;
      cbn [mbind result_bind] in Hu; [|discriminate].
    destruct (runReader RPayload m1 _ o1) as [[m3 o3]|?] eqn:H3;
      cbn [mbind result_bind fmap result_fmap fst] in Hu; [|discriminate].
    injection Hu as ->.
    apply runReader_sets in H1 as (_ & H1 & _).
    apply runReader_sets in H3 as (H3 & _).
    rewrite H3, H1 by discriminate || reflexivity. f_equal.
    apply (getInt32_be32 _ (headerBytes m) payload). lia.
Qed.

Lemma AudioOnlyClient_flag_witness :
  let audio := [Byte.x00; Byte.x00; Byte.x00; Byte.x00] in
  (is4bit MsgTypeFlagBits.NoSeq = true /\ Z.of_nat (length audio) < 2 ^ 31
   /\ sendsReadable (AudioOnlyClient audio MsgTypeFlagBits.NoSeq)
        (AudioOnlyClient_message audio MsgTypeFlagBits.NoSeq))
  /\ (is4bit MsgTypeFlagBits.PositiveSeq = true
      /\ isSeqFlag MsgTypeFlagBits.PositiveSeq = true
      /\ ~ sendsReadable (AudioOnlyClient audio MsgTypeFlagBits.PositiveSeq)
            (AudioOnlyClient_message audio MsgTypeFlagBits.PositiveSeq)
      /\ exists data msg,
           AudioOnlyClient audio MsgTypeFlagBits.PositiveSeq = Ok data
           /\ unmarshalMessage data = Ok msg
           /\ sequence msg = Some 4
           /\ payload msg = []).
Proof.
  intros audio.
  assert (H0 : is4bit MsgTypeFlagBits.NoSeq = true) by reflexivity.
  assert (H1 : is4bit MsgTypeFlagBits.PositiveSeq = true) by reflexivity.
  assert (Hp : Z.of_nat (length audio) < 2 ^ 31) by (vm_compute; reflexivity).
  assert (Hs : isSeqFlag MsgTypeFlagBits.PositiveSeq = true) by reflexivity.
  split.
  - split; [exact H0|]. split; [exact Hp|].
    apply (proj1 (AudioOnlyClient_flag audio _ H0 Hp)).
    split; [reflexivity|discriminate].
  - split; [exact H1|]. split; [exact Hs|]. split.
    + intros Hr.
      apply (proj1 (AudioOnlyClient_flag audio _ H1 Hp)) in Hr as [Hr _].
      discriminate Hr.
    + set (data := [Byte.x11; Byte.x21; Byte.x10; Byte.x00;
                    Byte.x00; Byte.x00; Byte.x00; Byte.x04;
                    Byte.x00; Byte.x00; Byte.x00; Byte.x00]).
      exists data. eexists.
      assert (Hd : AudioOnlyClient audio MsgTypeFlagBits.PositiveSeq = Ok data)
        by (vm_compute; reflexivity).
      assert (Hu : unmarshalMessage data = Ok _) by reflexivity.
      split; [exact Hd|]. split; [exact Hu|].
      split; [exact (proj2 (AudioOnlyClient_flag audio _ H1 Hp) Hs _ _ Hd Hu)|].
      reflexivity.
Defined.

(** ** Further properties of the registry *)

(** X10.  A listener or a call on one socket leaves the queue and the waiter
    list of every other socket as they are. *)
Theorem sockets_isolated (reg : Registry) (a : Action) (ws : WebSocket) :
  socketOf a <> ws ->
  messageQueues (step reg a) !! ws = messageQueues reg !! ws
  /\ messageCallbacks (step reg a) !! ws = messageCallbacks reg !! ws.
Proof.
  destruct a as [ws0 data|ws0|ws0 w|ws0]; cbn [step socketOf]; intros Hne.
  - unfold onMessage.
    destruct (unmarshalMessage data) as [msg|e]; [|split; reflexivity].
    destruct (messageCallbacks reg !! ws0) as [[|cb cbs]|];
      [| |split; reflexivity].
    + destruct (messageQueues reg !! ws0) as [q|]; [|split; reflexivity].
      cbn. rewrite lookup_insert_ne by exact Hne. split; reflexivity.
    + cbn. rewrite lookup_insert_ne by exact Hne. split; reflexivity.
  - unfold ReceiveMessage, setupMessageHandler.
    destruct (messageQueues reg !! ws0) as [q|] eqn:Hq.
    + rewrite Hq. cbn [default]. destruct q as [|msg q]; cbn;
        rewrite lookup_insert_ne by exact Hne; split; reflexivity.
    + cbn. rewrite !lookup_insert_eq. cbn.
      rewrite !lookup_insert_ne by exact Hne. split; reflexivity.
  - unfold errorHandler.
    destruct (messageCallbacks reg !! ws0) as [cbs|]; [|split; reflexivity].
    destruct (list_find _ cbs) as [[i x]|]; [|split; reflexivity].
    cbn. rewrite lookup_insert_ne by exact Hne. split; reflexivity.
  - unfold onClose. cbn. rewrite !lookup_delete_ne by exact Hne.
    split; reflexivity.
Qed.

Lemma sockets_isolated_witness :
  let reg := run [Receive 1%positive; Frame 1%positive statusFrame;
                  Frame 1%positive audioFrame1; Receive 2%positive] in
  socketOf (Close 2%positive) <> 1%positive
  /\ messageQueues (step reg (Close 2%positive)) !! 1%positive
     = messageQueues reg !! 1%positive
  /\ messageCallbacks (step reg (Close 2%positive)) !! 1%positive
     = messageCallbacks reg !! 1%positive.
Proof.
  intros reg.
  assert (H : socketOf (Close 2%positive) <> 1%positive) by discriminate.
  split; [exact H|]. exact (sockets_isolated reg (Close 2%positive) 1%positive H).
Defined.

(** What a step does to the waiter list of a socket: it takes resolvers out,
    or it is a call on that socket and puts the new resolver last. *)
Lemma step_waitersOf (reg : Registry) (a : Action) (ws' : WebSocket) :
  (nextWaiter reg <= nextWaiter (step reg a))%nat
  /\ (waitersOf ws' (step reg a) `sublist_of` waitersOf ws' reg
      \/ a = Receive ws'
         /\ nextWaiter (step reg a) = S (nextWaiter reg)
         /\ exists l, l `sublist_of` waitersOf ws' reg
              /\ waitersOf ws' (step reg a) = l ++ [nextWaiter reg]).
Proof.
  unfold waitersOf.
  destruct a as [ws data|ws|ws w|ws]; cbn [step].
  - unfold onMessage.
    destruct (unmarshalMessage data) as [msg|e]; [|split; [lia|left; reflexivity]].
    destruct (messageCallbacks reg !! ws) as [[|cb cbs]|] eqn:Hcb;
      [| |split; [lia|left; reflexivity]].
    + destruct (messageQueues reg !! ws) as [q|] eqn:Hq;
        [|split; [lia|left; reflexivity]].
      cbn. split; [lia|left; reflexivity].
    + cbn. split; [lia|left].
      destruct (decide (ws = ws')) as [<-|Hne].
      * rewrite lookup_insert_eq, Hcb. cbn. apply sublist_cons. reflexivity.
      * rewrite lookup_insert_ne by exact Hne. reflexivity.
  - unfold ReceiveMessage, setupMessageHandler.
    destruct (messageQueues reg !! ws) as [q|] eqn:Hq.
    + rewrite Hq. cbn [default]. destruct q as [|msg q]; cbn.
      * split; [lia|].
        destruct (decide (ws = ws')) as [<-|Hne].
        -- right. split; [reflexivity|]. split; [reflexivity|].
           exists (default [] (messageCallbacks reg !! ws)).
           split; [reflexivity|]. rewrite lookup_insert_eq. reflexivity.
        -- left. rewrite lookup_insert_ne by exact Hne. reflexivity.
      * split; [lia|left; reflexivity].
    + cbn. rewrite !lookup_insert_eq. cbn. split; [lia|].
      destruct (decide (ws = ws')) as [<-|Hne].
      * right. split; [reflexivity|]. split; [reflexivity|].
        exists []. split; [apply sublist_nil_l|].
        rewrite lookup_insert_eq. reflexivity.
      * left. rewrite !lookup_insert_ne by exact Hne. reflexivity.
  - unfold errorHandler. split.
    + destruct (messageCallbacks reg !! ws) as [cbs|]; [|lia].
      destruct (list_find _ cbs) as [[i x]|]; cbn; lia.
    + left.
      destruct (messageCallbacks reg !! ws) as [cbs|] eqn:Hcb; [|reflexivity].
      destruct (list_find _ cbs) as [[i x]|] eqn:Hf; [|reflexivity].
      cbn. destruct (decide (ws = ws')) as [<-|Hne].
      * rewrite lookup_insert_eq, Hcb. cbn. apply sublist_delete.
      * rewrite lookup_insert_ne by exact Hne. reflexivity.
  - unfold onClose. cbn. split; [lia|left].
    destruct (decide (ws = ws')) as [<-|Hne].
    + rewrite lookup_delete_eq. apply sublist_nil_l.
    + rewrite lookup_delete_ne by exact Hne. reflexivity.
Qed.

Lemma waiters_step (reg : Registry) (a : Action) :
  waitersFresh reg /\ waitersDistinct reg ->
  waitersFresh (step reg a) /\ waitersDistinct (step reg a).
Proof.
  intros [Hfresh [Hnodup Hone]].
  assert (Hin : forall ws w,
             w ∈ waitersOf ws (step reg a) ->
             w ∈ waitersOf ws reg
             \/ w = nextWaiter reg /\ a = Receive ws
                /\ nextWaiter (step reg a) = S (nextWaiter reg)).
  { intros ws w Hw.
    destruct (step_waitersOf reg a ws) as [_ [Hsub|(Ha & Hn & l & Hsub & Heq)]].
    - left. exact (elem_of_sublist _ _ _ Hw Hsub).
    - rewrite Heq in Hw. apply elem_of_app in Hw as [Hw|Hw].
      + left. exact (elem_of_sublist _ _ _ Hw Hsub).
      + right. apply list_elem_of_singleton in Hw. auto. }
  split; [|split].
  - intros ws w Hw. pose proof (proj1 (step_waitersOf reg a ws)) as Hle.
    destruct (Hin ws w Hw) as [Hold|(-> & _ & Hn)].
    + specialize (Hfresh ws w Hold). lia.
    + lia.
  - intros ws.
    destruct (step_waitersOf reg a ws) as [_ [Hsub|(Ha & Hn & l & Hsub & Heq)]].
    + exact (sublist_NoDup _ _ (Hnodup ws) Hsub).
    + rewrite Heq. apply NoDup_app. split; [|split].
      * exact (sublist_NoDup _ _ (Hnodup ws) Hsub).
      * intros w Hw Hw'. apply list_elem_of_singleton in Hw'. subst w.
        specialize (Hfresh ws _ (elem_of_sublist _ _ _ Hw Hsub)). lia.
      * apply NoDup_singleton.
  - intros ws1 ws2 w H1 H2.
    destruct (Hin ws1 w H1) as [Hold1|(Hw1 & Ha1 & _)];
      destruct (Hin ws2 w H2) as [Hold2|(Hw2 & Ha2 & _)].
    + exact (Hone ws1 ws2 w Hold1 Hold2).
    + subst w. specialize (Hfresh ws1 _ Hold1). lia.
    + subst w. specialize (Hfresh ws2 _ Hold2). lia.
    + congruence.
Qed.

Lemma waiters_run (actions : list Action) :
  waitersFresh (run actions) /\ waitersDistinct (run actions).
Proof.
  unfold run.
  assert (Hgen : forall reg,
             waitersFresh reg /\ waitersDistinct reg ->
             waitersFresh (fold_left step actions reg)
             /\ waitersDistinct (fold_left step actions reg)).
  { induction actions as [|a actions IH]; intros reg Hinv; [exact Hinv|].
    cbn [fold_left]. apply IH, waiters_step, Hinv. }
  apply Hgen. split; [|split].
  - intros ws w Hw. apply elem_of_nil in Hw. contradiction.
  - intros ws. apply NoDup_nil_2.
  - intros ws1 ws2 w Hw. apply elem_of_nil in Hw. contradiction.
Qed.

Lemma retired_step (w : Waiter) (reg : Registry) (a : Action) :
  retired w reg -> retired w (step reg a).
Proof.
  intros [Hlt Hout]. split.
  - pose proof (proj1 (step_waitersOf reg a 1%positive)). lia.
  - intros ws Hw.
    destruct (step_waitersOf reg a ws) as [_ [Hsub|(Ha & Hn & l & Hsub & Heq)]].
    + exact (Hout ws (elem_of_sublist _ _ _ Hw Hsub)).
    + rewrite Heq in Hw. apply elem_of_app in Hw as [Hw|Hw].
      * exact (Hout ws (elem_of_sublist _ _ _ Hw Hsub)).
      * apply list_elem_of_singleton in Hw. lia.
Qed.

Lemma retired_fold (w : Waiter) (actions : list Action) (reg : Registry) :
  retired w reg -> retired w (fold_left step actions reg).
Proof.
  revert reg. induction actions as [|a actions IH]; intros reg Hinv.
  - exact Hinv.
  - cbn [fold_left]. apply IH, retired_step, Hinv.
Qed.

(** The listener resolves the first waiter of its socket. *)
Lemma onMessage_resolves (ws : WebSocket) (data : list byte)
    (reg reg' : Registry) (w : Waiter) (msg : Message) :
  onMessage ws data reg = Ok (reg', Some (w, msg)) ->
  unmarshalMessage data = Ok msg
  /\ nextWaiter reg' = nextWaiter reg
  /\ messageQueues reg' = messageQueues reg
  /\ exists rest,
       messageCallbacks reg !! ws = Some (w :: rest)
       /\ messageCallbacks reg' = <[ws := rest]> (messageCallbacks reg).
Proof.
  unfold onMessage.
  destruct (unmarshalMessage data) as [m|e]; [|discriminate].
  destruct (messageCallbacks reg !! ws) as [[|cb cbs]|]; [| |discriminate].
  - destruct (messageQueues reg !! ws); discriminate.
  - intros [= <- <- <-]. repeat split. exists cbs. split; reflexivity.
Qed.

Lemma retired_not_resolved (w : Waiter) (reg reg' : Registry) (ws : WebSocket)
    (data : list byte) (w' : Waiter) (msg : Message) :
  retired w reg ->
  onMessage ws data reg = Ok (reg', Some (w', msg)) -> w' <> w.
Proof.
  intros [_ Hout] Hon ->.
  apply onMessage_resolves in Hon as (_ & _ & _ & rest & Hcb & _).
  apply (Hout ws). unfold waitersOf. rewrite Hcb. cbn. apply list_elem_of_here.
Qed.

(** X11.  A pending call is resolved once: after the listener has called a
    resolver, no later run of the listener, on any socket and after any
    further handlers and calls, calls that resolver again. *)
Theorem resolved_once (actions more : list Action) (ws ws' : WebSocket)
    (data data' : list byte) (reg' reg'' : Registry) (w w' : Waiter)
    (msg msg' : Message) :
  onMessage ws data (run actions) = Ok (reg', Some (w, msg)) ->
  onMessage ws' data' (fold_left step more reg') = Ok (reg'', Some (w', msg')) ->
  w' <> w.
Proof.
  intros Hon. apply retired_not_resolved, retired_fold.
  destruct (waiters_run actions) as [Hfresh [Hnodup Hone]].
  destruct (onMessage_resolves _ _ _ _ _ _ Hon) as (_ & Hn & _ & rest & Hcb & Hcb').
  assert (Hw : w ∈ waitersOf ws (run actions)).
  { unfold waitersOf. rewrite Hcb. apply list_elem_of_here. }
  split.
  - rewrite Hn. exact (Hfresh ws w Hw).
  - intros ws0 Hw0. unfold waitersOf in Hw0. rewrite Hcb' in Hw0.
    destruct (decide (ws = ws0)) as [<-|Hne].
    + rewrite lookup_insert_eq in Hw0. cbn in Hw0.
      specialize (Hnodup ws). unfold waitersOf in Hnodup. rewrite Hcb in Hnodup.
      cbn in Hnodup. apply NoDup_cons in Hnodup as [Hnot _]. contradiction.
    + rewrite lookup_insert_ne in Hw0 by exact Hne.
      apply Hne. exact (Hone ws ws0 w Hw Hw0).
Qed.

Lemma resolved_once_witness :
  let ws := 1%positive in
  exists reg' reg'' w w' msg msg',
    onMessage ws audioFrame1 (run [Receive ws; Receive ws])
    = Ok (reg', Some (w, msg))
    /\ onMessage ws audioFrame2 (fold_left step [Receive ws] reg')
       = Ok (reg'', Some (w', msg'))
    /\ w = 0%nat /\ w' = 1%nat /\ w' <> w.
Proof.
  intros ws.
  set (reg' := match onMessage ws audioFrame1 (run [Receive ws; Receive ws])
               with Ok (reg, _) => reg | Err _ => emptyRegistry end).
  exists reg'. do 5 eexists.
  assert (H1 : onMessage ws audioFrame1 (run [Receive ws; Receive ws])
               = Ok (reg', Some (0%nat, _))) by (vm_compute; reflexivity).
  assert (H2 : onMessage ws audioFrame2 (fold_left step [Receive ws] reg')
               = Ok (_, Some (1%nat, _))) by (vm_compute; reflexivity).
  split; [exact H1|]. split; [exact H2|].
  split; [reflexivity|]. split; [reflexivity|].
  exact (resolved_once _ _ _ _ _ _ _ _ _ _ _ _ H1 H2).
Defined.

(** X12.  After the close listener has run the socket has no arrays: the
    message listener throws on whatever arrives, what was queued is gone (the
    next [ReceiveMessage] waits), and a call that was pending is never
    resolved, whatever happens later. *)
Theorem closed_never_settled (actions : list Action) (ws : WebSocket) :
  let closed := onClose ws (run actions) in
  (forall data : list byte, exists e, onMessage ws data closed = Err e)
  /\ (exists reg', ReceiveMessage ws closed = (reg', inr (nextWaiter closed)))
  /\ (forall (w : Waiter) (more : list Action) (ws' : WebSocket)
            (data : list byte) (reg' : Registry) (w' : Waiter) (msg : Message),
        w ∈ waitersOf ws (run actions) ->
        onMessage ws' data (fold_left step more closed)
        = Ok (reg', Some (w', msg)) ->
        w' <> w).
Proof.
  intros closed. split; [|split].
  - intros data. unfold onMessage, closed, onClose.
    cbn [messageCallbacks messageQueues]. rewrite lookup_delete_eq.
    destruct (unmarshalMessage data); eexists; reflexivity.
  - unfold ReceiveMessage, setupMessageHandler, closed, onClose.
    cbn [messageCallbacks messageQueues nextWaiter].
    rewrite lookup_delete_eq. cbn [messageCallbacks messageQueues nextWaiter].
    rewrite !lookup_insert_eq. cbn [default]. eexists. reflexivity.
  - intros w more ws' data reg' w' msg Hw.
    apply retired_not_resolved, retired_fold.
    destruct (waiters_run actions) as [Hfresh [Hnodup Hone]].
    split.
    + exact (Hfresh ws w Hw).
    + intros ws0 Hw0. unfold waitersOf, closed, onClose in Hw0. cbn in Hw0.
      destruct (decide (ws = ws0)) as [<-|Hne].
      * rewrite lookup_delete_eq in Hw0. cbn in Hw0.
        apply elem_of_nil in Hw0. contradiction.
      * rewrite lookup_delete_ne in Hw0 by exact Hne.
        apply Hne. exact (Hone ws ws0 w Hw Hw0).
Qed.

Lemma closed_never_settled_witness :
  let ws := 1%positive in
  let actions := [Receive ws; Frame ws statusFrame; Frame ws audioFrame1;
                  Receive ws; Receive ws] in
  let closed := onClose ws (run actions) in
  waitersOf ws (run actions) = [1%nat]
  /\ (exists e, onMessage ws audioFrame2 closed = Err e)
  /\ (exists reg' w' msg,
        onMessage ws audioFrame1 (fold_left step [Receive ws] closed)
        = Ok (reg', Some (w', msg))
        /\ w' = 2%nat /\ w' <> 1%nat).
Proof.
  intros ws actions closed.
  assert (Hw : waitersOf ws (run actions) = [1%nat]) by (vm_compute; reflexivity).
  assert (Hin : 1%nat ∈ waitersOf ws (run actions))
    by (rewrite Hw; apply list_elem_of_here).
  destruct (closed_never_settled actions ws) as (Hdrop & _ & Hnever).
  split; [exact Hw|]. split; [exact (Hdrop audioFrame2)|].
  do 3 eexists.
  assert (H : onMessage ws audioFrame1 (fold_left step [Receive ws] closed)
              = Ok (_, Some (2%nat, _))) by (vm_compute; reflexivity).
  split; [exact H|]. split; [reflexivity|].
  exact (Hnever 1%nat [Receive ws] ws audioFrame1 _ _ _ Hin H).
Defined.

Lemma filter_absent (w : Waiter) (l : list Waiter) :
  w ∉ l -> filter (fun cb => cb <> w) l = l.
Proof.
  induction l as [|a l IH]; intros Hw; [reflexivity|].
  apply not_elem_of_cons in Hw as [Hne Hw].
  rewrite filter_cons.
  destruct (decide (a <> w)) as [_|Hn]; [|exfalso; apply Hn; congruence].
  rewrite IH by exact Hw. reflexivity.
Qed.

Lemma delete_found (w : Waiter) (l : list Waiter) (i : nat) (x : Waiter) :
  NoDup l ->
  list_find (fun cb => cb = w) l = Some (i, x) ->
  delete i l = filter (fun cb => cb <> w) l.
Proof.
  intros Hnd. revert i. induction l as [|a l IH]; intros i; [discriminate|].
  apply NoDup_cons in Hnd as [Ha Hnd]. cbn [list_find].
  destruct (decide (a = w)) as [->|Hne].
  - intros [= <- <-]. cbn [delete list_delete].
    rewrite filter_cons.
    destruct (decide (w <> w)) as [Hn|_]; [exfalso; apply Hn; reflexivity|].
    symmetry. apply filter_absent, Ha.
  - rewrite filter_cons. destruct (decide (a <> w)) as [_|Hn]; [|contradiction].
    destruct (list_find _ l) as [[j y]|] eqn:Hf; [|discriminate].
    intros [= <- <-]. cbn [delete list_delete].
    f_equal. apply (IH Hnd j eq_refl).
Qed.

(** X13.  In every state that the handlers and calls can reach, the error
    handler of a pending call takes its own resolver out of the waiter list
    of its socket and nothing else: the other waiters stay, in their order,
    and the queues are left alone. *)
Theorem errorHandler_removes (actions : list Action) (ws : WebSocket)
    (resolver : Waiter) :
  let reg := run actions in
  waitersOf ws (errorHandler ws resolver reg)
  = filter (fun cb => cb <> resolver) (waitersOf ws reg)
  /\ (resolver ∉ waitersOf ws (errorHandler ws resolver reg))
  /\ messageQueues (errorHandler ws resolver reg) = messageQueues reg
  /\ nextWaiter (errorHandler ws resolver reg) = nextWaiter reg.
Proof.
  intros reg.
  assert (Heq : waitersOf ws (errorHandler ws resolver reg)
                = filter (fun cb => cb <> resolver) (waitersOf ws reg)).
  { destruct (waiters_run actions) as [_ [Hnodup _]].
    specialize (Hnodup ws). fold reg in Hnodup.
    unfold waitersOf, errorHandler in *.
    destruct (messageCallbacks reg !! ws) as [cbs|] eqn:Hcb.
    - cbn in Hnodup |- *.
      destruct (list_find _ cbs) as [[i x]|] eqn:Hf.
      + cbn. rewrite lookup_insert_eq. cbn.
        exact (delete_found _ _ _ _ Hnodup Hf).
      + rewrite Hcb. cbn. symmetry. apply filter_absent.
        apply list_find_None in Hf. rewrite Forall_forall in Hf.
        intros Hin. exact (Hf _ Hin eq_refl).
    - rewrite Hcb. reflexivity. }
  split; [exact Heq|]. split.
  - rewrite Heq. intros Hin. apply list_elem_of_filter in Hin as [Hne _].
    apply Hne. reflexivity.
  - unfold errorHandler.
    destruct (messageCallbacks reg !! ws) as [cbs|]; [|split; reflexivity].
    destruct (list_find _ cbs) as [[i x]|]; split; reflexivity.
Qed.

Lemma errorHandler_removes_witness :
  let ws := 1%positive in
  let reg := run [Receive ws; Receive ws; Receive ws] in
  waitersOf ws reg = [0; 1; 2]%nat
  /\ waitersOf ws (errorHandler ws 1%nat reg) = [0; 2]%nat
  /\ waitersOf ws (errorHandler ws 7%nat reg) = [0; 1; 2]%nat.
Proof.
  intros ws reg. unfold reg.
  split; [vm_compute; reflexivity|]. split.
  - rewrite (proj1 (errorHandler_removes [Receive ws; Receive ws; Receive ws]
                      ws 1%nat)).
    vm_compute. reflexivity.
  - rewrite (proj1 (errorHandler_removes [Receive ws; Receive ws; Receive ws]
                      ws 7%nat)).
    vm_compute. reflexivity.
Defined.

Lemma resolvedWith_app (w : Waiter) (l l' : list (Waiter * Message)) :
  resolvedWith w (l ++ l')
  = match resolvedWith w l with
    | Some msg => Some msg
    | None => resolvedWith w l'
    end.
Proof.
  induction l as [|[w0 m0] l IH]; cbn; [reflexivity|].
  destruct (w0 =? w)%nat; [reflexivity|exact IH].
Qed.

Lemma resolvedWith_fresh (w : Waiter) (l : list (Waiter * Message)) :
  (forall w' msg, (w', msg) ∈ l -> w' <> w) -> resolvedWith w l = None.
Proof.
  induction l as [|[w0 m0] l IH]; intros H; cbn; [reflexivity|].
  destruct (Nat.eqb_spec w0 w) as [->|_].
  - exfalso. apply (H w m0); [apply list_elem_of_here|reflexivity].
  - apply IH. intros w' msg Hin. apply (H w' msg). apply list_elem_of_further, Hin.
Qed.

Lemma play_snoc (ws : WebSocket) (moves : list Move) (m : Move) (reg : Registry) :
  play ws (moves ++ [m]) reg = playMove ws (play ws moves reg) m.
Proof. unfold play. rewrite fold_left_app. reflexivity. Qed.

Lemma arrivals_snoc (moves : list Move) (m : Move) :
  arrivals (moves ++ [m])
  = arrivals moves ++ match arrived m with Some msg => [msg] | None => [] end.
Proof.
  unfold arrivals. rewrite omap_app. cbn. destruct (arrived m); reflexivity.
Qed.

Lemma settledWith_calls_snoc (reg reg' : Registry) (cs : list (Message + Waiter))
    (r : Message + Waiter) (rs : list (Waiter * Message)) (i : nat) :
  (i < length cs)%nat ->
  settledWith (mkPlay reg' (cs ++ [r]) rs) i = settledWith (mkPlay reg cs rs) i.
Proof.
  intros Hi. unfold settledWith. cbn [calls resolutions].
  rewrite lookup_app_l by exact Hi. reflexivity.
Qed.

Lemma drop_lookup_head {A : Type} (l : list A) (n : nat) (x : A) (rest : list A) :
  drop n l = x :: rest -> l !! n = Some x /\ drop (S n) l = rest /\ (n < length l)%nat.
Proof.
  intros Hd.
  assert (Hn : (n < length l)%nat).
  { destruct (Nat.lt_ge_cases n (length l)) as [H|H]; [exact H|].
    rewrite drop_ge in Hd by exact H. discriminate. }
  split; [|split; [|exact Hn]].
  - rewrite <- (Nat.add_0_r n), <- lookup_drop, Hd. reflexivity.
  - replace (S n) with (n + 1)%nat by lia. rewrite <- drop_drop, Hd. reflexivity.
Qed.

Lemma drop_nil_length {A : Type} (l : list A) (n : nat) :
  drop n l = [] -> (length l <= n)%nat.
Proof.
  intros Hd. apply (f_equal length) in Hd. rewrite length_drop in Hd.
  cbn in Hd. lia.
Qed.

Lemma playInv_step (ws : WebSocket) (moves : list Move) (m : Move) (p : Play) :
  PlayInv ws moves p -> PlayInv ws (moves ++ [m]) (playMove ws p m).
Proof.
  intros [Hq (W & Hcb & HW & Hnd & Hun) Hfr Hfr' Hset].
  destruct p as [reg cs rs]. cbn [registry calls resolutions] in *.
  set (F := arrivals moves) in *.
  pose proof (arrivals_snoc moves m) as HF. fold F in HF.
  destruct m as [data|]; cbn [playMove arrived registry] in *.
  - (* a frame *)
    destruct (unmarshalMessage data) as [msg|e] eqn:Hdec.
    + destruct W as [|w W'].
      * (* nobody waits: the message is queued *)
        rewrite (onMessage_queued ws data reg msg _ Hdec Hcb Hq).
        cbn [map] in HW. symmetry in HW. apply drop_nil_length in HW.
        constructor; cbn [registry calls resolutions]; rewrite ?HF.
        -- rewrite setQueue_queue. rewrite drop_app_le by exact HW. reflexivity.
        -- exists []. rewrite setQueue_callbacks. split; [exact Hcb|].
           split; [|split; [exact Hnd|exact Hun]].
           rewrite drop_ge by (rewrite length_app; cbn; lia). reflexivity.
        -- exact Hfr.
        -- exact Hfr'.
        -- intros i Hi. rewrite lookup_app_l by lia.
           rewrite <- (Hset i Hi). reflexivity.
      * (* the first waiter is resolved *)
        rewrite (onMessage_waiting ws data reg msg w W' Hdec Hcb).
        cbn [map] in HW. symmetry in HW.
        destruct (drop_lookup_head _ _ _ _ HW) as (Hhead & Htail & Hlen).
        apply NoDup_cons in Hnd as [Hw Hnd].
        assert (Hfw : (w < nextWaiter reg)%nat).
        { apply Hfr'. apply list_elem_of_lookup. exists (length F). exact Hhead. }
        constructor; cbn [registry calls resolutions messageQueues
                            messageCallbacks nextWaiter]; rewrite ?HF.
        -- rewrite Hq. rewrite !drop_ge by (rewrite ?length_app; cbn; lia).
           reflexivity.
        -- exists W'. rewrite lookup_insert_eq. split; [reflexivity|].
           split; [|split; [exact Hnd|]].
           ++ rewrite length_app. cbn [length].
              replace (length F + 1)%nat with (S (length F)) by lia.
              symmetry. exact Htail.
           ++ intros w' Hw'. rewrite resolvedWith_app.
              rewrite (Hun w' (list_elem_of_further _ _ _ Hw')). cbn.
              destruct (Nat.eqb_spec w w') as [->|_]; [contradiction|reflexivity].
        -- intros w' msg' Hin. apply elem_of_app in Hin as [Hin|Hin].
           ++ exact (Hfr w' msg' Hin).
           ++ apply list_elem_of_singleton in Hin. injection Hin as -> ->.
              exact Hfw.
        -- exact Hfr'.
        -- intros i Hi. unfold settledWith. cbn [calls resolutions].
           specialize (Hset i Hi). unfold settledWith in Hset.
           cbn [calls resolutions] in Hset.
           destruct (Nat.lt_trichotomy i (length F)) as [Hlt|[->|Hgt]].
           ++ rewrite lookup_app_l by exact Hlt.
              apply lookup_lt_is_Some_2 in Hlt as [x Hx]. rewrite Hx in *.
              destruct (cs !! i) as [[m0|w0]|]; try exact Hset.
              rewrite resolvedWith_app, Hset. reflexivity.
           ++ rewrite Hhead. rewrite resolvedWith_app.
              rewrite (Hun w (list_elem_of_here _ _)). cbn.
              rewrite Nat.eqb_refl.
              rewrite lookup_app_r by lia. rewrite Nat.sub_diag. reflexivity.
           ++ rewrite (lookup_ge_None_2 (F ++ [msg]))
                by (rewrite length_app; cbn; lia).
              assert (Hi' : cs !! i = inr <$> W' !! (i - S (length F))%nat).
              { rewrite <- list_lookup_fmap.
                change (inr <$> W') with (map (@inr Message Waiter) W').
                rewrite <- Htail, lookup_drop. f_equal. lia. }
              rewrite Hi'.
              destruct (W' !! (i - S (length F))%nat) as [w'|] eqn:Hw'; cbn;
                [|reflexivity].
              apply list_elem_of_lookup_2 in Hw'.
              rewrite resolvedWith_app.
              rewrite (Hun w' (list_elem_of_further _ _ _ Hw')). cbn.
              destruct (Nat.eqb_spec w w') as [->|_]; [contradiction|reflexivity].
    + (* a frame that does not decode is dropped *)
      unfold onMessage. rewrite Hdec. rewrite app_nil_r in HF.
      constructor; cbn [registry calls resolutions]; rewrite ?HF;
        try assumption.
      exists W. auto.
  - (* a call *)
    rewrite app_nil_r in HF.
    destruct (drop (length cs) F) as [|msg Q'] eqn:HQ.
    + (* nothing queued: the call waits *)
      apply drop_nil_length in HQ.
      assert (Hrm : ReceiveMessage ws reg
                    = (mkRegistry (messageQueues reg)
                         (<[ws := W ++ [nextWaiter reg]]> (messageCallbacks reg))
                         (S (nextWaiter reg)),
                       inr (nextWaiter reg))).
      { unfold ReceiveMessage, setupMessageHandler. rewrite Hq. cbn.
        rewrite Hq, Hcb. reflexivity. }
      rewrite Hrm.
      assert (Hnew : forall w', w' ∈ W -> w' <> nextWaiter reg).
      { intros w' Hw' ->.
        assert (Hin : inr (nextWaiter reg) ∈ cs).
        { apply (list_elem_of_fmap_2 (@inr Message Waiter)) in Hw'.
          change (inr <$> W) with (map (@inr Message Waiter) W) in Hw'.
          rewrite HW in Hw'.
          apply list_elem_of_lookup in Hw' as [j Hj].
          rewrite lookup_drop in Hj. apply list_elem_of_lookup_2 in Hj.
          exact Hj. }
        specialize (Hfr' _ Hin). lia. }
      constructor; cbn [registry calls resolutions messageQueues
                          messageCallbacks nextWaiter]; rewrite ?HF.
      * rewrite Hq. rewrite !drop_ge by (rewrite ?length_app; cbn; lia).
        reflexivity.
      * exists (W ++ [nextWaiter reg]). rewrite lookup_insert_eq.
        split; [reflexivity|]. split; [|split].
        -- rewrite map_app. cbn [map]. rewrite drop_app_le by exact HQ.
           rewrite HW. reflexivity.
        -- apply NoDup_app. split; [exact Hnd|]. split; [|apply NoDup_singleton].
           intros w' Hw' Hw''. apply list_elem_of_singleton in Hw''.
           exact (Hnew w' Hw' Hw'').
        -- intros w' Hw'. apply elem_of_app in Hw' as [Hw'|Hw'].
           ++ exact (Hun w' Hw').
           ++ apply list_elem_of_singleton in Hw'. subst w'.
              apply resolvedWith_fresh. intros w' msg' Hin ->.
              specialize (Hfr _ _ Hin). lia.
      * intros w' msg' Hin. specialize (Hfr _ _ Hin). lia.
      * intros w' Hin. apply elem_of_app in Hin as [Hin|Hin].
        -- specialize (Hfr' _ Hin). lia.
        -- apply list_elem_of_singleton in Hin. injection Hin as ->. lia.
      * intros i Hi. rewrite length_app in Hi. cbn [length] in Hi.
        destruct (Nat.lt_ge_cases i (length cs)) as [Hlt|Hge].
        -- rewrite (settledWith_calls_snoc reg) by exact Hlt. exact (Hset i Hlt).
        -- assert (i = length cs) by lia. subst i.
           unfold settledWith. cbn [calls resolutions].
           rewrite lookup_app_r by lia. rewrite Nat.sub_diag. cbn.
           rewrite (lookup_ge_None_2 F) by exact HQ.
           apply resolvedWith_fresh. intros w' msg' Hin ->.
           specialize (Hfr _ _ Hin). lia.
    + (* the oldest queued message is returned *)
      destruct (drop_lookup_head _ _ _ _ HQ) as (Hhead & Htail & Hlen).
      rewrite (ReceiveMessage_queued ws reg msg Q' Hq).
      constructor; cbn [registry calls resolutions]; rewrite ?HF.
      * rewrite setQueue_queue. rewrite length_app. cbn [length].
        replace (length cs + 1)%nat with (S (length cs)) by lia.
        rewrite Htail. reflexivity.
      * exists W. rewrite setQueue_callbacks. split; [exact Hcb|].
        split; [|split; [exact Hnd|exact Hun]].
        rewrite drop_ge in HW by lia.
        rewrite drop_ge by (rewrite length_app; cbn; lia). exact HW.
      * exact Hfr.
      * intros w' Hin. apply elem_of_app in Hin as [Hin|Hin].
        -- exact (Hfr' _ Hin).
        -- apply list_elem_of_singleton in Hin. discriminate Hin.
      * intros i Hi. rewrite length_app in Hi. cbn [length] in Hi.
        destruct (Nat.lt_ge_cases i (length cs)) as [Hlt|Hge].
        -- rewrite (settledWith_calls_snoc reg) by exact Hlt. exact (Hset i Hlt).
        -- assert (i = length cs) by lia. subst i.
           unfold settledWith. cbn [calls resolutions].
           rewrite lookup_app_r by lia. rewrite Nat.sub_diag. cbn.
           symmetry. exact Hhead.
Qed.

Lemma playInv_play (ws : WebSocket) (reg : Registry) (moves : list Move) :
  messageQueues reg !! ws = Some [] ->
  messageCallbacks reg !! ws = Some [] ->
  PlayInv ws moves (play ws moves reg).
Proof.
  intros Hq Hcb. induction moves as [|m moves IH] using rev_ind.
  - constructor; cbn.
    + exact Hq.
    + exists []. split; [exact Hcb|]. split; [reflexivity|].
      split; [apply NoDup_nil_2|]. intros w Hw. reflexivity.
    + intros w msg Hin. apply elem_of_nil in Hin. contradiction.
    + intros w Hin. apply elem_of_nil in Hin. contradiction.
    + intros i Hi. lia.
  - rewrite play_snoc. apply playInv_step, IH.
Qed.

Lemma calls_count (ws : WebSocket) (reg : Registry) (moves : list Move) :
  length (calls (play ws moves reg)) = length (List.filter isCall moves).
Proof.
  induction moves as [|m moves IH] using rev_ind; [reflexivity|].
  rewrite play_snoc, List.filter_app, length_app, <- IH.
  destruct m as [data|]; cbn [playMove List.filter isCall length].
  - destruct (onMessage ws data _) as [[reg' [r|]]|]; cbn; lia.
  - destruct (ReceiveMessage ws _) as [reg' r]. cbn. rewrite length_app.
    reflexivity.
Qed.

(** X14.  On a socket that has its two arrays, both empty, let frames
    arrive and [ReceiveMessage] be called in any order.  Then the promise of
    the [i]-th call is resolved with the [i]-th frame that has arrived and
    decoded (at once, or by the listener later), and it is still pending if
    fewer frames have arrived; the messages no call has taken are queued in
    the order of their arrival. *)
Theorem calls_served_in_order (ws : WebSocket) (reg : Registry)
    (moves : list Move) :
  messageQueues reg !! ws = Some [] ->
  messageCallbacks reg !! ws = Some [] ->
  let p := play ws moves reg in
  length (calls p) = length (List.filter isCall moves)
  /\ (forall i : nat,
        (i < length (calls p))%nat -> settledWith p i = arrivals moves !! i)
  /\ messageQueues (registry p) !! ws
     = Some (drop (length (calls p)) (arrivals moves)).
Proof.
  intros Hq Hcb p. split; [apply calls_count|].
  destruct (playInv_play ws reg moves Hq Hcb) as [Hqueue _ _ _ Hset].
  split; [exact Hset|exact Hqueue].
Qed.

Lemma calls_served_in_order_witness :
  let ws := 1%positive in
  let reg := run [Receive ws; Frame ws statusFrame] in
  let moves := [Call; Call; Arrive audioFrame1; Arrive [Byte.x11];
                Arrive audioFrame2; Arrive statusFrame; Call] in
  let p := play ws moves reg in
  messageQueues reg !! ws = Some []
  /\ messageCallbacks reg !! ws = Some []
  /\ arrivals moves
     = [audioMessage 1 [Byte.xaa]; audioMessage 2 [Byte.xbb];
        createMessage MsgType.FullServerResponse MsgTypeFlagBits.NoSeq]
  /\ length (calls p) = 3%nat
  /\ (forall i : nat,
        (i < length (calls p))%nat -> settledWith p i = arrivals moves !! i)
  /\ messageQueues (registry p) !! ws
     = Some (drop (length (calls p)) (arrivals moves)).
Proof.
  intros ws reg moves p.
  assert (Hq : messageQueues reg !! ws = Some []) by (vm_compute; reflexivity).
  assert (Hcb : messageCallbacks reg !! ws = Some []) by (vm_compute; reflexivity).
  split; [exact Hq|]. split; [exact Hcb|].
  split; [vm_compute; reflexivity|].
  destruct (calls_served_in_order ws reg moves Hq Hcb) as (Hn & Hset & Hqueue).
  split; [exact Hn|]. split; [exact Hset|exact Hqueue].
Defined.

(** ** Further properties of the streaming loop *)

Lemma receiveLoop_waits (received : list Message) :
  Forall keepsGoing received ->
  forall audioChunks : list (list byte),
    receiveLoop audioChunks received = (Suspended, []).
Proof.
  induction 1 as [|msg received Hmsg _ IH]; intros audioChunks.
  - reflexivity.
  - rewrite receiveLoop_keepsGoing by exact Hmsg. apply IH.
Qed.

(** X15.  For any number of messages: if the messages before the first
    [FullServerResponse] with event [SessionFinished] are status responses
    and audio messages, the loop returns the payloads of the audio messages,
    concatenated in the order of arrival, and leaves what follows unread; it
    throws "no audio received" when there was no audio message.  Without that
    response the loop never returns. *)
Theorem receiveAudio_collects :
  (forall (before : list Message) (finished : Message) (rest : list Message),
      Forall keepsGoing before ->
      type finished = MsgType.FullServerResponse ->
      event finished = Some EventType.SessionFinished ->
      receiveAudio (before ++ finished :: rest)
      = (match audioOf before with
         | [] => Thrown EmptyResult
         | _ :: _ => Returned (concat (audioOf before))
         end, rest))
  /\ (forall received : list Message,
      Forall keepsGoing received ->
      receiveAudio received = (Suspended, [])).
Proof.
  split.
  - intros before finished rest Hb Ht He. unfold receiveAudio.
    rewrite (receiveLoop_collects before Hb [] finished rest)
      by (apply isLast_spec; split; assumption).
    cbn [app]. destruct (audioOf before); reflexivity.
  - intros received Hr. unfold receiveAudio.
    rewrite (receiveLoop_waits received Hr). reflexivity.
Qed.

Lemma receiveAudio_collects_witness :
  let before := [statusMessage; audioMessage 1 [Byte.xaa]; statusMessage;
                 audioMessage 2 []; audioMessage 3 [Byte.xbb; Byte.xcc]] in
  Forall keepsGoing before
  /\ type finishedMessage = MsgType.FullServerResponse
  /\ event finishedMessage = Some EventType.SessionFinished
  /\ receiveAudio (before ++ finishedMessage :: [statusMessage])
     = (Returned [Byte.xaa; Byte.xbb; Byte.xcc], [statusMessage])
  /\ receiveAudio before = (Suspended, []).
Proof.
  intros before.
  assert (Hb : Forall keepsGoing before).
  { repeat (constructor; [(left; split; [reflexivity|discriminate])
                          || (right; reflexivity)|]).
    constructor. }
  split; [exact Hb|]. split; [reflexivity|]. split; [reflexivity|].
  split.
  - exact (proj1 receiveAudio_collects before finishedMessage [statusMessage]
             Hb eq_refl eq_refl).
  - exact (proj2 receiveAudio_collects before Hb).
Defined.

(** ** The speech service *)

Lemma normalizePath_length (filePath : string) :
  String.length (TTSService.normalizePath filePath) = String.length filePath.
Proof.
  induction filePath as [|c rest IH]; cbn; [reflexivity|].
  rewrite IH. reflexivity.
Qed.

(** X16.  [normalizePath] returns a path of the same length without a
    backslash; it changes nothing in a path that has none, so applying it
    twice is applying it once. *)
Theorem normalizePath_no_backslash (filePath : string) :
  ~ In "\"%char (list_ascii_of_string (TTSService.normalizePath filePath))
  /\ String.length (TTSService.normalizePath filePath) = String.length filePath
  /\ TTSService.normalizePath (TTSService.normalizePath filePath)
     = TTSService.normalizePath filePath
  /\ (~ In "\"%char (list_ascii_of_string filePath) ->
      TTSService.normalizePath filePath = filePath).
Proof.
  split; [|split; [apply normalizePath_length|split]].
  - induction filePath as [|c rest IH]; cbn; [tauto|].
    intros [H|H]; [|exact (IH H)].
    destruct (Ascii.eqb_spec c "\"%char) as [->|Hne]; [discriminate H|].
    apply Hne. exact H.
  - induction filePath as [|c rest IH]; cbn; [reflexivity|].
    rewrite IH. f_equal.
    destruct (Ascii.eqb_spec c "\"%char) as [->|Hne]; [reflexivity|].
    destruct (Ascii.eqb_spec c "\"%char); [contradiction|reflexivity].
  - induction filePath as [|c rest IH]; cbn; [reflexivity|].
    intros Hno. rewrite IH by tauto. f_equal.
    destruct (Ascii.eqb_spec c "\"%char) as [->|Hne]; [|reflexivity].
    exfalso. apply Hno. left. reflexivity.
Qed.

Lemma normalizePath_no_backslash_witness :
  TTSService.normalizePath "C:\temp\a.wav" = "C:/temp/a.wav"%string
  /\ ~ In "\"%char (list_ascii_of_string "out/a.wav")
  /\ TTSService.normalizePath "out/a.wav" = "out/a.wav"%string.
Proof.
  split; [reflexivity|].
  assert (H : ~ In "\"%char (list_ascii_of_string "out/a.wav")).
  { cbn. intros H. repeat destruct H as [H|H]; try discriminate H. exact H. }
  split; [exact H|].
  exact (proj2 (proj2 (proj2 (normalizePath_no_backslash "out/a.wav"))) H).
Defined.

Lemma find_first {A : Type} (f : A -> bool) (before after : list A) (x : A) :
  Forall (fun a => f a = false) before -> f x = true ->
  List.find f (before ++ x :: after) = Some x.
Proof.
  induction 1 as [|a before Ha _ IH]; intros Hx; cbn.
  - rewrite Hx. reflexivity.
  - rewrite Ha. exact (IH Hx).
Qed.

Lemma find_absent {A : Type} (f : A -> bool) (l : list A) :
  Forall (fun a => f a = false) l -> List.find f l = None.
Proof.
  induction 1 as [|a l Ha _ IH]; cbn; [reflexivity|]. rewrite Ha. exact IH.
Qed.

(** X17.  [getVoiceParams] looks a voice up by its name first: the first
    voice with that name gives the id and the resource, even when another
    voice has the name as its id.  When no voice has the name, the first
    voice with that id gives the resource; when there is none either, the
    resource is "seed-tts-2.0".  In these two cases the voice id is the name
    that was asked for. *)
Theorem getVoiceParams_lookup (voices : list TTSService.VoiceConfig)
    (speakerName : string) :
  (forall before voice after,
      voices = before ++ voice :: after ->
      Forall (fun v => TTSService.name v <> speakerName) before ->
      TTSService.name voice = speakerName ->
      TTSService.getVoiceParams voices speakerName
      = TTSService.mkVoiceParams (TTSService.id voice) (TTSService.model voice))
  /\ (forall before voice after,
      voices = before ++ voice :: after ->
      Forall (fun v => TTSService.name v <> speakerName) voices ->
      Forall (fun v => TTSService.id v <> speakerName) before ->
      TTSService.id voice = speakerName ->
      TTSService.getVoiceParams voices speakerName
      = TTSService.mkVoiceParams speakerName (TTSService.model voice))
  /\ (Forall (fun v => TTSService.name v <> speakerName
                       /\ TTSService.id v <> speakerName) voices ->
      TTSService.getVoiceParams voices speakerName
      = TTSService.mkVoiceParams speakerName "seed-tts-2.0")
  /\ (Forall (fun v => TTSService.name v <> speakerName) voices ->
      TTSService.voiceId (TTSService.getVoiceParams voices speakerName)
      = speakerName).
Proof.
  assert (Hneq : forall (P : TTSService.VoiceConfig -> string) l,
             Forall (fun v => P v <> speakerName) l ->
             Forall (fun v => String.eqb (P v) speakerName = false) l).
  { intros P l H. eapply Forall_impl; [exact H|]. intros v Hv. cbn beta.
    apply String.eqb_neq. exact Hv. }
  unfold TTSService.getVoiceParams, TTSService.getVoiceConfig.
  split; [|split; [|split]].
  - intros before voice after -> Hb Hn.
    rewrite (find_first _ before after voice (Hneq _ _ Hb))
      by (apply String.eqb_eq; exact Hn).
    reflexivity.
  - intros before voice after -> Hall Hb Hi.
    rewrite (find_absent _ _ (Hneq _ _ Hall)).
    rewrite (find_first _ before after voice (Hneq _ _ Hb))
      by (apply String.eqb_eq; exact Hi).
    rewrite Hi. reflexivity.
  - intros Hall.
    rewrite (find_absent (fun v => String.eqb (TTSService.name v) speakerName))
      by (apply Hneq; eapply Forall_impl; [exact Hall|]; intros v [H _]; exact H).
    rewrite (find_absent (fun v => String.eqb (TTSService.id v) speakerName))
      by (apply Hneq; eapply Forall_impl; [exact Hall|]; intros v [_ H]; exact H).
    reflexivity.
  - intros Hall. rewrite (find_absent _ _ (Hneq _ _ Hall)).
    destruct (List.find _ voices) as [voice|] eqn:Hf; [|reflexivity].
    apply List.find_some in Hf as [_ Hf]. apply String.eqb_eq in Hf.
    exact Hf.
Qed.

Lemma getVoiceParams_lookup_witness :
  let v1 := TTSService.mkVoiceConfig "B" "A" "" "" TTSService.female "zh"
              "seed-tts-1.0" None in
  let v2 := TTSService.mkVoiceConfig "zh_b" "B" "" "" TTSService.male "zh"
              "seed-tts-2.0" None in
  let voices := [v1; v2] in
  TTSService.getVoiceParams voices "B"
  = TTSService.mkVoiceParams "zh_b" "seed-tts-2.0"
  /\ TTSService.getVoiceParams voices "zh_b"
     = TTSService.mkVoiceParams "zh_b" "seed-tts-2.0"
  /\ TTSService.getVoiceParams voices "C"
     = TTSService.mkVoiceParams "C" "seed-tts-2.0"
  /\ TTSService.voiceId (TTSService.getVoiceParams voices "zh_b") = "zh_b"%string.
Proof.
  intros v1 v2 voices.
  assert (Hn1 : TTSService.name v1 <> "B"%string) by discriminate.
  assert (Hz1 : TTSService.name v1 <> "zh_b"%string) by discriminate.
  assert (Hz2 : TTSService.name v2 <> "zh_b"%string) by discriminate.
  assert (Hi1 : TTSService.id v1 <> "zh_b"%string) by discriminate.
  assert (Hall : Forall (fun v => TTSService.name v <> "zh_b"%string) voices)
    by (repeat constructor; assumption).
  split; [|split; [|split]].
  - apply (proj1 (getVoiceParams_lookup voices "B") [v1] v2 []);
      [reflexivity|repeat constructor; exact Hn1|reflexivity].
  - apply (proj1 (proj2 (getVoiceParams_lookup voices "zh_b")) [v1] v2 []);
      [reflexivity|exact Hall|repeat constructor; exact Hi1|reflexivity].
  - apply (proj1 (proj2 (proj2 (getVoiceParams_lookup voices "C")))).
    repeat constructor; discriminate.
  - exact (proj2 (proj2 (proj2 (getVoiceParams_lookup voices "zh_b"))) Hall).
Defined.

Section DialogueProofs.

Variable AudioSegment : Type.

Variable synthesizeSingle : nat -> string -> string -> AudioSegment + string.

Variable onProgress : option (nat -> nat -> option string).

Lemma turn_effects (i total : nat) (item : TTSService.PodcastDialogue)
    (effects : list TTSService.Effect) :
  TTSService.callsOf (TTSService.turn onProgress i total item effects)
  = TTSService.spoken item :: TTSService.callsOf effects
  /\ TTSService.progressOf (TTSService.turn onProgress i total item effects)
     = match onProgress with
       | Some _ => [((i + 1)%nat, total)]
       | None => []
       end ++ TTSService.progressOf effects
  /\ TTSService.delaysOf (TTSService.turn onProgress i total item effects)
     = (if (i <? total - 1)%nat then [100%nat] else [])
       ++ TTSService.delaysOf effects.
Proof.
  unfold TTSService.turn. destruct onProgress, (i <? total - 1)%nat; repeat split.
Qed.

Lemma reportsOf_cons (first count total : nat) :
  TTSService.reportsOf onProgress first (S count) total
  = match onProgress with
    | Some _ => [(first, total)]
    | None => []
    end ++ TTSService.reportsOf onProgress (first + 1) count total.
Proof.
  unfold TTSService.reportsOf. destruct onProgress; [|reflexivity].
  cbn [seq map app]. replace (S first) with (first + 1)%nat by lia.
  reflexivity.
Qed.

Lemma synthesizeFrom_outcome (dialogue : list TTSService.PodcastDialogue) :
  forall (i total : nat) (segments : list AudioSegment),
    TTSService.dialogueOutcome AudioSegment synthesizeSingle onProgress
      i total segments dialogue
      (TTSService.synthesizeFrom AudioSegment synthesizeSingle onProgress
         i total segments dialogue).
Proof.
  induction dialogue as [|item rest IH]; intros i total segments.
  - unfold TTSService.dialogueOutcome. cbn [fst snd TTSService.synthesizeFrom].
    split; [reflexivity|].
    split; [unfold TTSService.reportsOf; destruct onProgress; reflexivity|].
    split; [reflexivity|].
    exists []. rewrite app_nil_r. repeat split. intros j item Hj.
    discriminate Hj.
  - cbn [TTSService.synthesizeFrom].
    destruct (synthesizeSingle i (TTSService.text item) (TTSService.speaker item))
      as [segment|message] eqn:Hcall.
    + destruct (onProgress ≫= _) as [message|] eqn:Hcb.
      * (* the callback throws *)
        unfold TTSService.dialogueOutcome. cbn [fst snd].
        exists 0%nat, item. rewrite !Nat.add_0_r.
        split; [reflexivity|]. split; [reflexivity|].
        split; [intros j item' Hj; lia|].
        split.
        { right. split; [exists segment; exact Hcall|].
          split; [exact Hcb|].
          unfold TTSService.reportsOf. destruct onProgress; [reflexivity|].
          discriminate Hcb. }
        split; [destruct onProgress; reflexivity|].
        destruct onProgress; reflexivity.
      * (* on to the next item *)
        specialize (IH (i + 1)%nat total (segments ++ [segment])).
        destruct (TTSService.synthesizeFrom _ _ _ _ _ _ rest)
          as [result effects].
        unfold TTSService.dialogueOutcome in *. cbn [fst snd] in *.
        change (TTSService.Synthesize (TTSService.text item)
                  (TTSService.speaker item)
                :: match onProgress with
                   | Some _ => [TTSService.Progress (i + 1) total]
                   | None => []
                   end
                ++ (if (i <? total - 1)%nat
                    then [TTSService.Delay 100] else [])
                ++ effects)
          with (TTSService.turn onProgress i total item effects).
        destruct (turn_effects i total item effects) as (Hc & Hp & Hd).
        rewrite Hc, Hp, Hd.
        assert (Hdelays : forall n : nat,
                   (if (i <? total - 1)%nat then [100%nat] else [])
                   ++ replicate (n `min` (total - 1 - (i + 1))) 100%nat
                   = replicate (S n `min` (total - 1 - i)) 100%nat).
        { intros n. destruct (Nat.ltb_spec i (total - 1)).
          - replace (S n `min` (total - 1 - i))%nat
              with (S (n `min` (total - 1 - (i + 1))))%nat by lia.
            reflexivity.
          - replace (S n `min` (total - 1 - i))%nat with 0%nat by lia.
            replace (n `min` (total - 1 - (i + 1)))%nat with 0%nat by lia.
            reflexivity. }
        destruct result as [out|error].
        -- destruct IH as (Hcalls & Hprog & Hdel & new & Hout & Hlen & Hnew).
           split; [rewrite Hcalls; reflexivity|].
           split; [rewrite Hprog; cbn [length]; rewrite reportsOf_cons;
                   reflexivity|].
           split; [rewrite Hdel; cbn [length]; apply Hdelays|].
           exists (segment :: new).
           split; [rewrite Hout, <- app_assoc; reflexivity|].
           split; [cbn [length]; rewrite Hlen; reflexivity|].
           intros [|j] item' Hj.
           ++ injection Hj as <-. exists segment.
              rewrite Nat.add_0_r. split; [reflexivity|].
              split; [exact Hcall|exact Hcb].
           ++ destruct (Hnew j item' Hj) as (seg & Hseg & Hs & Hr).
              exists seg. split; [exact Hseg|].
              replace (i + S j)%nat with (i + 1 + j)%nat by lia.
              split; [exact Hs|exact Hr].
        -- destruct IH as (k & item' & Hk & Hpos & Hbefore & Hfail & Hcalls
                           & Hdel).
           exists (S k), item'.
           split; [exact Hk|]. split; [lia|].
           split.
           { intros [|j] item'' Hlt Hj.
             - injection Hj as <-. rewrite Nat.add_0_r.
               exists segment. split; [exact Hcall|exact Hcb].
             - replace (i + S j)%nat with (i + 1 + j)%nat by lia.
               apply Hbefore; [lia|exact Hj]. }
           split.
           { replace (i + S k)%nat with (i + 1 + k)%nat by lia.
             destruct Hfail as [[Hs Hprog]|(Hs & Hr & Hprog)].
             - left. split; [exact Hs|].
               rewrite Hprog, reportsOf_cons. reflexivity.
             - right. split; [exact Hs|]. split; [exact Hr|].
               rewrite Hprog. cbn [Nat.add]. rewrite reportsOf_cons.
               reflexivity. }
           split; [cbn [Nat.add take map]; rewrite Hcalls; reflexivity|].
           rewrite Hdel. apply Hdelays.
    + (* the call fails *)
      unfold TTSService.dialogueOutcome. cbn [fst snd].
      exists 0%nat, item. rewrite !Nat.add_0_r.
      split; [reflexivity|]. split; [reflexivity|].
      split; [intros j item' Hj; lia|].
      split.
      { left. split; [exact Hcall|].
        unfold TTSService.reportsOf. destruct onProgress; reflexivity. }
      split; reflexivity.
Qed.

End DialogueProofs.

(** X18.  [synthesizeDialogue] calls [synthesizeSingle] on the items in
    order and stops at the first turn that fails, which is the first whose
    call throws or, the call having returned, whose report of progress
    throws.  It returns exactly when no turn fails: then the segments are
    the results of the calls, one for each item and in the order of the
    dialogue; progress was reported as 1, 2, ... of the number of items, and
    there was a delay of 100 ms between two items, none after the last.  It
    throws at the first turn that fails: every item before it has gone
    through, the error has its position, counted from 1, and the message of
    what was thrown there, no later item was attempted, and there was a
    delay after each of the items before it. *)
Theorem synthesizeDialogue_in_order (AudioSegment : Type)
    (synthesizeSingle : nat -> string -> string -> AudioSegment + string)
    (onProgress : option (nat -> nat -> option string))
    (dialogue : list TTSService.PodcastDialogue) :
  let total := length dialogue in
  let outcome :=
    TTSService.synthesizeDialogue AudioSegment synthesizeSingle onProgress
      dialogue in
  match fst outcome with
  | inl segments =>
      length segments = total
      /\ (forall j item,
            dialogue !! j = Some item ->
            exists segment,
              segments !! j = Some segment
              /\ synthesizeSingle j (TTSService.text item)
                   (TTSService.speaker item) = inl segment
              /\ TTSService.reportProgress onProgress (j + 1) total = None)
      /\ TTSService.callsOf (snd outcome) = map TTSService.spoken dialogue
      /\ TTSService.progressOf (snd outcome)
         = TTSService.reportsOf onProgress 1 total total
      /\ TTSService.delaysOf (snd outcome) = replicate (total - 1) 100%nat
  | inr error =>
      exists (k : nat) (item : TTSService.PodcastDialogue),
        dialogue !! k = Some item
        /\ TTSService.position error = (k + 1)%nat
        /\ (forall j item',
              (j < k)%nat -> dialogue !! j = Some item' ->
              TTSService.succeeds AudioSegment synthesizeSingle onProgress
                j total item')
        /\ (synthesizeSingle k (TTSService.text item) (TTSService.speaker item)
            = inr (TTSService.message error)
            /\ TTSService.progressOf (snd outcome)
               = TTSService.reportsOf onProgress 1 k total
            \/ (exists segment,
                  synthesizeSingle k (TTSService.text item)
                    (TTSService.speaker item) = inl segment)
               /\ TTSService.reportProgress onProgress (k + 1) total
                  = Some (TTSService.message error)
               /\ TTSService.progressOf (snd outcome)
                  = TTSService.reportsOf onProgress 1 (k + 1) total)
        /\ TTSService.callsOf (snd outcome)
           = map TTSService.spoken (take (k + 1) dialogue)
        /\ TTSService.delaysOf (snd outcome) = replicate k 100%nat
  end.
Proof.
  intros total outcome.
  pose proof (synthesizeFrom_outcome AudioSegment synthesizeSingle onProgress
                dialogue 0 (length dialogue) []) as H.
  unfold TTSService.dialogueOutcome in H.
  change (TTSService.synthesizeFrom AudioSegment synthesizeSingle onProgress 0
            (length dialogue) [] dialogue) with outcome in H.
  fold total in H. cbn [Nat.add] in H.
  destruct (fst outcome) as [segments|error].
  - destruct H as (Hcalls & Hprog & Hdel & new & Hout & Hlen & Hnew).
    cbn [app] in Hout. subst new.
    split; [exact Hlen|]. split; [exact Hnew|]. split; [exact Hcalls|].
    split; [exact Hprog|]. rewrite Hdel. f_equal. lia.
  - destruct H as (k & item & Hk & Hpos & Hbefore & Hfail & Hcalls & Hdel).
    exists k, item.
    split; [exact Hk|]. split; [exact Hpos|]. split; [exact Hbefore|].
    split; [exact Hfail|]. split; [exact Hcalls|].
    rewrite Hdel. f_equal.
    apply lookup_lt_Some in Hk. fold total in Hk. lia.
Qed.

Lemma synthesizeDialogue_in_order_witness :
  let single := fun (i : nat) (text speaker : string) =>
                  if (i =? 2)%nat then inr "timeout"%string
                  else inl (speaker ++ ": " ++ text)%string in
  let dialogue := [TTSService.mkPodcastDialogue "A" "one";
                   TTSService.mkPodcastDialogue "B" "two";
                   TTSService.mkPodcastDialogue "A" "three";
                   TTSService.mkPodcastDialogue "B" "four"] in
  let outcome := TTSService.synthesizeDialogue string single None dialogue in
  fst outcome = inr (TTSService.mkDialogueError 3 "timeout")
  /\ TTSService.callsOf (snd outcome)
     = [("one", "A"); ("two", "B"); ("three", "A")]%string
  /\ TTSService.delaysOf (snd outcome) = [100; 100]%nat
  /\ fst (TTSService.synthesizeDialogue string single None (take 2 dialogue))
     = inl ["A: one"; "B: two"]%string.
Proof.
  intros single dialogue outcome.
  pose proof (synthesizeDialogue_in_order string single None dialogue) as H.
  cbv zeta in H. fold outcome in H.
  assert (Hf : fst outcome = inr (TTSService.mkDialogueError 3 "timeout"))
    by reflexivity.
  rewrite Hf in H.
  destruct H as (k & item & _ & Hpos & _ & _ & Hcalls & Hdel).
  cbn [TTSService.position] in Hpos.
  assert (k = 2%nat) as -> by lia.
  split; [exact Hf|]. split; [exact Hcalls|]. split; [exact Hdel|].
  reflexivity.
Defined.
